(** * photo-face-finder: the indexing pipeline and the matching engine

    A shallow embedding of [indexer.py] and [searcher.py].

    - A Python [float] (and an element of a NumPy [float64] array) is its
      IEEE-754 binary64 bit pattern, a [Z] in [0, 2^64).  The program only
      copies floats, compares them and lets SQLite take their maximum, so
      comparison is defined on the bit patterns.
    - A [bytes] object / SQLite BLOB is a [list byte].
    - A path is a [string]; [str(Path(s))] is the identity on the
      normalised strings the scanner produces.
    - The SQLite connection is a pair of the committed table and the
      pending, uncommitted view held by the open transaction;
      [conn.rollback()] and [conn.close()] are taken to succeed.  A call on
      the connection or its cursor can raise [sqlite3.Error] or any other
      exception (binding a path that is not valid UTF-8 raises
      [UnicodeEncodeError]).
    - The status queue is the list of messages put on it, oldest first.
    - What the environment decides (the file system, the face library,
      whether a database statement fails and with which exception, the
      completion order of the worker pool, whether its iterator raises or
      blocks for ever) is read from a [World] and an [Oracle] record.
    - A call that never returns is a [run] whose field [blocked] is set;
      its queue holds what was put before the call blocked. *)

From Stdlib Require Import ZArith Lia Bool Ascii.
From Stdlib Require OrderedTypeEx.
From stdpp Require Import gmap strings list sorting pretty.
From coqutil Require Import Byte Word.LittleEndianList.

Open Scope Z_scope.

(** ** Exceptions *)

(** The subclasses of [Exception] the two modules distinguish, the one
    [sqlite3] raises for a string it cannot encode, and any other. *)
Inductive exn : Type :=
  | FileNotFoundError
  | UnidentifiedImageError
  | ValueError
  | sqlite3_Error
  | UnicodeEncodeError
  | OtherException.

(** [sys.exit(code)] raises [SystemExit], a [BaseException] that is not an
    [Exception]: no [except Exception] clause catches it. *)
Inductive system_exit : Type := SystemExit (code : Z).

(** A computation that returns or raises. *)
Definition result (A : Type) : Type := exn + A.

Definition ret {A} (a : A) : result A := inr a.
Definition raise {A} (e : exn) : result A := inl e.
Definition bind {A B} (m : result A) (k : A -> result B) : result B :=
  match m with inl e => inl e | inr a => k a end.

Notation "'let*' x := m 'in' k" := (bind m (fun x => k))
  (at level 10, x name, m at level 100, k at level 200).

(** ** binary64 values as bit patterns *)

Module Float64.

Definition float64 : Type := Z.

Definition wf (x : float64) : Prop := 0 <= x < 2 ^ 64.

Definition sign (x : float64) : bool := Z.testbit x 63.
Definition exponent (x : float64) : Z := Z.land (Z.shiftr x 52) 2047.
Definition fraction (x : float64) : Z := Z.land x (Z.ones 52).
Definition magnitude (x : float64) : Z := Z.land x (Z.ones 63).

Definition is_nan (x : float64) : bool :=
  (exponent x =? 2047) && negb (fraction x =? 0).

(** Order-preserving integer image of a non-NaN value (-0.0 and 0.0 both
    map to 0). *)
Definition key (x : float64) : Z :=
  if sign x then - magnitude x else magnitude x.

(** Python's [a < b], [a <= b] and [a > b] on floats. *)
Definition lt (a b : float64) : bool :=
  negb (is_nan a) && negb (is_nan b) && (key a <? key b).
Definition le (a b : float64) : bool :=
  negb (is_nan a) && negb (is_nan b) && (key a <=? key b).
Definition gt (a b : float64) : bool := lt b a.

End Float64.

Abbreviation float64 := Float64.float64.

(** ** BLOB conversion ([np_array_to_blob], [blob_to_np_array]) *)

(** [sys.byteorder] of the machine. *)
Inductive byteorder : Type := little | big.

(** The eight bytes of one array element in memory. *)
Definition float64_to_bytes (bo : byteorder) (x : float64) : list byte :=
  match bo with
  | little => le_split 8 x
  | big => rev (le_split 8 x)
  end.

Definition float64_of_bytes (bo : byteorder) (bs : list byte) : float64 :=
  match bo with
  | little => le_combine bs
  | big => le_combine (rev bs)
  end.

(** indexer.py [np_array_to_blob]: [arr.tobytes()] of a one-dimensional
    float64 array. *)
Definition np_array_to_blob (bo : byteorder) (arr : list float64) : list byte :=
  flat_map (float64_to_bytes bo) arr.

(** [count] items of eight bytes read from the front of a buffer. *)
Fixpoint read_items (bo : byteorder) (count : nat) (buf : list byte)
  : list float64 :=
  match count with
  | O => []
  | S n => float64_of_bytes bo (firstn 8 buf) :: read_items bo n (skipn 8 buf)
  end.

(** searcher.py [blob_to_np_array]: [np.frombuffer(blob, dtype=np.float64)].
    NumPy raises [ValueError] when the buffer size is not a multiple of the
    element size. *)
Definition blob_to_np_array (bo : byteorder) (blob : list byte)
  : result (list float64) :=
  if (length blob mod 8 =? 0)%nat
  then ret (read_items bo (length blob / 8) blob)
  else raise ValueError.

(** ** The index store: one table [faces] behind a SQLite connection *)

Module Store.

(** One row of [faces]. *)
Record Row : Type := {
  row_id : Z;
  file_path : string;
  last_modified : float64;
  face_encoding : list byte;
  face_location_css : string
}.

(** The table and its [sqlite_sequence] entry ([id] is AUTOINCREMENT). *)
Record Table : Type := { rows : list Row; sqlite_sequence : Z }.

Definition empty_table : Table := {| rows := []; sqlite_sequence := 0 |}.

Definition max_rowid (rs : list Row) : Z :=
  foldr (fun r m => Z.max (row_id r) m) 0 rs.

(** AUTOINCREMENT: one more than the largest id ever used in the table. *)
Definition next_rowid (t : Table) : Z :=
  Z.max (sqlite_sequence t) (max_rowid (rows t)) + 1.

(** [DELETE FROM faces WHERE file_path = ?] *)
Definition delete_where_path (p : string) (t : Table) : Table :=
  {| rows := filter (fun r => file_path r <> p) (rows t);
   sqlite_sequence := sqlite_sequence t |}.

(** [INSERT INTO faces (file_path, last_modified, face_encoding,
    face_location_css) VALUES (?, ?, ?, ?)] *)
Definition insert_row (p : string) (lm : float64) (enc : list byte)
    (loc : string) (t : Table) : Table :=
  let i := next_rowid t in
  {| rows := rows t ++ [ {| row_id := i; file_path := p; last_modified := lm;
                            face_encoding := enc; face_location_css := loc |} ];
     sqlite_sequence := i |}.

(** [SELECT ... FROM faces WHERE file_path = p], in table order. *)
Definition rows_for (p : string) (t : Table) : list Row :=
  filter (fun r => file_path r = p) (rows t).

Inductive statement : Type :=
  | DELETE_FROM_faces (p : string)
  | INSERT_INTO_faces (p : string) (lm : float64) (enc : list byte)
                      (loc : string).

Definition run_statement (s : statement) (t : Table) : Table :=
  match s with
  | DELETE_FROM_faces p => delete_where_path p t
  | INSERT_INTO_faces p lm enc loc => insert_row p lm enc loc t
  end.

(** A connection: what is committed in the file, and the view of the
    transaction that a data-changing statement opens implicitly. *)
Record conn : Type := { committed : Table; pending : option Table }.

Definition connect (t : Table) : conn :=
  {| committed := t; pending := None |}.

Definition view (c : conn) : Table := default (committed c) (pending c).

Definition execute (s : statement) (c : conn) : conn :=
  {| committed := committed c; pending := Some (run_statement s (view c)) |}.

Definition commit (c : conn) : conn :=
  {| committed := view c; pending := None |}.

Definition rollback (c : conn) : conn :=
  {| committed := committed c; pending := None |}.

(** Closing drops whatever has not been committed. *)
Definition close (c : conn) : Table := committed c.

End Store.

Import Store.

(** ** Status messages *)

(** A message put on the status queue: its prefix, the text of the
    f-string and the values formatted into it.  The terminal events are the
    bare strings ["DONE"] and ["ABORTED"]. *)
Inductive arg : Type :=
  | str (s : string)
  | num (n : nat)
  | int (z : Z)
  | real (x : float64)
  | seconds.

Inductive message : Type :=
  | INFO (text : string) (args : list arg)
  | WARN (text : string) (args : list arg)
  | ERROR (text : string) (args : list arg)
  | FATAL_ERROR
  | PROGRESS (completed total : nat) (name : string)
  | RESULT (file_path : string)
  | PLAIN (text : string) (args : list arg)
  | DONE
  | ABORTED.

Definition is_terminal (m : message) : bool :=
  match m with DONE | ABORTED => true | _ => false end.

Definition terminal_events (q : list message) : list message :=
  List.filter is_terminal q.

(** ** The environment *)

Definition image : Type := list Z.

(** A face bounding box [(top, right, bottom, left)]. *)
Definition location : Type := (Z * Z * Z * Z)%type.

Definition encoding : Type := list float64.

Record World : Type := {
  byte_order : byteorder;
  (** [path.stat().st_mtime] *)
  stat_mtime : string -> result float64;
  (** [Path(p).is_file()] *)
  is_file : string -> bool;
  (** the paths yielded by the directory scanner *)
  find_image_files : list string -> list string;
  (** [face_recognition.load_image_file] *)
  load_image_file : string -> result image;
  (** [face_recognition.face_locations(image, model=...)] *)
  face_locations : string -> image -> result (list location);
  (** [face_recognition.face_encodings(image, locations, num_jitters,
      model)] *)
  face_encodings :
    image -> list location -> nat -> string -> result (list encoding);
  (** one entry of [face_recognition.face_distance] *)
  face_distance : encoding -> encoding -> float64
}.

(** How the results iterator of the pool stops before its end. *)
Inductive iterator_end : Type :=
  (** [next] raises *)
  | raises
  (** a worker process has died and its task never yields: [next] never
      returns once the results of the other tasks are consumed *)
  | blocks.

(** What the environment decides during one indexing run. *)
Record Oracle : Type := {
  (** [sqlite3.Error] inside [setup_database] *)
  setup_fails : bool;
  (** [sqlite3.Error] inside [get_indexed_files] *)
  snapshot_fails : bool;
  (** [sqlite3.Error] from [sqlite3.connect] / [conn.cursor()] *)
  connect_fails : bool;
  (** [multiprocessing.Pool(...)] raises for a reason of its own *)
  pool_start_fails : bool;
  (** the results iterator stops after yielding this many results, and
      how *)
  pool_breaks_after : option (nat * iterator_end);
  (** the order in which [imap_unordered] yields the dispatched paths *)
  completion_order : list string -> list string;
  (** for the i-th result consumed: how many database calls succeed before
      one raises, and what it raises *)
  statement_fails : nat -> option (nat * exn)
}.

(** ** indexer.py *)

Module Indexer.

(** [setup_database]: [CREATE TABLE IF NOT EXISTS]; on [sqlite3.Error] the
    function calls [sys.exit(1)].  The database file is [None] while it does
    not exist. *)
Definition setup_database (o : Oracle) (db_file : option Table)
  : system_exit + Table :=
  if setup_fails o then inl (SystemExit 1)
  else inr (default empty_table db_file).

(** [SELECT file_path, MAX(last_modified) FROM faces GROUP BY file_path] *)
Definition max_last_modified (acc : float64) (x : float64) : float64 :=
  if Float64.lt acc x then x else acc.

Definition group_max (indexed : gmap string float64) (r : Row)
  : gmap string float64 :=
  match indexed !! file_path r with
  | None => <[file_path r := last_modified r]> indexed
  | Some m => <[file_path r := max_last_modified m (last_modified r)]> indexed
  end.

(** [get_indexed_files]: an empty dictionary when the file does not exist
    or the query raises. *)
Definition get_indexed_files (o : Oracle) (db_file : option Table)
  : gmap string float64 :=
  match db_file with
  | None => ∅
  | Some t => if snapshot_fails o then ∅ else foldl group_max ∅ (rows t)
  end.

(** One stored face: [(last_modified, encoding_blob, location_str)]. *)
Definition face_data : Type := (float64 * list byte * string)%type.

Definition location_str (l : location) : string :=
  let '(top_, right_, bottom_, left_) := l in
  pretty top_ +:+ "," +:+ pretty right_ +:+ "," +:+ pretty bottom_ +:+ ","
    +:+ pretty left_.

(** [ENCODING_MODEL] and [NUM_JITTERS] of the module's configuration. *)
Definition ENCODING_MODEL : string := "large".
Definition NUM_JITTERS : nat := 1.

(** The [try] block of [process_image]. *)
Definition process_image_try (w : World) (DETECTION_MODEL : string)
    (image_path : string) : result (string * option (list face_data)) :=
  let* last_modified := stat_mtime w image_path in
  let* image_array := load_image_file w image_path in
  let* locations := face_locations w DETECTION_MODEL image_array in
  match locations with
  | [] => ret (image_path, None)
  | _ :: _ =>
    let* encodings :=
      face_encodings w image_array locations NUM_JITTERS ENCODING_MODEL in
    match encodings with
    | [] => ret (image_path, None)
    | _ :: _ =>
      ret (image_path,
           Some (map (fun '(encoding, location) =>
                        (last_modified,
                         np_array_to_blob (byte_order w) encoding,
                         location_str location))
                     (zip encodings locations)))
    end
  end.

(** [process_image]: each of the three [except] clauses returns
    [(image_path, None)]. *)
Definition process_image (w : World) (DETECTION_MODEL : string)
    (image_path : string) : string * option (list face_data) :=
  match process_image_try w DETECTION_MODEL image_path with
  | inr r => r
  | inl _ => (image_path, None)
  end.

(** *** Filtering the files that need processing *)

Record selection : Type := {
  files_to_process : list string;
  skipped_count : nat;
  check_errors : nat;
  reported : list message
}.

(** [image_path not in indexed_files_data or
     current_mod_time > indexed_files_data[image_path]] *)
Definition new_or_modified (indexed_files_data : gmap string float64)
    (image_path : string) (current_mod_time : float64) : bool :=
  match indexed_files_data !! image_path with
  | None => true
  | Some t => Float64.gt current_mod_time t
  end.

(** The first loop, whose bare [except] ignores every error. *)
Definition estimate (w : World) (indexed_files_data : gmap string float64)
    (all_image_paths : list string) : nat :=
  foldl (fun approx_new_modified image_path =>
           match stat_mtime w image_path with
           | inr current_mod_time =>
             if new_or_modified indexed_files_data image_path current_mod_time
             then S approx_new_modified else approx_new_modified
           | inl _ => approx_new_modified
           end) O all_image_paths.

(** One iteration of the second loop. *)
Definition check_file (w : World) (indexed_files_data : gmap string float64)
    (s : selection) (image_path : string) : selection :=
  match stat_mtime w image_path with
  | inr current_mod_time =>
    if new_or_modified indexed_files_data image_path current_mod_time
    then {| files_to_process := files_to_process s ++ [image_path];
            skipped_count := skipped_count s;
            check_errors := check_errors s;
            reported := reported s |}
    else {| files_to_process := files_to_process s;
            skipped_count := S (skipped_count s);
            check_errors := check_errors s;
            reported := reported s |}
  | inl FileNotFoundError =>
    {| files_to_process := files_to_process s;
       skipped_count := skipped_count s;
       check_errors := S (check_errors s);
       reported := reported s ++
         [WARN "File found during scan no longer exists: {}" [str image_path]] |}
  | inl _ =>
    {| files_to_process := files_to_process s;
       skipped_count := skipped_count s;
       check_errors := S (check_errors s);
       reported := reported s ++
         [ERROR "checking file status {}: {}" [str image_path]] |}
  end.

(** The whole filtering step of [run_indexing]. *)
Definition select_files (w : World) (indexed_files_data : gmap string float64)
    (force_rescan : bool) (all_image_paths : list string) : selection :=
  if force_rescan then
    {| files_to_process := all_image_paths; skipped_count := 0;
       check_errors := 0;
       reported :=
         [INFO "Force rescanning enabled, processing all found images." []] |}
  else
    let s := foldl (check_file w indexed_files_data)
               {| files_to_process := []; skipped_count := 0; check_errors := 0;
                  reported :=
                    [INFO "Checking which files are new or modified..." [];
                     INFO "Estimated {} files need processing."
                       [num (estimate w indexed_files_data all_image_paths)]] |}
               all_image_paths in
    {| files_to_process := files_to_process s;
       skipped_count := skipped_count s;
       check_errors := check_errors s;
       reported := reported s ++
         [INFO "Identified {} new or modified files to process."
            [num (length (files_to_process s))];
          INFO "Skipped {} already indexed and unchanged files."
            [num (skipped_count s)]] ++
         (if (0 <? check_errors s)%nat
          then [WARN "Encountered {} errors during file status checks."
                  [num (check_errors s)]]
          else []) |}.

(** *** Applying the workers' results *)

Record tally : Type := {
  processed_files_count : nat;
  faces_stored_count : nat;
  file_process_errors : nat;
  db_errors : nat
}.

(** The variables the result loop mutates, the queue, and the number of
    database calls that will still succeed with the exception the next one
    raises ([None]: all of them succeed). *)
Record loop_state : Type := {
  cn : conn;
  counts : tally;
  queue : list message;
  calls_left : option (nat * exn)
}.

Definition report_status (m : message) (s : loop_state) : loop_state :=
  {| cn := cn s; counts := counts s; queue := queue s ++ [m];
     calls_left := calls_left s |}.

Definition with_counts (f : tally -> tally) (s : loop_state) : loop_state :=
  {| cn := cn s; counts := f (counts s); queue := queue s;
     calls_left := calls_left s |}.

Definition with_conn (f : conn -> conn) (s : loop_state) : loop_state :=
  {| cn := f (cn s); counts := counts s; queue := queue s;
     calls_left := calls_left s |}.

Definition with_calls_left (k : option (nat * exn)) (s : loop_state)
  : loop_state :=
  {| cn := cn s; counts := counts s; queue := queue s; calls_left := k |}.

Definition stored (insert_count : nat) (c : tally) : tally :=
  {| processed_files_count := S (processed_files_count c);
     faces_stored_count := (faces_stored_count c + insert_count)%nat;
     file_process_errors := file_process_errors c;
     db_errors := db_errors c |}.

Definition file_error (c : tally) : tally :=
  {| processed_files_count := processed_files_count c;
     faces_stored_count := faces_stored_count c;
     file_process_errors := S (file_process_errors c);
     db_errors := db_errors c |}.

Definition db_error (c : tally) : tally :=
  {| processed_files_count := processed_files_count c;
     faces_stored_count := faces_stored_count c;
     file_process_errors := file_process_errors c;
     db_errors := S (db_errors c) |}.

(** Code that changes the loop state and returns or raises. *)
Definition SE (A : Type) : Type := loop_state -> result A * loop_state.

Definition bindS {A B} (m : SE A) (k : A -> SE B) : SE B :=
  fun s => match m s with
           | (inl e, s') => (inl e, s')
           | (inr a, s') => k a s'
           end.

Notation "'let!' x := m 'in' k" := (bindS m (fun x => k))
  (at level 10, x name, m at level 100, k at level 200).

(** A call on the connection or its cursor: it raises when the oracle
    says so and has its effect otherwise. *)
Definition db_call (f : conn -> conn) : SE unit :=
  fun s => match calls_left s with
           | Some (O, e) => (raise e, s)
           | Some (S k, e) =>
             (ret tt, with_calls_left (Some (k, e)) (with_conn f s))
           | None => (ret tt, with_conn f s)
           end.

(** The [for ... in face_data_list] loop of inserts. *)
Fixpoint insert_faces (img_path_str : string) (face_data_list : list face_data)
    (insert_count : nat) : SE nat :=
  match face_data_list with
  | [] => fun s => (ret insert_count, s)
  | (last_modified, encoding_blob, location_str) :: rest =>
    let! _ := db_call (execute (INSERT_INTO_faces img_path_str last_modified
                                  encoding_blob location_str)) in
    insert_faces img_path_str rest (S insert_count)
  end.

(** The [try] block that updates the store for one result. *)
Definition update_try (img_path_str : string)
    (face_data_list : option (list face_data)) : SE unit :=
  let! _ := db_call (execute (DELETE_FROM_faces img_path_str)) in
  match face_data_list with
  | Some ((_ :: _) as l) =>
    let! insert_count := insert_faces img_path_str l 0 in
    let! _ := db_call commit in
    fun s => (ret tt, with_counts (stored insert_count) s)
  | Some [] => fun s => (ret tt, s)
  | None =>
    fun s => db_call commit (with_counts file_error s)
  end.

(** [Path.name]: the last component of a path. *)
Fixpoint name_from (acc : string) (s : string) : string :=
  match s with
  | EmptyString => acc
  | String c s' =>
    if Ascii.eqb c "/"%char then name_from EmptyString s'
    else name_from (acc +:+ String c EmptyString) s'
  end.

Definition path_name (p : string) : string := name_from EmptyString p.

(** The body of the result loop for the [i]-th result.  Inside the [try]
    block only the database calls can raise.  The handler catches
    [sqlite3.Error]; any other exception leaves the loop. *)
Definition loop_body (o : Oracle) (total_to_process : nat) (i : nat)
    (item : string * option (list face_data)) : SE unit :=
  fun s =>
  let '(img_path_result, face_data_list) := item in
  let s := report_status
             (PROGRESS (S i) total_to_process (path_name img_path_result)) s in
  let img_path_str := img_path_result in
  match update_try img_path_str face_data_list
          (with_calls_left (statement_fails o i) s) with
  | (inr _, s') => (ret tt, s')
  | (inl sqlite3_Error, s') =>
    (ret tt,
     with_counts db_error
       (with_conn rollback
          (report_status
             (ERROR "Database error updating for {}: {}" [str img_path_str])
             s')))
  | (inl e, s') => (raise e, s')
  end.

(** [for i, (img_path_result, face_data_list) in enumerate(...)] *)
Fixpoint for_results (o : Oracle) (total_to_process : nat) (i : nat)
    (results : list (string * option (list face_data))) : SE unit :=
  match results with
  | [] => fun s => (ret tt, s)
  | item :: rest =>
    let! _ := loop_body o total_to_process i item in
    for_results o total_to_process (S i) rest
  end.

(** The loop state the body and the loop leave, whether they return or
    raise. *)
Definition apply_result (o : Oracle) (total_to_process : nat) (i : nat)
    (item : string * option (list face_data)) (s : loop_state) : loop_state :=
  snd (loop_body o total_to_process i item s).

Definition consume (o : Oracle) (total_to_process : nat) (i : nat)
    (results : list (string * option (list face_data))) (s : loop_state)
  : loop_state :=
  snd (for_results o total_to_process i results s).

(** The pool: results arrive in completion order.  The loop ends when the
    iterator is exhausted, or when the iterator raises or the body lets an
    exception through, which the inner [except Exception] reports.  When a
    worker process has died, its task never yields: once the other results
    are consumed the call blocks for ever in [next], or, if an exception
    left the loop before, in [pool.join()]; the state in which it blocks is
    returned as [inl]. *)
Definition run_pool (w : World) (o : Oracle) (DETECTION_MODEL : string)
    (files_to_process : list string) (s : loop_state)
  : loop_state + loop_state :=
  let results := map (process_image w DETECTION_MODEL)
                     (completion_order o files_to_process) in
  let total_to_process := length files_to_process in
  let except_Exception :=
    report_status (ERROR "during multiprocessing pool execution: {}" []) in
  let exhausted :=
    match for_results o total_to_process 0 results s with
    | (inr _, s') =>
      inr (report_status (PLAIN "\nINFO: Processing complete." []) s')
    | (inl _, s') => inr (except_Exception s')
    end in
  match pool_breaks_after o with
  | None => exhausted
  | Some (k, raises) =>
    inr (except_Exception (consume o total_to_process 0 (firstn k results) s))
  | Some (k, blocks) =>
    if (k <? length results)%nat then
      match for_results o total_to_process 0 (firstn k results) s with
      | (inr _, s') => inl s'
      | (inl _, s') => inl (except_Exception s')
      end
    else exhausted
  end.

(** What a call of [run_indexing] leaves behind: whether it returned or a
    [SystemExit] escaped or it blocks for ever, the database file, and the
    status queue. *)
Record run : Type := {
  escaped : option system_exit;
  blocked : bool;
  db_after : option Table;
  status_queue : list message
}.

Definition summary (total_found : nat) (sel : selection) (c : tally)
  : list message :=
  [PLAIN "\n--- Indexing Summary ---" [];
   PLAIN "Total potential image files found: {}" [num total_found];
   PLAIN "Files checked for processing: {}" [num (length (files_to_process sel))];
   PLAIN "Files successfully processed (faces stored): {}"
     [num (processed_files_count c)];
   PLAIN "Total face embeddings stored in this run: {}"
     [num (faces_stored_count c)];
   PLAIN "Files skipped (unchanged): {}" [num (skipped_count sel)];
   PLAIN "Files with processing errors or no faces: {}"
     [num (file_process_errors c)];
   PLAIN "Database update errors: {}" [num (db_errors c)];
   PLAIN "Check/Stat errors before processing: {}" [num (check_errors sel)];
   PLAIN "Total execution time: {} seconds." [seconds]].

Definition run_indexing (w : World) (o : Oracle)
    (directories_to_scan : list string) (db_file : option Table)
    (force_rescan : bool) (detection_model : string) (num_workers : Z) : run :=
  let q0 :=
    [INFO "Using database: {}" [];
     INFO "Scanning directories: {}" (map str directories_to_scan);
     INFO "Using {} worker processes." [int num_workers];
     INFO "Using face detection model: {}" [str detection_model]] ++
    (if force_rescan then [INFO "Forcing rescan of all found images." []]
     else []) in
  match setup_database o db_file with
  | inl e =>
    {| escaped := Some e; blocked := false; db_after := db_file;
       status_queue := q0 |}
  | inr db =>
    let indexed_files_data := get_indexed_files o (Some db) in
    let q1 := q0 ++ [INFO "Found {} files previously indexed."
                       [num (size indexed_files_data)]] in
    let all_image_paths := find_image_files w directories_to_scan in
    let total_found := length all_image_paths in
    let sel := select_files w indexed_files_data force_rescan all_image_paths in
    let q2 := q1 ++ reported sel in
    match files_to_process sel with
    | [] =>
      {| escaped := None; blocked := false; db_after := Some db;
         status_queue := q2 ++ [INFO "No new or modified files to process." [];
                                INFO "Total time: {} seconds." [seconds];
                                DONE] |}
    | _ :: _ =>
      if connect_fails o then
        {| escaped := None; blocked := false; db_after := Some db;
           status_queue := q2 ++ [ERROR "Failed to connect to database {}: {}" [];
                                  ABORTED] |}
      else
        let q3 := q2 ++ [INFO "Starting face detection and encoding with {} workers..."
                           [int num_workers]] in
        if (num_workers <? 1) || pool_start_fails o then
          {| escaped := None; blocked := false;
             db_after := Some (close (connect db));
             status_queue := q3 ++ [FATAL_ERROR; ABORTED] |}
        else
          match run_pool w o detection_model (files_to_process sel)
                  {| cn := connect db;
                     counts := {| processed_files_count := 0;
                                  faces_stored_count := 0;
                                  file_process_errors := 0;
                                  db_errors := 0 |};
                     queue := q3; calls_left := None |} with
          | inl s =>
            {| escaped := None; blocked := true;
               db_after := Some (committed (cn s));
               status_queue := queue s |}
          | inr s =>
            {| escaped := None; blocked := false;
               db_after := Some (close (cn s));
               status_queue := queue s ++ summary total_found sel (counts s)
                                       ++ [DONE] |}
          end
    end
  end.

End Indexer.

(** ** searcher.py *)

Module Searcher.

(** One iteration of the [for row in rows] loop: the two result lists and
    the messages put on the queue so far. *)
Definition load_row (w : World)
    (acc : list string * list encoding * list message) (row : Row)
  : list string * list encoding * list message :=
  let '(file_paths, encodings, q) := acc in
  match blob_to_np_array (byte_order w) (face_encoding row) with
  | inr encoding_array =>
    if (length encoding_array =? 128)%nat
    then (file_paths ++ [file_path row], encodings ++ [encoding_array], q)
    else (file_paths, encodings,
          q ++ [WARN "Skipping invalid encoding shape {} for {}"
                  [num (length encoding_array); str (file_path row)]])
  | inl _ =>
    (file_paths, encodings,
     q ++ [WARN "Could not decode blob for {}: {}" [str (file_path row)]])
  end.

(** [load_all_encodings_from_db]: [None] stands for the pair
    [(None, None)]; [read_fails] says that connecting or the [SELECT]
    raises [sqlite3.Error]. *)
Definition load_all_encodings_from_db (w : World) (read_fails : bool)
    (db_file : option Table)
  : option (list string * list encoding) * list message :=
  match db_file with
  | None =>
    (None, [ERROR "Database file '{}' not found." [];
            PLAIN "Please run the indexer script first." []])
  | Some t =>
    if read_fails then
      (None, [ERROR "Database error reading encodings: {}" []])
    else
      match rows t with
      | [] =>
        (Some ([], []),
         [WARN "Database '{}' appears to be empty. No faces indexed." []])
      | _ :: _ =>
        let '(file_paths, encodings, q) :=
          foldl (load_row w) ([], [], []) (rows t) in
        match encodings with
        | [] =>
          (None,
           q ++ [ERROR "No valid encodings were loaded from the database." []])
        | _ :: _ =>
          (Some (file_paths, encodings),
           q ++ [INFO "Loaded {} known face encodings from the database."
                   [num (length encodings)]])
        end
      end
  end.

(** The [try] block that processes the reference image.  [face_encodings]
    is called without [num_jitters] and [model]: the library's defaults,
    1 and ["small"], apply. *)
Definition reference_encodings (w : World) (reference_image_path : string)
  : result (list encoding) :=
  let* ref_image := load_image_file w reference_image_path in
  let* ref_face_locations := face_locations w "hog" ref_image in
  face_encodings w ref_image ref_face_locations 1 "small".

(** [face_recognition.compare_faces]:
    [list(face_distance(known, target) <= tolerance)]. *)
Definition compare_faces (w : World) (known_face_encodings : list encoding)
    (target_encoding : encoding) (tolerance : float64) : list bool :=
  map (fun e => Float64.le (face_distance w e target_encoding) tolerance)
      known_face_encodings.

(** [for i, match in enumerate(matches): if match: add known_file_paths[i]];
    the two lists have the same length, so the index is always in range. *)
Fixpoint collect (known_file_paths : list string) (i : nat)
    (matches : list bool) (matching_file_paths : gset string) : gset string :=
  match matches with
  | [] => matching_file_paths
  | m :: rest =>
    collect known_file_paths (S i) rest
      (if m then
         match known_file_paths !! i with
         | Some p => matching_file_paths ∪ {[p]}
         | None => matching_file_paths
         end
       else matching_file_paths)
  end.

(** Python's order on [str]: lexicographic by code point. *)
Definition str_le (a b : string) : Prop := String.leb a b = true.

#[global] Instance str_le_dec : RelDecision str_le.
Proof. intros a b. unfold str_le. apply _. Defined.

(** [sorted(list(matching_file_paths))] *)
Definition sorted (matching_file_paths : gset string) : list string :=
  merge_sort str_le (elements matching_file_paths).

Definition run_search (w : World) (read_fails : bool)
    (reference_image_path_str : string) (db_file : option Table)
    (tolerance : float64) : option (list string) * list message :=
  if negb (is_file w reference_image_path_str) then
    (None, [ERROR "Reference image not found at '{}'"
              [str reference_image_path_str];
            ABORTED])
  else
    let q0 := [INFO "Using database: {}" [];
               INFO "Using reference image: {}" [str reference_image_path_str];
               INFO "Using matching tolerance: {}" [real tolerance]] in
    match load_all_encodings_from_db w read_fails db_file with
    | (None, q) => (None, q0 ++ q ++ [ABORTED])
    | (Some (known_file_paths, known_face_encodings), q) =>
      match known_face_encodings with
      | [] =>
        (Some [],
         q0 ++ q ++ [WARN "No faces loaded from DB to compare against." [];
                     DONE])
      | _ :: _ =>
        let q1 := q0 ++ q ++ [INFO "Processing reference image..." []] in
        match reference_encodings w reference_image_path_str with
        | inl _ =>
          (None, q1 ++ [ERROR "loading or processing reference image: {}" [];
                        ABORTED])
        | inr [] =>
          (None, q1 ++ [ERROR "No faces found in the reference image '{}'."
                          [str reference_image_path_str];
                        ABORTED])
        | inr (target_encoding :: others) =>
          let q2 :=
            q1 ++
            [match others with
             | [] => INFO "Found 1 face in reference image. Using it for searching." []
             | _ :: _ =>
               WARN "Found {} faces in reference image. Using the first one."
                 [num (S (length others))]
             end;
             INFO "Comparing reference face against database..." []] in
          let matches :=
            compare_faces w known_face_encodings target_encoding tolerance in
          let matching_file_paths := collect known_file_paths 0 matches ∅ in
          let sorted_paths := sorted matching_file_paths in
          (Some sorted_paths,
           q2 ++ [INFO "Comparison finished in {} seconds." [seconds]] ++
           match sorted_paths with
           | [] => [INFO "No matches found with tolerance {}." [real tolerance]]
           | _ :: _ =>
             INFO "Found {} photos containing a matching face:"
               [num (length sorted_paths)] :: map RESULT sorted_paths
           end ++ [DONE])
        end
      end
    end.

End Searcher.

(** ** face_finder_gui.py *)

Module Gui.

Import Indexer.

(** *** The status queue, seen from the main thread *)

(** What [check_queue] finds on the queue: a message of the indexer, the
    searcher or the exporter, or one of the two bare strings of the preview
    thread. *)
Inductive queue_item : Type :=
  | Msg (m : message)
  | PREVIEW_START
  | PREVIEW_DONE.

(** A line appended to the status text area by [update_status]. *)
Inductive status_line : Type :=
  | Shown (m : message)
  | Operation_finished (m : message)
  | Generating_result_previews
  | Preview_generation_complete
  | Starting_indexing_process
  | Starting_search_for (reference_image : string)
  | Starting_export_to (dest_dir : string).

(** The attributes of [FaceFinderApp] and the widget states the queue
    handler and the button callbacks change.  [buttons] stands for the index,
    search, directory and reference-image buttons, which are always
    configured together; [progress_bar] is [None] for the value 0;
    [preview_threads] lists the argument of every
    [Thread(target=self.populate_preview_area, ...)] started. *)
Record App : Type := {
  is_processing : bool;
  current_results : list string;
  status_text : list status_line;
  progress_bar : option (nat * nat);
  progress_indeterminate : bool;
  buttons : bool;
  export_button : bool;
  results_count_label : option nat;
  preview_threads : list (list string)
}.

(** [__init__]: nothing is running, there are no results. *)
Definition init : App :=
  {| is_processing := false; current_results := []; status_text := [];
     progress_bar := None; progress_indeterminate := false;
     buttons := true; export_button := false; results_count_label := None;
     preview_threads := [] |}.

Definition update_status (l : status_line) (a : App) : App :=
  {| is_processing := is_processing a; current_results := current_results a;
     status_text := status_text a ++ [l];
     progress_bar := progress_bar a;
     progress_indeterminate := progress_indeterminate a;
     buttons := buttons a; export_button := export_button a;
     results_count_label := results_count_label a;
     preview_threads := preview_threads a |}.

Definition clear_status (a : App) : App :=
  {| is_processing := is_processing a; current_results := current_results a;
     status_text := [];
     progress_bar := progress_bar a;
     progress_indeterminate := progress_indeterminate a;
     buttons := buttons a; export_button := export_button a;
     results_count_label := results_count_label a;
     preview_threads := preview_threads a |}.

Definition set_progress (v : option (nat * nat)) (a : App) : App :=
  {| is_processing := is_processing a; current_results := current_results a;
     status_text := status_text a;
     progress_bar := v;
     progress_indeterminate := progress_indeterminate a;
     buttons := buttons a; export_button := export_button a;
     results_count_label := results_count_label a;
     preview_threads := preview_threads a |}.

Definition set_indeterminate (b : bool) (a : App) : App :=
  {| is_processing := is_processing a; current_results := current_results a;
     status_text := status_text a;
     progress_bar := progress_bar a;
     progress_indeterminate := b;
     buttons := buttons a; export_button := export_button a;
     results_count_label := results_count_label a;
     preview_threads := preview_threads a |}.

Definition set_export_button (b : bool) (a : App) : App :=
  {| is_processing := is_processing a; current_results := current_results a;
     status_text := status_text a;
     progress_bar := progress_bar a;
     progress_indeterminate := progress_indeterminate a;
     buttons := buttons a; export_button := b;
     results_count_label := results_count_label a;
     preview_threads := preview_threads a |}.

(** [results_count_label.config(text=f"Found: {len(...)} images")] *)
Definition show_count (a : App) : App :=
  {| is_processing := is_processing a; current_results := current_results a;
     status_text := status_text a;
     progress_bar := progress_bar a;
     progress_indeterminate := progress_indeterminate a;
     buttons := buttons a; export_button := export_button a;
     results_count_label := Some (length (current_results a));
     preview_threads := preview_threads a |}.

(** [self.current_results.append(...)] *)
Definition append_result (p : string) (a : App) : App :=
  {| is_processing := is_processing a;
     current_results := current_results a ++ [p];
     status_text := status_text a;
     progress_bar := progress_bar a;
     progress_indeterminate := progress_indeterminate a;
     buttons := buttons a; export_button := export_button a;
     results_count_label := results_count_label a;
     preview_threads := preview_threads a |}.

(** Starting the preview thread on [self.current_results]. *)
Definition start_preview (a : App) : App :=
  {| is_processing := is_processing a; current_results := current_results a;
     status_text := status_text a;
     progress_bar := progress_bar a;
     progress_indeterminate := progress_indeterminate a;
     buttons := buttons a; export_button := export_button a;
     results_count_label := results_count_label a;
     preview_threads := preview_threads a ++ [current_results a] |}.

Definition disable_buttons (a : App) : App :=
  {| is_processing := true; current_results := current_results a;
     status_text := status_text a;
     progress_bar := progress_bar a;
     progress_indeterminate := progress_indeterminate a;
     buttons := false; export_button := false;
     results_count_label := results_count_label a;
     preview_threads := preview_threads a |}.

Definition enable_buttons (a : App) : App :=
  {| is_processing := false; current_results := current_results a;
     status_text := status_text a;
     progress_bar := progress_bar a;
     progress_indeterminate := progress_indeterminate a;
     buttons := true;
     export_button := match current_results a with
                      | [] => export_button a
                      | _ :: _ => true
                      end;
     results_count_label := results_count_label a;
     preview_threads := preview_threads a |}.

(** The branch of [check_queue] for the two terminal events. *)
Definition finished (m : message) (is_done : bool) (a : App) : App :=
  let a := update_status (Operation_finished m) a in
  match is_done, current_results a with
  | true, _ :: _ =>
    start_preview (show_count (set_export_button false (disable_buttons a)))
  | _, _ =>
    let a := show_count (set_progress None (enable_buttons a)) in
    match current_results a with
    | [] => set_export_button false a
    | _ :: _ => a
    end
  end.

(** One iteration of the [while True] loop of [check_queue].  A progress
    message always carries a formatted number, so the inner [try] cannot
    fail; every other message is shown in the status area. *)
Definition handle (a : App) (x : queue_item) : App :=
  match x with
  | Msg (PROGRESS completed total _) => set_progress (Some (completed, total)) a
  | Msg (RESULT p) => append_result p a
  | PREVIEW_START =>
    set_indeterminate true (update_status Generating_result_previews a)
  | PREVIEW_DONE =>
    let a := update_status Preview_generation_complete a in
    let a := enable_buttons (set_progress None (set_indeterminate false a)) in
    let a := match current_results a with
             | [] => a
             | _ :: _ => set_export_button true a
             end in
    show_count a
  | Msg DONE => finished DONE true a
  | Msg ABORTED => finished ABORTED false a
  | Msg m => update_status (Shown m) a
  end.

(** [check_queue], for the messages it takes off the queue. *)
Definition check_queue (a : App) (items : list queue_item) : App :=
  foldl handle a items.

(** *** The button callbacks *)

Inductive dialog : Type :=
  | Busy
  | No_directory
  | No_database_path
  | No_reference_image
  | Database_not_found
  | Invalid_tolerance
  | No_results.

(** What the callbacks set up before they start their thread. *)
Definition begin (l : status_line) (a : App) : App :=
  set_progress None (update_status l (clear_status (disable_buttons a))).

(** [start_indexing]: a dialog, or the new state and the arguments of the
    thread's [run_indexing].  [cpu_count] is
    [multiprocessing.cpu_count()]. *)
Definition start_indexing (a : App) (index_dirs : list string)
    (db : string) (force : bool) (cpu_count : Z)
  : dialog + App * (list string * string * bool * string * Z) :=
  if is_processing a then inl Busy
  else match index_dirs with
       | [] => inl No_directory
       | _ :: _ =>
         if String.eqb db EmptyString then inl No_database_path
         else inr (begin Starting_indexing_process a,
                   (index_dirs, db, force, "hog", cpu_count))
       end.

(** [start_search]: [tolerance] is [None] when [float(...)] raises
    [ValueError]. *)
Definition start_search (a : App) (ref_image db : string) (db_exists : bool)
    (tolerance : option float64)
  : dialog + App * (string * string * float64) :=
  if is_processing a then inl Busy
  else if String.eqb ref_image EmptyString then inl No_reference_image
  else if String.eqb db EmptyString then inl No_database_path
  else if negb db_exists then inl Database_not_found
  else match tolerance with
       | None => inl Invalid_tolerance
       | Some t =>
         if negb (Float64.lt 0 t && Float64.lt t 4607182418800017408)
         then inl Invalid_tolerance
         else inr (begin (Starting_search_for (path_name ref_image)) a,
                   (ref_image, db, t))
       end.

(** [export_results]: [dest_dir] is what the directory dialog returns, empty
    when it is cancelled.  The thread gets a copy of the results. *)
Definition export_results (a : App) (dest_dir : string)
  : option dialog + App * (list string * string) :=
  match current_results a with
  | [] => inl (Some No_results)
  | _ :: _ =>
    if is_processing a then inl (Some Busy)
    else if String.eqb dest_dir EmptyString then inl None
    else inr (disable_buttons (update_status (Starting_export_to dest_dir) a),
              (current_results a, dest_dir))
  end.

(** *** Exporting *)

(** What [shutil.copy2] does to the destination file: a full copy of the
    data read from the source, or an exception that leaves the destination
    untouched or with what was written so far. *)
Inductive copy_outcome : Type :=
  | Copied (data : string)
  | Failed (left_behind : option string).

(** What the file system decides during one export, per loop index. *)
Record Disk : Type := {
  (** [dest_path.mkdir(parents=True, exist_ok=True)] raises *)
  mkdir_fails : bool;
  (** [src_path.exists()] *)
  src_exists : nat -> bool;
  copy2 : nat -> copy_outcome
}.

(** The destination folder (file name to data), the two counters and the
    messages put on the queue. *)
Record export_state : Type := {
  folder : gmap string string;
  export_count : nat;
  export_errors : nat;
  put : list message
}.

(** The body of the loop for the [i]-th path. *)
Definition export_file (o : Disk) (total_files : nat) (i : nat)
    (src_path_str : string) (s : export_state) : export_state :=
  let name := path_name src_path_str in
  let q := put s ++ [PROGRESS (S i) total_files ("Exporting " +:+ name)] in
  if negb (src_exists o i) then
    {| folder := folder s; export_count := export_count s;
       export_errors := S (export_errors s);
       put := q ++ [WARN "Skipping export, source file not found: {}"
                      [str name]] |}
  else
    match copy2 o i with
    | Copied data =>
      {| folder := <[name := data]> (folder s);
         export_count := S (export_count s);
         export_errors := export_errors s;
         put := q |}
    | Failed left_behind =>
      {| folder := match left_behind with
                   | Some data => <[name := data]> (folder s)
                   | None => folder s
                   end;
         export_count := export_count s;
         export_errors := S (export_errors s);
         put := q ++ [ERROR "Failed to copy {}: {}" [str name]] |}
    end.

Fixpoint export_loop (o : Disk) (total_files : nat) (i : nat)
    (paths : list string) (s : export_state) : export_state :=
  match paths with
  | [] => s
  | src_path_str :: rest =>
    export_loop o total_files (S i) rest
      (export_file o total_files i src_path_str s)
  end.

(** [_perform_export]: the destination folder is [None] while it does not
    exist. *)
Definition _perform_export (o : Disk) (paths_to_export : list string)
    (destination_folder : option (gmap string string))
  : option (gmap string string) * list message :=
  match destination_folder, mkdir_fails o with
  | None, true =>
    (None, [ERROR "Could not create destination folder: {}" []; ABORTED])
  | _, _ =>
    let s := export_loop o (length paths_to_export) 0 paths_to_export
               {| folder := default ∅ destination_folder;
                  export_count := 0; export_errors := 0; put := [] |} in
    (Some (folder s),
     put s ++
     [INFO "Export finished in {} seconds." [seconds];
      INFO "Successfully exported {} files." [num (export_count s)]] ++
     (if (0 <? export_errors s)%nat
      then [WARN "Failed to export {} files." [num (export_errors s)]]
      else []) ++
     [DONE])
  end.

(** *** Previews *)

(** What happens to one path in [populate_preview_area]. *)
Inductive thumbnail : Type :=
  | Loaded
  | Not_a_file
  | Unidentified
  | Raised.

(** The messages of [populate_preview_area] and of
    [_update_gui_with_previews], which the former schedules on the main
    thread and which is taken to create its widgets without raising;
    [open_image] decides each path's fate. *)
Definition populate_preview_area (open_image : string -> thumbnail)
    (file_paths : list string) : list queue_item :=
  [PREVIEW_START] ++
  flat_map (fun file_path_str =>
              match open_image file_path_str with
              | Loaded => []
              | Not_a_file =>
                [Msg (WARN "Preview skipped, file not found: {}"
                        [str (path_name file_path_str)])]
              | Unidentified =>
                [Msg (WARN "Preview skipped, cannot identify image: {}"
                        [str (path_name file_path_str)])]
              | Raised =>
                [Msg (ERROR "Preview failed for {}: {}"
                        [str (path_name file_path_str)])]
              end) file_paths ++
  [PREVIEW_DONE].

End Gui.

(** ** A small photo collection used in the examples *)

Module Demo.

(** A 128-element embedding (1.0 and its successors as bit patterns). *)
Definition E1 : encoding :=
  map (fun n => 4607182418800017408 + Z.of_nat n) (List.seq 0%nat 128%nat).

(** Time stamps 1700000000.0 and 1700000500.0. *)
Definition t0 : float64 := 4744917124793761792.
Definition t1 : float64 := 4744917126890913792.

(** [a.jpg] shows one face, [b.jpg] none, [corrupt.jpg] cannot be decoded,
    [gone.jpg] has vanished; [ref.jpg] shows the face of [a.jpg]. *)
Definition world : World := {|
  byte_order := little;
  stat_mtime := fun p =>
    if String.eqb p "/photos/gone.jpg" then raise FileNotFoundError else ret t0;
  is_file := fun p => String.eqb p "/ref.jpg";
  find_image_files := fun _ => ["/photos/a.jpg"; "/photos/b.jpg"];
  load_image_file := fun p =>
    if String.eqb p "/photos/corrupt.jpg" then raise UnidentifiedImageError
    else if String.eqb p "/photos/b.jpg" then ret [0]
    else ret [1];
  face_locations := fun _ img =>
    match img with
    | [1] => ret [(10, 50, 50, 10)]
    | _ => ret []
    end;
  face_encodings := fun _ locs _ _ => ret (map (fun _ => E1) locs);
  face_distance := fun a b =>
    if bool_decide (a = b) then 0 else 4607182418800017408
|}.

(** The same collection after [a.jpg] was modified at [t1]. *)
Definition touched : World := {|
  byte_order := byte_order world;
  stat_mtime := fun p =>
    if String.eqb p "/photos/a.jpg" then ret t1 else stat_mtime world p;
  is_file := is_file world;
  find_image_files := find_image_files world;
  load_image_file := load_image_file world;
  face_locations := face_locations world;
  face_encodings := face_encodings world;
  face_distance := face_distance world
|}.

(** No database fault, the pool yields results in dispatch order. *)
Definition calm : Oracle := {|
  setup_fails := false;
  snapshot_fails := false;
  connect_fails := false;
  pool_start_fails := false;
  pool_breaks_after := None;
  completion_order := fun l => l;
  statement_fails := fun _ => None
|}.

(** The database file cannot be opened. *)
Definition no_database : Oracle := {|
  setup_fails := true;
  snapshot_fails := false;
  connect_fails := false;
  pool_start_fails := false;
  pool_breaks_after := None;
  completion_order := fun l => l;
  statement_fails := fun _ => None
|}.

(** A second embedding, at distance 1.0 from [E1] in [world]. *)
Definition E2 : encoding :=
  map (fun n => 4611686018427387904 + Z.of_nat n) (List.seq 0%nat 128%nat).

Definition face_row (i : Z) (p : string) (e : encoding) : Row :=
  {| row_id := i; file_path := p; last_modified := t0;
     face_encoding := np_array_to_blob little e;
     face_location_css := "10,50,50,10" |}.

(** Three faces in [a.jpg], two of them the reference face; a face of
    someone else in [c.jpg]; the reference face in [Z.jpg]; and a row for
    [d.jpg] whose blob is 8 bytes long. *)
Definition store : Table := {|
  rows := [face_row 1 "/photos/a.jpg" E1;
           face_row 2 "/photos/a.jpg" E2;
           face_row 3 "/photos/a.jpg" E1;
           face_row 4 "/photos/c.jpg" E2;
           face_row 5 "/photos/Z.jpg" E1;
           {| row_id := 6; file_path := "/photos/d.jpg"; last_modified := t0;
              face_encoding := le_split 8 0;
              face_location_css := "1,2,3,4" |}];
  sqlite_sequence := 6
|}.

(** The tolerance 0.6. *)
Definition tolerance : float64 := 4603579539098121011.

(** The loop state right after connecting to an empty database. *)
Definition start : Indexer.loop_state := {|
  Indexer.cn := connect empty_table;
  Indexer.counts := {| Indexer.processed_files_count := 0;
                       Indexer.faces_stored_count := 0;
                       Indexer.file_process_errors := 0;
                       Indexer.db_errors := 0 |};
  Indexer.queue := [];
  Indexer.calls_left := None
|}.


(** The second database call for the first result raises. *)
Definition flaky : Oracle := {|
  setup_fails := false;
  snapshot_fails := false;
  connect_fails := false;
  pool_start_fails := false;
  pool_breaks_after := None;
  completion_order := fun l => l;
  statement_fails := fun i =>
    if (i =? 0)%nat then Some (1%nat, sqlite3_Error) else None
|}.

(** The first database call for the result with index [at_result] raises
    [UnicodeEncodeError]. *)
Definition garbled (at_result : nat) : Oracle := {|
  setup_fails := false;
  snapshot_fails := false;
  connect_fails := false;
  pool_start_fails := false;
  pool_breaks_after := None;
  completion_order := fun l => l;
  statement_fails := fun i =>
    if (i =? at_result)%nat then Some (0%nat, UnicodeEncodeError) else None
|}.

(** A worker process dies on its second task. *)
Definition stuck : Oracle := {|
  setup_fails := false;
  snapshot_fails := false;
  connect_fails := false;
  pool_start_fails := false;
  pool_breaks_after := Some (1%nat, blocks);
  completion_order := fun l => l;
  statement_fails := fun _ => None
|}.

(** A store whose only row holds a blob of 8 bytes. *)
Definition damaged : Table := {|
  rows := [{| row_id := 1; file_path := "/photos/d.jpg"; last_modified := t0;
              face_encoding := le_split 8 0;
              face_location_css := "1,2,3,4" |}];
  sqlite_sequence := 1
|}.

(** The loop state right after connecting to [store]. *)
Definition resumed : Indexer.loop_state := {|
  Indexer.cn := connect store;
  Indexer.counts := {| Indexer.processed_files_count := 0;
                       Indexer.faces_stored_count := 0;
                       Indexer.file_process_errors := 0;
                       Indexer.db_errors := 0 |};
  Indexer.queue := [];
  Indexer.calls_left := None
|}.

(** Three results to export: two files called [a.jpg] in different
    directories, which are copied, and one that has vanished. *)
Definition exported : list string :=
  ["/photos/a.jpg"; "/backup/a.jpg"; "/photos/gone.jpg"].

Definition copying : Gui.Disk := {|
  Gui.mkdir_fails := false;
  Gui.src_exists := fun i => (i <? 2)%nat;
  Gui.copy2 := fun i =>
    Gui.Copied (if (i =? 0)%nat then "pixels of /photos/a.jpg"
                else "pixels of /backup/a.jpg")
|}.

(** The folder the export goes to holds one file already. *)
Definition album : gmap string string := {["notes.txt" := "holiday"]}.

(** [Z.jpg] has vanished when the previews are made. *)
Definition thumbnails (p : string) : Gui.thumbnail :=
  if String.eqb p "/photos/Z.jpg" then Gui.Not_a_file else Gui.Loaded.

(** The window while a search started from the initial state runs. *)
Definition searching : Gui.App :=
  Gui.begin (Gui.Starting_search_for "ref.jpg") Gui.init.

End Demo.

(** * Vocabulary of the properties *)

Import Indexer Searcher.

(** The three ways the second loop classifies a candidate path. *)
Definition selected (w : World) (indexed : gmap string float64) (p : string)
  : bool :=
  match stat_mtime w p with
  | inr m => new_or_modified indexed p m
  | inl _ => false
  end.

Definition unchanged (w : World) (indexed : gmap string float64) (p : string)
  : bool :=
  match stat_mtime w p with
  | inr m => negb (new_or_modified indexed p m)
  | inl _ => false
  end.

Definition stat_raises (w : World) (p : string) : bool :=
  match stat_mtime w p with inr _ => false | inl _ => true end.

(** The record the worker builds for one (encoding, location) pair. *)
Definition face_record (w : World) (lm : float64)
    (x : encoding * location) : face_data :=
  (lm, np_array_to_blob (byte_order w) (fst x), location_str (snd x)).

(** A row the loader keeps: its blob decodes to exactly 128 floats. *)
Definition valid_row (w : World) (r : Row) : bool :=
  match blob_to_np_array (byte_order w) (face_encoding r) with
  | inr a => (length a =? 128)%nat
  | inl _ => false
  end.

(** The array the loader decodes from a row. *)
Definition decoded (w : World) (r : Row) : encoding :=
  match blob_to_np_array (byte_order w) (face_encoding r) with
  | inr a => a
  | inl _ => []
  end.

(** The warning put on the queue for a row that is dropped. *)
Definition drop_warning (w : World) (r : Row) : message :=
  match blob_to_np_array (byte_order w) (face_encoding r) with
  | inr a => WARN "Skipping invalid encoding shape {} for {}"
               [num (length a); str (file_path r)]
  | inl _ => WARN "Could not decode blob for {}: {}" [str (file_path r)]
  end.

(** Kinds of message. *)
Definition is_WARN (m : message) : bool :=
  match m with WARN _ _ => true | _ => false end.

Definition is_ERROR (m : message) : bool :=
  match m with ERROR _ _ => true | _ => false end.

Definition is_RESULT (m : message) : bool :=
  match m with RESULT _ => true | _ => false end.

(** The comparison [compare_faces] makes for the embedding of a row. *)
Definition within (w : World) (target : encoding) (tol : float64) (r : Row)
  : bool :=
  Float64.le (face_distance w (decoded w r) target) tol.

(** A stored row without its id and path. *)
Definition record_of (r : Row) : face_data :=
  (last_modified r, face_encoding r, face_location_css r).

(** The face records stored for a path, in table order. *)
Definition records_for (p : string) (t : Table) : list face_data :=
  map record_of (rows_for p t).

(** One [INSERT] of the loop, on a table and on a connection. *)
Definition insert_face (p : string) (t : Table) (fd : face_data) : Table :=
  insert_row p (fd.1.1) (fd.1.2) (fd.2) t.

(** The table after all rows of [p] are deleted and one row per element of
    [l] is inserted. *)
Definition replaced (p : string) (l : list face_data) (t : Table) : Table :=
  foldl (insert_face p) (delete_where_path p t) l.

Definition execute_insert (p : string) (c : conn) (fd : face_data) : conn :=
  execute (INSERT_INTO_faces p (fd.1.1) (fd.1.2) (fd.2)) c.

(** What the connection holds after the [try] block returned. *)
Definition applied (p : string) (r : option (list face_data)) (c : conn)
  : conn :=
  match r with
  | Some [] => execute (DELETE_FROM_faces p) c
  | Some l => connect (replaced p l (view c))
  | None => connect (replaced p [] (view c))
  end.

(** The counters after the [try] block returned. *)
Definition counted (r : option (list face_data)) (c : tally) : tally :=
  match r with
  | Some [] => c
  | Some l => stored (length l) c
  | None => file_error c
  end.

(** The last result for [x] in a list of results, if there is one. *)
Fixpoint latest (x : string) (items : list (string * option (list face_data)))
  : option (option (list face_data)) :=
  match items with
  | [] => None
  | (p, r) :: rest =>
    match latest x rest with
    | Some r' => Some r'
    | None => if decide (p = x) then Some r else None
    end
  end.

Definition is_PROGRESS (m : message) : bool :=
  match m with PROGRESS _ _ _ => true | _ => false end.

(** Messages that are neither terminal events nor progress reports. *)
Definition plain (q : list message) : Prop :=
  Forall (fun m => is_terminal m = false /\ is_PROGRESS m = false) q.

(** The progress reports of a result loop that starts at index [i]. *)
Fixpoint progress_events (total i : nat) (paths : list string)
  : list message :=
  match paths with
  | [] => []
  | p :: ps => PROGRESS (S i) total (path_name p) :: progress_events total (S i) ps
  end.

(** An oracle under which nothing goes wrong: no database call fails, the
    pool starts and runs to the end, and it yields each dispatched path
    once. *)
Definition fault_free (o : Oracle) : Prop :=
  setup_fails o = false /\ snapshot_fails o = false /\
  connect_fails o = false /\ pool_start_fails o = false /\
  pool_breaks_after o = None /\
  (forall i, statement_fails o i = None) /\
  (forall l, Permutation (completion_order o l) l).

(** [MAX(last_modified)] over the rows of a group, [None] for no row. *)
Definition fold_max (acc : option float64) (ms : list float64)
  : option float64 :=
  foldl (fun a m => Some (match a with
                          | Some x => max_last_modified x m
                          | None => m
                          end)) acc ms.

(** ** Vocabulary of the further properties *)

(** What one call of [run_indexing] starts from and selects. *)
Definition table_before (db : option Table) : Table := default empty_table db.

Definition table_after (r : run) : Table := default empty_table (db_after r).

Definition selected_files (w : World) (o : Oracle) (dirs : list string)
    (db : option Table) (force : bool) : list string :=
  files_to_process
    (select_files w (get_indexed_files o (Some (table_before db))) force
       (find_image_files w dirs)).

(** The pool yields only paths that were dispatched to it. *)
Definition pool_sound (o : Oracle) : Prop :=
  forall l x, In x (completion_order o l) -> In x l.

(** The paths whose results the iterator of the pool yields, in order. *)
Definition consumed (o : Oracle) (paths : list string) : list string :=
  match pool_breaks_after o with
  | None => completion_order o paths
  | Some (k, _) => firstn k (completion_order o paths)
  end.

(** The loop state in which [run_pool] returns or blocks. *)
Definition pool_state (x : loop_state + loop_state) : loop_state :=
  match x with inl s => s | inr s => s end.

(** The number of results for which the body of the result loop is
    entered: all of them, unless the body lets an exception through. *)
Fixpoint entered (o : Oracle) (total i : nat)
    (items : list (string * option (list face_data))) (s : loop_state)
  : nat :=
  match items with
  | [] => 0
  | x :: rest =>
    match fst (loop_body o total i x s) with
    | inr _ => S (entered o total (S i) rest (apply_result o total i x s))
    | inl _ => 1
    end
  end.

(** No database call raises anything but [sqlite3.Error], so the handler
    of the result loop catches whatever is raised in its [try] block. *)
Definition only_database_errors (o : Oracle) : Prop :=
  forall i n e, statement_fails o i = Some (n, e) -> e = sqlite3_Error.

(** The pair [(completed, total)] of a progress report. *)
Definition progress_fraction (m : message) : option (nat * nat) :=
  match m with
  | PROGRESS completed total _ => Some (completed, total)
  | _ => None
  end.

(** The faces the worker returns for a path. *)
Definition faces_of (w : World) (model : string) (p : string)
  : list face_data :=
  default [] (snd (process_image w model p)).

Definition has_faces (w : World) (model : string) (p : string) : bool :=
  match snd (process_image w model p) with Some _ => true | None => false end.

(** The counters of a loop in which every result is applied. *)
Definition tally_of (items : list (string * option (list face_data)))
    (c : tally) : tally :=
  foldl (fun c it => counted (it.2) c) c items.

Definition no_tally : tally :=
  {| processed_files_count := 0; faces_stored_count := 0;
     file_process_errors := 0; db_errors := 0 |}.

(** The number of faces the worker returns over a list of paths. *)
Definition faces_found (w : World) (model : string) (paths : list string)
  : nat :=
  foldr (fun p n => (length (faces_of w model p) + n)%nat) O paths.

(** The embedding provider returns 128 numbers of 64 bits per face,
    whatever the model. *)
Definition provider_128 (w : World) : Prop :=
  forall img locs jitters model encs,
    face_encodings w img locs jitters model = inr encs ->
    Forall (fun e => length e = 128%nat /\ Forall Float64.wf e) encs.

(** An embedding the worker pairs with a location and turns into a record:
    the [i]-th one the provider returns for the image at [p], when there is
    an [i]-th location. *)
Definition embedding_of (w : World) (model p : string) (e : encoding)
  : Prop :=
  exists lm img locs encs i,
    stat_mtime w p = inr lm /\ load_image_file w p = inr img /\
    face_locations w model img = inr locs /\
    face_encodings w img locs NUM_JITTERS ENCODING_MODEL = inr encs /\
    encs !! i = Some e /\ (i < length locs)%nat.

(** The iterations of the export loop that count a file as exported. *)
Definition copied_at (o : Gui.Disk) (i : nat) : bool :=
  Gui.src_exists o i &&
  match Gui.copy2 o i with Gui.Copied _ => true | Gui.Failed _ => false end.

(** What the [i]-th iteration of the export loop leaves in the destination
    file, if it touches it at all. *)
Definition written_at (o : Gui.Disk) (i : nat) : option string :=
  if Gui.src_exists o i then
    match Gui.copy2 o i with
    | Gui.Copied data => Some data
    | Gui.Failed left_behind => left_behind
    end
  else None.

(** The data of the last iteration, counted from [i], that writes the
    destination file called [name]. *)
Fixpoint last_written (o : Gui.Disk) (name : string) (i : nat)
    (paths : list string) : option string :=
  match paths with
  | [] => None
  | p :: rest =>
    match last_written o name (S i) rest with
    | Some data => Some data
    | None => if decide (path_name p = name) then written_at o i else None
    end
  end.

(** The path of a result message. *)
Definition result_of (x : Gui.queue_item) : option string :=
  match x with
  | Gui.Msg (RESULT p) => Some p
  | _ => None
  end.

(** A message that is neither a result nor a terminal event. *)
Definition quiet (m : message) : Prop :=
  is_RESULT m = false /\ is_terminal m = false.

(** What decides which operations the window allows. *)
Definition control (a : Gui.App)
  : bool * list string * bool * bool * option nat * list (list string) :=
  (Gui.is_processing a, Gui.current_results a, Gui.buttons a,
   Gui.export_button a, Gui.results_count_label a, Gui.preview_threads a).

(** What the handler of a terminal event leaves of it. *)
Definition after_terminal (m : message) (a : Gui.App)
  : bool * list string * bool * bool * option nat * list (list string) :=
  let results := Gui.current_results a in
  match m, results with
  | DONE, _ :: _ =>
    (true, results, false, false, Some (length results),
     Gui.preview_threads a ++ [results])
  | _, _ =>
    (false, results, true, match results with [] => false | _ :: _ => true end,
     Some (length results), Gui.preview_threads a)
  end.

(** * Properties *)

(** ** Comparing floats *)

(** 0.0 <= 0.6, 0.6 <= 0.6, not 1.0 <= 0.6, -1.0 < 0.6, and a NaN compares
    false with everything. *)
Example float64_order :
  Float64.le 0 4603579539098121011 = true /\
  Float64.le 4603579539098121011 4603579539098121011 = true /\
  Float64.le 4607182418800017408 4603579539098121011 = false /\
  Float64.lt 13830554455654793216 4603579539098121011 = true /\
  Float64.le 9221120237041090560 9221120237041090560 = false.
Proof. repeat split; reflexivity. Qed.

Lemma float64_gt_irrefl (t : float64) : Float64.gt t t = false.
Proof.
  unfold Float64.gt, Float64.lt. rewrite Z.ltb_irrefl. apply andb_false_r.
Qed.

(** ** BLOB round trip *)

Lemma float64_to_bytes_length (bo : byteorder) (x : float64) :
  length (float64_to_bytes bo x) = 8%nat.
Proof.
  destruct bo; unfold float64_to_bytes; rewrite ?length_rev;
    apply length_le_split.
Qed.

Lemma float64_bytes_roundtrip (bo : byteorder) (x : float64) :
  Float64.wf x -> float64_of_bytes bo (float64_to_bytes bo x) = x.
Proof.
  intros Hx. unfold Float64.wf in Hx.
  assert (Hmod : x mod 2 ^ (Z.of_nat 8 * 8) = x)
    by (apply Z.mod_small; change (2 ^ (Z.of_nat 8 * 8)) with (2 ^ 64); lia).
  destruct bo; unfold float64_of_bytes, float64_to_bytes.
  - rewrite le_combine_split. exact Hmod.
  - rewrite rev_involutive, le_combine_split. exact Hmod.
Qed.

Lemma np_array_to_blob_length (bo : byteorder) (arr : list float64) :
  length (np_array_to_blob bo arr) = (length arr * 8)%nat.
Proof.
  induction arr as [|x arr IH]; [reflexivity|].
  unfold np_array_to_blob in *. simpl.
  rewrite length_app, float64_to_bytes_length, IH. lia.
Qed.

Lemma read_items_blob (bo : byteorder) (arr : list float64) :
  Forall Float64.wf arr ->
  read_items bo (length arr) (np_array_to_blob bo arr) = arr.
Proof.
  induction 1 as [|x arr Hx _ IH]; [reflexivity|].
  unfold np_array_to_blob in *. cbn [length flat_map read_items].
  pose proof (float64_to_bytes_length bo x) as Hlen.
  rewrite take_app_length', drop_app_length' by (symmetry; exact Hlen).
  rewrite float64_bytes_roundtrip by exact Hx.
  f_equal. exact IH.
Qed.

(** C10.  For a 128-element float64 vector, the blob written by the indexer
    is 128 * 8 bytes long, holds the eight native-order bytes of the i-th
    element at offset 8 * i, and the searcher's decoding of it returns the
    vector (on a machine of either byte order). *)
Theorem blob_roundtrip (bo : byteorder) (arr : list float64) :
  length arr = 128%nat ->
  Forall Float64.wf arr ->
  length (np_array_to_blob bo arr) = (128 * 8)%nat /\
  (forall (i : nat) (x : float64), arr !! i = Some x ->
     firstn 8 (skipn (8 * i) (np_array_to_blob bo arr)) = float64_to_bytes bo x) /\
  blob_to_np_array bo (np_array_to_blob bo arr) = ret arr.
Proof.
  intros Hlen Hwf. split; [|split].
  - rewrite np_array_to_blob_length, Hlen. reflexivity.
  - clear Hlen Hwf. induction arr as [|y arr IH]; intros i x Hi; [done|].
    unfold np_array_to_blob in *. cbn [flat_map].
    pose proof (float64_to_bytes_length bo y) as Hy.
    destruct i as [|i]; simpl in Hi.
    + injection Hi as ->. rewrite Nat.mul_0_r. cbn [skipn].
      apply take_app_length'. symmetry. exact Hy.
    + replace (8 * S i)%nat with (length (float64_to_bytes bo y) + 8 * i)%nat
        by lia.
      rewrite drop_app_add. apply IH. exact Hi.
  - unfold blob_to_np_array. rewrite np_array_to_blob_length, Hlen.
    change ((128 * 8) mod 8 =? 0)%nat with true. cbv iota.
    change (128 * 8 / 8)%nat with 128%nat. rewrite <- Hlen.
    rewrite read_items_blob by exact Hwf. reflexivity.
Qed.

(** ** Change detection *)

Lemma check_files_spec (w : World) (indexed : gmap string float64)
    (all : list string) (s : selection) :
  let s' := foldl (check_file w indexed) s all in
  files_to_process s' = files_to_process s ++ List.filter (selected w indexed) all /\
  skipped_count s' =
    (skipped_count s + length (List.filter (unchanged w indexed) all))%nat /\
  check_errors s' =
    (check_errors s + length (List.filter (stat_raises w) all))%nat.
Proof.
  revert s. induction all as [|p all IH]; intros s; cbn zeta.
  - simpl. rewrite app_nil_r. repeat split; lia.
  - cbn [foldl]. specialize (IH (check_file w indexed s p)). cbn zeta in IH.
    destruct IH as (Hf & Hs & He). rewrite Hf, Hs, He. clear Hf Hs He.
    unfold check_file. cbn [List.filter].
    unfold selected at 2, unchanged at 2, stat_raises at 2.
    destruct (stat_mtime w p) as [e|m].
    + destruct e; cbn; repeat split; lia.
    + destruct (new_or_modified indexed p m); cbn;
        rewrite <- ?app_assoc; repeat split; cbn; lia.
Qed.

Lemma filter_partition3 {A} (f g h : A -> bool) (l : list A) :
  (forall x, In x l ->
     (if f x then 1 else 0) + (if g x then 1 else 0) + (if h x then 1 else 0)
     = 1)%nat ->
  (length (List.filter f l) + length (List.filter g l)
   + length (List.filter h l) = length l)%nat.
Proof.
  induction l as [|x l IH]; intros H; [reflexivity|].
  cbn [List.filter]. specialize (H x (or_introl eq_refl)) as Hx.
  specialize (IH (fun y Hy => H y (or_intror Hy))).
  destruct (f x), (g x), (h x); cbn in *; lia.
Qed.

(** C2.  In a non-forced run the change detector puts a candidate path in
    the processing set exactly when its stat succeeds and the path is absent
    from the snapshot or its modification time is strictly greater than the
    recorded one (order and repetitions of the candidates are kept); a path
    whose stat raises is counted in [check_errors] and left out; every other
    path is counted in [skipped_count].  The function is total, so a failing
    stat never fails the run. *)
Theorem change_detection (w : World) (indexed : gmap string float64)
    (all : list string) :
  let sel := select_files w indexed false all in
  (forall p, In p (files_to_process sel) <->
     In p all /\
     exists m, stat_mtime w p = inr m /\
       (indexed !! p = None \/
        exists t, indexed !! p = Some t /\ Float64.gt m t = true)) /\
  (forall t, Float64.gt t t = false) /\
  files_to_process sel = List.filter (selected w indexed) all /\
  check_errors sel = length (List.filter (stat_raises w) all) /\
  skipped_count sel = length (List.filter (unchanged w indexed) all) /\
  (length (files_to_process sel) + skipped_count sel + check_errors sel
   = length all)%nat.
Proof.
  cbn zeta. unfold select_files. cbn [files_to_process skipped_count check_errors].
  match goal with |- context [foldl _ ?s0 all] =>
    pose proof (check_files_spec w indexed all s0) as H end.
  cbn zeta in H. cbn [files_to_process skipped_count check_errors] in H.
  destruct H as (Hf & Hs & He). rewrite Hf, Hs, He. cbn [app Nat.add].
  split; [|split; [|split; [|split; [|split]]]]; try reflexivity.
  - intros p. split.
    + intros Hin. apply filter_In in Hin as [Hin Hsel]. split; [exact Hin|].
      unfold selected in Hsel. destruct (stat_mtime w p) as [|m]; [done|].
      exists m. split; [reflexivity|]. unfold new_or_modified in Hsel.
      destruct (indexed !! p) as [t|]; [right; eauto | left; reflexivity].
    + intros (Hin & m & Hm & Hc). apply filter_In. split; [exact Hin|].
      unfold selected, new_or_modified. rewrite Hm.
      destruct Hc as [-> | (t & -> & Hgt)]; [reflexivity | exact Hgt].
  - apply float64_gt_irrefl.
  - apply filter_partition3.
    intros p _. unfold selected, unchanged, stat_raises.
    destruct (stat_mtime w p); [reflexivity|].
    destruct (new_or_modified indexed p _); reflexivity.
Qed.

(** ** The worker *)

(** The worker signals "no faces" and "processing failed" with the same
    value: [b.jpg] loads and shows no face, [corrupt.jpg] cannot be loaded,
    and both come back with [None], never with an empty list. *)
Lemma no_faces_and_failure_same_value :
  load_image_file Demo.world "/photos/b.jpg" = ret [0] /\
  face_locations Demo.world "hog" [0] = ret [] /\
  load_image_file Demo.world "/photos/corrupt.jpg" = raise UnidentifiedImageError /\
  snd (process_image Demo.world "hog" "/photos/b.jpg") <> Some [] /\
  snd (process_image Demo.world "hog" "/photos/b.jpg") =
  snd (process_image Demo.world "hog" "/photos/corrupt.jpg").
Proof. repeat split; try reflexivity. vm_compute. discriminate. Qed.

Ltac worker_none :=
  cbn [fst snd]; split; [done|]; split; [done|]; split;
  [ intros ?; split;
    [ done
    | intros (? & ? & ? & ? & ? & ? & ? & ? & ? & ? & ?); simplify_eq;
      congruence ]
  | intros; reflexivity ].

(** C4, as the code has it.  The worker returns the path it was given.  Its
    second component is a list exactly when stat, load, detection and
    encoding all succeed with at least one location and one encoding; the
    list is then non-empty, one record per (encoding, location) pair, each
    carrying the modification time read before loading.  In every other
    case, no faces found included, the second component is [None]; it is
    never the empty list. *)
Theorem process_image_outcome (w : World) (model p : string) :
  fst (process_image w model p) = p /\
  snd (process_image w model p) <> Some [] /\
  (forall l, snd (process_image w model p) = Some l <->
     exists lm img locs encs,
       stat_mtime w p = inr lm /\ load_image_file w p = inr img /\
       face_locations w model img = inr locs /\ locs <> [] /\
       face_encodings w img locs NUM_JITTERS ENCODING_MODEL = inr encs /\
       encs <> [] /\
       l = map (face_record w lm) (zip encs locs)) /\
  (forall lm img,
     stat_mtime w p = inr lm -> load_image_file w p = inr img ->
     face_locations w model img = inr [] ->
     snd (process_image w model p) = None).
Proof.
  unfold process_image, process_image_try, bind, ret.
  destruct (stat_mtime w p) as [e|lm] eqn:Hs; [worker_none|].
  destruct (load_image_file w p) as [e|img] eqn:Hl; [worker_none|].
  destruct (face_locations w model img) as [e|locs] eqn:Hf; [worker_none|].
  destruct locs as [|loc locs]; [worker_none|].
  destruct (face_encodings w img (loc :: locs) NUM_JITTERS ENCODING_MODEL)
    as [e|encs] eqn:He;
    [worker_none|].
  destruct encs as [|enc encs]; [worker_none|].
  cbn [fst snd]. split; [done|]. split; [done|]. split.
  - intros l. split.
    + intros [= <-]. exists lm, img, (loc :: locs), (enc :: encs).
      do 6 (split; [done|]).
      simpl. f_equal. apply map_ext. intros [? ?]. reflexivity.
    + intros (lm' & img' & locs' & encs' & H1 & H2 & H3 & _ & H5 & _ & ->).
      simplify_eq. rewrite Hf in H3. simplify_eq. rewrite He in H5.
      simplify_eq. f_equal. apply map_ext. intros [? ?]. reflexivity.
  - intros lm' img' H1 H2 H3. simplify_eq. congruence.
Qed.

(** ** Loading the stored embeddings *)

Lemma read_items_length (bo : byteorder) (n : nat) (buf : list byte) :
  length (read_items bo n buf) = n.
Proof.
  revert buf. induction n as [|n IH]; intros buf; [reflexivity|].
  cbn [read_items length]. rewrite IH. reflexivity.
Qed.

Lemma valid_row_blob_length (w : World) (r : Row) :
  valid_row w r = true <-> length (face_encoding r) = 1024%nat.
Proof.
  unfold valid_row, blob_to_np_array.
  destruct (length (face_encoding r) mod 8 =? 0)%nat eqn:Hm.
  - unfold ret. rewrite read_items_length. apply Nat.eqb_eq in Hm.
    rewrite Nat.eqb_eq.
    pose proof (Nat.div_mod_eq (length (face_encoding r)) 8). lia.
  - apply Nat.eqb_neq in Hm. split; [discriminate|].
    intros H. rewrite H in Hm. exfalso. apply Hm. reflexivity.
Qed.

Lemma load_rows_spec (w : World) (rs : list Row) :
  forall fps encs q,
    foldl (load_row w) (fps, encs, q) rs =
    (fps ++ map file_path (List.filter (valid_row w) rs),
     encs ++ map (decoded w) (List.filter (valid_row w) rs),
     q ++ map (drop_warning w)
            (List.filter (fun r => negb (valid_row w r)) rs)).
Proof.
  induction rs as [|r rs IH]; intros fps encs q.
  - cbn. rewrite !app_nil_r. reflexivity.
  - cbn [foldl List.filter].
    assert (Hstep : load_row w (fps, encs, q) r =
                    if valid_row w r
                    then (fps ++ [file_path r], encs ++ [decoded w r], q)
                    else (fps, encs, q ++ [drop_warning w r])).
    { unfold load_row, valid_row, decoded, drop_warning.
      destruct (blob_to_np_array (byte_order w) (face_encoding r)) as [e|a];
        [reflexivity|].
      destruct (length a =? 128)%nat; reflexivity. }
    rewrite Hstep.
    destruct (valid_row w r); cbn [negb map]; rewrite IH, <- ?app_assoc;
      reflexivity.
Qed.

(** What [load_all_encodings_from_db] returns for a store that can be read. *)
Lemma load_all_spec (w : World) (t : Table) :
  load_all_encodings_from_db w false (Some t) =
  match rows t with
  | [] => (Some ([], []),
           [WARN "Database '{}' appears to be empty. No faces indexed." []])
  | _ :: _ =>
    let good := List.filter (valid_row w) (rows t) in
    let warnings := map (drop_warning w)
                      (List.filter (fun r => negb (valid_row w r)) (rows t)) in
    match good with
    | [] => (None, warnings ++
               [ERROR "No valid encodings were loaded from the database." []])
    | _ :: _ =>
      (Some (map file_path good, map (decoded w) good),
       warnings ++ [INFO "Loaded {} known face encodings from the database."
                      [num (length good)]])
    end
  end.
Proof.
  unfold load_all_encodings_from_db.
  destruct (rows t) as [|r rs] eqn:Hrows; [reflexivity|].
  rewrite load_rows_spec. cbn [app]. cbn zeta.
  destruct (List.filter (valid_row w) (r :: rs)) as [|g good]; [reflexivity|].
  cbn [map length]. rewrite length_map. reflexivity.
Qed.

(** A store whose only row holds an 8-byte blob: the row is dropped and,
    no valid row being left, the search aborts. *)
Lemma invalid_embedding_is_fatal :
  valid_row Demo.world
    {| row_id := 1; file_path := "/photos/a.jpg"; last_modified := Demo.t0;
       face_encoding := le_split 8 0; face_location_css := "10,50,50,10" |}
  = false /\
  fst (run_search Demo.world false "/ref.jpg"
         (Some {| rows :=
                    [ {| row_id := 1; file_path := "/photos/a.jpg";
                         last_modified := Demo.t0;
                         face_encoding := le_split 8 0;
                         face_location_css := "10,50,50,10" |} ];
                  sqlite_sequence := 1 |})
         4603579539098121011) = None /\
  terminal_events
    (snd (run_search Demo.world false "/ref.jpg"
            (Some {| rows :=
                       [ {| row_id := 1; file_path := "/photos/a.jpg";
                            last_modified := Demo.t0;
                            face_encoding := le_split 8 0;
                            face_location_css := "10,50,50,10" |} ];
                     sqlite_sequence := 1 |})
            4603579539098121011)) = [ABORTED].
Proof. repeat split; vm_compute; reflexivity. Qed.

Lemma terminal_events_app (q1 q2 : list message) :
  terminal_events (q1 ++ q2) = terminal_events q1 ++ terminal_events q2.
Proof. apply List.filter_app. Qed.

Lemma drop_warnings_WARN (w : World) (rs : list Row) :
  List.filter is_WARN (map (drop_warning w) rs) = map (drop_warning w) rs /\
  terminal_events (map (drop_warning w) rs) = [].
Proof.
  induction rs as [|r rs [IH1 IH2]]; [split; reflexivity|].
  unfold terminal_events in *. cbn [map List.filter].
  assert (H : is_WARN (drop_warning w r) = true /\
              is_terminal (drop_warning w r) = false).
  { unfold drop_warning.
    destruct (blob_to_np_array _ _); split; reflexivity. }
  destruct H as [-> ->]. rewrite IH1, IH2. split; reflexivity.
Qed.

(** The loader itself never puts a terminal event on the queue. *)
Lemma load_no_terminal (w : World) (read_fails : bool) (db : option Table) :
  terminal_events (snd (load_all_encodings_from_db w read_fails db)) = [].
Proof.
  destruct db as [t|]; [|reflexivity].
  destruct read_fails; [reflexivity|].
  rewrite load_all_spec. destruct (rows t) as [|r rs]; [reflexivity|].
  cbn zeta. destruct (List.filter (valid_row w) (r :: rs));
    cbn [snd]; rewrite terminal_events_app,
      (proj2 (drop_warnings_WARN w _)); reflexivity.
Qed.

Lemma terminal_events_results (paths : list string) :
  terminal_events (map RESULT paths) = [].
Proof. induction paths as [|p ps IH]; [reflexivity | exact IH]. Qed.

Ltac one_terminal Hq :=
  cbn [fst snd]; split;
  [ rewrite ?terminal_events_app;
    repeat match goal with
           | |- context [terminal_events (?m :: map RESULT ?p)] =>
             change (m :: map RESULT p) with ([m] ++ map RESULT p)
           end;
    rewrite ?terminal_events_app, ?Hq, ?terminal_events_results; reflexivity
  | repeat rewrite last_app; reflexivity ].

(** Every call of [run_search] puts exactly one terminal event on the
    queue, as the last message: DONE when a list is returned, ABORTED when
    [None] is returned. *)
Lemma run_search_terminal (w : World) (read_fails : bool) (ref : string)
    (db : option Table) (tol : float64) :
  let r := run_search w read_fails ref db tol in
  let m := match fst r with Some _ => DONE | None => ABORTED end in
  terminal_events (snd r) = [m] /\ last (snd r) = Some m.
Proof.
  cbn zeta. unfold run_search.
  destruct (is_file w ref); cbn [negb]; [|split; reflexivity].
  pose proof (load_no_terminal w read_fails db) as Hq.
  destruct (load_all_encodings_from_db w read_fails db) as [[[fps encs]|] q];
    cbn [snd] in Hq; [|one_terminal Hq].
  destruct encs as [|enc encs]; [one_terminal Hq|].
  destruct (reference_encodings w ref) as [e|[|target others]];
    [one_terminal Hq | one_terminal Hq |].
  cbn zeta. destruct others; destruct (sorted _); one_terminal Hq.
Qed.

(** C7, as the code has it.  Reading a store that has rows: every row whose
    blob does not decode to exactly 128 floats (its blob is not 1024 bytes
    long) is dropped with one warning of its own, and the other rows are
    loaded in store order.  The load succeeds as soon as one row is valid;
    when no row at all is valid the load fails and every search on that
    store aborts. *)
Theorem invalid_embeddings_dropped (w : World) (t : Table) :
  let good := List.filter (valid_row w) (rows t) in
  let bad := List.filter (fun r => negb (valid_row w r)) (rows t) in
  let out := load_all_encodings_from_db w false (Some t) in
  (forall r, valid_row w r = true <-> length (face_encoding r) = 1024%nat) /\
  (rows t <> [] ->
     List.filter is_WARN (snd out) = map (drop_warning w) bad) /\
  (good <> [] ->
     fst out = Some (map file_path good, map (decoded w) good)) /\
  (rows t <> [] -> good = [] ->
     fst out = None /\
     forall ref tol,
       fst (run_search w false ref (Some t) tol) = None /\
       terminal_events (snd (run_search w false ref (Some t) tol)) = [ABORTED]).
Proof.
  cbn zeta. split; [apply valid_row_blob_length|].
  rewrite load_all_spec. cbn zeta.
  destruct (rows t) as [|r rs] eqn:Hrows.
  { split; [done|]. split; [done|]. done. }
  split; [|split].
  - intros _.
    destruct (List.filter (valid_row w) (r :: rs)); cbn [snd];
      rewrite List.filter_app, (proj1 (drop_warnings_WARN w _));
      apply app_nil_r.
  - intros Hgood.
    destruct (List.filter (valid_row w) (r :: rs)); [done | reflexivity].
  - intros _ Hgood. rewrite Hgood. split; [reflexivity|].
    intros ref tol.
    pose proof (run_search_terminal w false ref (Some t) tol) as Hterm.
    cbn zeta in Hterm.
    assert (Hnone : fst (run_search w false ref (Some t) tol) = None).
    { unfold run_search. destruct (is_file w ref); [|reflexivity].
      cbn [negb]. rewrite load_all_spec, Hrows. cbn zeta. rewrite Hgood.
      reflexivity. }
    rewrite Hnone in Hterm. split; [exact Hnone | apply Hterm].
Qed.

(** ** Missing store and empty store *)

(** C6.  A search against a store file that does not exist puts an ERROR
    on the queue, ends with ABORTED and returns no list; a search with an
    existing reference image against a store that can be read and has no
    rows returns the empty list and ends with DONE, without ABORTED. *)
Theorem missing_store_aborts_empty_store_completes (w : World)
    (read_fails : bool) (ref : string) (tol : float64) :
  (let r := run_search w read_fails ref None tol in
   fst r = None /\
   existsb is_ERROR (snd r) = true /\
   terminal_events (snd r) = [ABORTED] /\
   last (snd r) = Some ABORTED) /\
  (forall t : Table,
     rows t = [] -> is_file w ref = true ->
     let r := run_search w false ref (Some t) tol in
     fst r = Some [] /\
     terminal_events (snd r) = [DONE] /\
     last (snd r) = Some DONE).
Proof.
  split.
  - cbn zeta.
    pose proof (run_search_terminal w read_fails ref None tol) as Hterm.
    cbn zeta in Hterm.
    assert (H : fst (run_search w read_fails ref None tol) = None /\
                existsb is_ERROR (snd (run_search w read_fails ref None tol))
                = true).
    { unfold run_search. destruct (is_file w ref); split; reflexivity. }
    destruct H as [Hnone Herr]. rewrite Hnone in Hterm.
    split; [exact Hnone|]. split; [exact Herr|]. exact Hterm.
  - intros t Hrows Hfile. cbn zeta.
    pose proof (run_search_terminal w false ref (Some t) tol) as Hterm.
    cbn zeta in Hterm.
    assert (H : fst (run_search w false ref (Some t) tol) = Some []).
    { unfold run_search. rewrite Hfile. cbn [negb].
      rewrite load_all_spec, Hrows. reflexivity. }
    rewrite H in Hterm. split; [exact H | exact Hterm].
Qed.

(** ** The matching engine *)

#[global] Instance str_le_total : Total str_le.
Proof. intros a b. apply String.leb_total. Qed.

#[global] Instance str_le_antisym : AntiSymm (=) str_le.
Proof. intros a b. apply String.leb_antisym. Qed.

#[global] Instance str_le_trans : Transitive str_le.
Proof.
  assert (Hle : forall a b, str_le a b <->
                  OrderedTypeEx.String_as_OT.lt a b \/ a = b).
  { intros a b. unfold str_le, String.leb.
    rewrite <- OrderedTypeEx.String_as_OT.cmp_lt,
            <- OrderedTypeEx.String_as_OT.cmp_eq.
    unfold OrderedTypeEx.String_as_OT.cmp.
    destruct (String.compare a b); split; intros H; auto;
      try discriminate; destruct H; discriminate. }
  intros a b c Hab Hbc. apply Hle in Hab, Hbc. apply Hle.
  destruct Hab as [Hab| ->]; [|exact Hbc].
  destruct Hbc as [Hbc| <-]; [|left; exact Hab].
  left. exact (OrderedTypeEx.String_as_OT.lt_trans _ _ _ Hab Hbc).
Qed.

Lemma sorted_spec (s : gset string) :
  StronglySorted str_le (sorted s) /\ NoDup (sorted s) /\
  forall p, In p (sorted s) <-> p ∈ s.
Proof.
  unfold sorted. split; [|split].
  - apply StronglySorted_merge_sort; apply _.
  - rewrite merge_sort_Permutation. apply NoDup_elements.
  - intros p. rewrite <- list_elem_of_In, merge_sort_Permutation.
    apply elem_of_elements.
Qed.

Lemma collect_spec (known : list string) (matches : list bool) :
  forall (i : nat) (acc : gset string) (p : string),
    p ∈ collect known i matches acc <->
    p ∈ acc \/
    exists j : nat, matches !! j = Some true /\ known !! (i + j)%nat = Some p.
Proof.
  induction matches as [|m matches IH]; intros i acc p; cbn [collect].
  - split; [auto|]. intros [H|(j & Hj & _)]; [exact H | done].
  - rewrite IH. split.
    + intros [Hacc|(j & Hj & Hk)].
      * destruct m; [|auto].
        destruct (known !! i) as [x|] eqn:Hx; [|auto].
        apply elem_of_union in Hacc as [Hacc|Hp]; [auto|].
        apply elem_of_singleton in Hp as ->.
        right. exists 0%nat. rewrite Nat.add_0_r. auto.
      * right. exists (S j). rewrite <- Nat.add_succ_comm. auto.
    + intros [Hacc|(j & Hj & Hk)].
      * left. destruct m; [|exact Hacc].
        destruct (known !! i); [|exact Hacc]. apply elem_of_union; auto.
      * destruct j as [|j].
        -- left. cbn in Hj. injection Hj as ->. rewrite Nat.add_0_r in Hk.
           rewrite Hk. apply elem_of_union. right. apply elem_of_singleton.
           reflexivity.
        -- right. exists j. rewrite Nat.add_succ_comm. auto.
Qed.

Lemma lookup_map {A B} (f : A -> B) (l : list A) (i : nat) :
  map f l !! i = f <$> l !! i.
Proof.
  revert i. induction l as [|x l IH]; intros [|i]; cbn; auto.
Qed.

(** The paths collected from the rows the loader kept. *)
Lemma collect_loaded (w : World) (good : list Row) (target : encoding)
    (tol : float64) (p : string) :
  p ∈ collect (map file_path good) 0
        (compare_faces w (map (decoded w) good) target tol) ∅ <->
  exists r, In r good /\ file_path r = p /\ within w target tol r = true.
Proof.
  rewrite collect_spec. unfold compare_faces. rewrite map_map. split.
  - intros [H|(j & Hj & Hk)]; [set_solver|]. cbn [Nat.add] in Hk.
    rewrite lookup_map in Hj. rewrite lookup_map in Hk.
    destruct (good !! j) as [r|] eqn:Hr; [|done].
    cbn in Hj, Hk. exists r. split; [|split].
    + apply list_elem_of_In. eapply list_elem_of_lookup_2. exact Hr.
    + congruence.
    + unfold within. congruence.
  - intros (r & Hin & Hp & Hw). right.
    apply list_elem_of_In, list_elem_of_lookup in Hin as [j Hj].
    exists j. cbn [Nat.add]. rewrite !lookup_map, Hj. cbn. unfold within in Hw.
    rewrite Hw, Hp. auto.
Qed.

(** C3.  With a reference image in which the provider finds a face, and a
    store that is empty or holds at least one valid embedding, the search
    returns the strictly sorted, duplicate-free list of exactly those paths
    that have a stored 128-float embedding whose distance to the first
    reference embedding is [<=] the tolerance; the queue ends with one
    RESULT per returned path, in that order, followed by DONE, and holds no
    other RESULT or terminal event. *)
Theorem search_result (w : World) (ref : string) (t : Table) (tol : float64)
    (target : encoding) (others : list encoding) :
  is_file w ref = true ->
  reference_encodings w ref = inr (target :: others) ->
  (rows t <> [] -> exists r, In r (rows t) /\ valid_row w r = true) ->
  exists (paths : list string) (q : list message),
    run_search w false ref (Some t) tol =
      (Some paths, q ++ map RESULT paths ++ [DONE]) /\
    List.filter (fun m => is_RESULT m || is_terminal m) q = [] /\
    StronglySorted str_le paths /\ NoDup paths /\
    forall p, In p paths <->
      exists r, In r (rows t) /\ file_path r = p /\ valid_row w r = true /\
                Float64.le (face_distance w (decoded w r) target) tol = true.
Proof.
  intros Hfile Href Hvalid. unfold run_search.
  rewrite Hfile. cbn [negb]. rewrite load_all_spec, Href.
  destruct (rows t) as [|r0 rs] eqn:Hrows.
  { match goal with
    | |- context [(Some [], ?A ++ ?B ++ [?W; DONE])] =>
      exists [], (A ++ B ++ [W])
    end.
    split; [|split; [|split; [|split]]].
    - cbn [map app]. rewrite <- ?app_assoc. reflexivity.
    - reflexivity.
    - constructor.
    - constructor.
    - intros p. split; [done|]. intros (r & [] & _). }
  cbn zeta.
  assert (Hf : forall r, In r (List.filter (valid_row w) (r0 :: rs)) <->
                 In r (r0 :: rs) /\ valid_row w r = true)
    by (intros r; apply filter_In).
  set (bad := List.filter (fun r => negb (valid_row w r)) (r0 :: rs)).
  destruct (List.filter (valid_row w) (r0 :: rs)) as [|g good] eqn:Hgood.
  { exfalso. destruct Hvalid as (r & Hin & Hv); [done|].
    apply (proj2 (Hf r)); auto. }
  pose proof (fun p => collect_loaded w (g :: good) target tol p) as Hcl.
  cbn [map] in Hcl |- *.
  match goal with
  | |- context [sorted ?s] =>
    pose proof (sorted_spec s) as (Hsorted & Hnodup & Hmem)
  end.
  set (paths := sorted _) in *.
  exists paths.
  match goal with
  | |- context [(Some paths, ?A ++ ?B ++ _ ++ [DONE])] =>
    exists (A ++ B ++
            [match paths with
             | [] => INFO "No matches found with tolerance {}." [real tol]
             | _ :: _ =>
               INFO "Found {} photos containing a matching face:"
                 [num (length paths)]
             end])
  end.
  split; [|split; [|split; [exact Hsorted | split; [exact Hnodup|]]]].
  - f_equal. rewrite <- ?app_assoc.
    repeat (apply (f_equal2 app); [reflexivity|]).
    destruct paths; reflexivity.
  - rewrite !List.filter_app.
    assert (Hbad : List.filter (fun m => is_RESULT m || is_terminal m)
                     (map (drop_warning w) bad) = []).
    { induction bad as [|b bad' IH]; [reflexivity|]. cbn [map List.filter].
      replace (is_RESULT (drop_warning w b) || is_terminal (drop_warning w b))
        with false; [exact IH|].
      unfold drop_warning. destruct (blob_to_np_array _ _); reflexivity. }
    rewrite Hbad. destruct others; destruct paths; reflexivity.
  - intros p. rewrite Hmem, Hcl. split.
    + intros (r & Hin & Hp & Hw). exists r. apply Hf in Hin as [Hin Hv]. auto.
    + intros (r & Hin & Hp & Hv & Hw). exists r.
      split; [apply Hf; auto | auto].
Qed.

(** ** Applying one worker result to the store *)

Lemma inserted_rows (p : string) (l : list face_data) :
  forall t, exists news,
    rows (foldl (insert_face p) t l) = rows t ++ news /\
    map record_of news = l /\
    Forall (fun r => file_path r = p) news.
Proof.
  induction l as [|[[lm enc] loc] l IH]; intros t; cbn [foldl].
  - exists []. rewrite app_nil_r. auto.
  - destruct (IH (insert_face p t (lm, enc, loc))) as (news & Hr & Hm & Hp).
    eexists (_ :: news). rewrite Hr. cbn [insert_face insert_row rows fst snd].
    rewrite <- app_assoc. split; [reflexivity|]. split.
    + cbn [map]. rewrite Hm. reflexivity.
    + constructor; [reflexivity | exact Hp].
Qed.

Lemma replaced_records (p : string) (l : list face_data) (t : Table) :
  records_for p (replaced p l t) = l.
Proof.
  unfold records_for, rows_for, replaced.
  destruct (inserted_rows p l (delete_where_path p t)) as (news & -> & Hm & Hp).
  cbn [delete_where_path rows]. rewrite filter_app.
  replace (filter (fun r => file_path r = p)
             (filter (fun r => file_path r <> p) (rows t))) with (@nil Row).
  - cbn [app]. rewrite <- Hm. f_equal. clear Hm.
    induction Hp as [|r news Hr _ IH]; [reflexivity|].
    rewrite filter_cons_True by exact Hr. f_equal. exact IH.
  - symmetry. induction (rows t) as [|r rs IH]; [reflexivity|].
    destruct (decide (file_path r = p)) as [Heq|Hne].
    + rewrite (filter_cons_False (fun r => file_path r <> p)) by tauto.
      exact IH.
    + rewrite (filter_cons_True (fun r => file_path r <> p)) by exact Hne.
      rewrite filter_cons_False by exact Hne. exact IH.
Qed.

Lemma replaced_frame (p q : string) (l : list face_data) (t : Table) :
  q <> p -> rows_for q (replaced p l t) = rows_for q t.
Proof.
  intros Hne. unfold rows_for, replaced.
  destruct (inserted_rows p l (delete_where_path p t)) as (news & -> & _ & Hp).
  cbn [delete_where_path rows]. rewrite filter_app.
  replace (filter (fun r => file_path r = q) news) with (@nil Row).
  - rewrite app_nil_r. induction (rows t) as [|r rs IH]; [reflexivity|].
    destruct (decide (file_path r = p)) as [Heq|Hnp].
    + rewrite (filter_cons_False (fun r => file_path r <> p)) by tauto.
      rewrite filter_cons_False by congruence. exact IH.
    + rewrite (filter_cons_True (fun r => file_path r <> p)) by exact Hnp.
      destruct (decide (file_path r = q)) as [Hq|Hnq].
      * rewrite !filter_cons_True by exact Hq. f_equal. exact IH.
      * rewrite !filter_cons_False by exact Hnq. exact IH.
  - symmetry. induction Hp as [|r news Hr _ IH]; [reflexivity|].
    rewrite filter_cons_False by congruence. exact IH.
Qed.

(** Deleting the rows of a path that has none changes nothing. *)
Lemma delete_absent (p : string) (t : Table) :
  rows_for p t = [] -> delete_where_path p t = t.
Proof.
  unfold rows_for, delete_where_path. destruct t as [rs sq]. cbn [rows
    sqlite_sequence]. intros H. f_equal.
  induction rs as [|r rs IH]; [reflexivity|].
  destruct (decide (file_path r = p)) as [Heq|Hne].
  - rewrite filter_cons_True in H by exact Heq. discriminate.
  - rewrite filter_cons_False in H by exact Hne.
    rewrite filter_cons_True by exact Hne. f_equal. apply IH. exact H.
Qed.

(** *** The database calls of one result *)

Lemma db_call_cases (f : conn -> conn) (s : loop_state) :
  match db_call f s with
  | (inr _, s') =>
    cn s' = f (cn s) /\ counts s' = counts s /\ queue s' = queue s /\
    snd <$> calls_left s' = snd <$> calls_left s
  | (inl e, s') => s' = s /\ snd <$> calls_left s = Some e
  end.
Proof.
  unfold db_call.
  destruct (calls_left s) as [[[|k] e]|] eqn:Hk; cbn; rewrite ?Hk;
    repeat split; reflexivity.
Qed.

Lemma insert_faces_cases (p : string) (l : list face_data) :
  forall (n : nat) (s : loop_state),
    match insert_faces p l n s with
    | (inr m, s') =>
      m = (n + length l)%nat /\
      cn s' = foldl (execute_insert p) (cn s) l /\
      counts s' = counts s /\ queue s' = queue s /\
      snd <$> calls_left s' = snd <$> calls_left s
    | (inl e, s') =>
      committed (cn s') = committed (cn s) /\
      counts s' = counts s /\ queue s' = queue s /\
      snd <$> calls_left s = Some e
    end.
Proof.
  induction l as [|[[lm enc] loc] l IH]; intros n s; cbn [insert_faces].
  - cbn. repeat split; auto.
  - unfold bindS.
    pose proof (db_call_cases
                  (execute (INSERT_INTO_faces p lm enc loc)) s) as Hc.
    destruct (db_call _ s) as [[e|[]] s1].
    + destruct Hc as [-> Hk]. auto.
    + destruct Hc as (Hcn & Hco & Hq & Hk).
      specialize (IH (S n) s1).
      destruct (insert_faces p l (S n) s1) as [[e|m] s2].
      * destruct IH as (Hcm & Hco2 & Hq2 & Hk2).
        rewrite Hcm, Hco2, Hq2, Hcn, Hco, Hq, <- Hk, Hk2. repeat split.
      * destruct IH as (-> & Hcn2 & Hco2 & Hq2 & Hk2).
        rewrite Hcn2, Hco2, Hq2, Hcn, Hco, Hq, Hk2, Hk. cbn [length foldl].
        repeat split; auto; lia.
Qed.

Lemma view_inserts (p : string) (l : list face_data) :
  forall c, view (foldl (execute_insert p) c l) = foldl (insert_face p) (view c) l /\
            committed (foldl (execute_insert p) c l) = committed c.
Proof.
  induction l as [|fd l IH]; intros c; cbn [foldl]; [auto|].
  destruct (IH (execute_insert p c fd)) as [-> ->]. split; reflexivity.
Qed.

(** The [try] block: it returns with the result applied and counted, or it
    raises what the oracle has for it, with nothing committed and no
    database error counted yet. *)
Lemma update_try_cases (p : string) (r : option (list face_data))
    (s : loop_state) :
  match update_try p r s with
  | (inr _, s') =>
    cn s' = applied p r (cn s) /\ counts s' = counted r (counts s) /\
    queue s' = queue s
  | (inl e, s') =>
    committed (cn s') = committed (cn s) /\ queue s' = queue s /\
    db_errors (counts s') = db_errors (counts s) /\
    snd <$> calls_left s = Some e
  end.
Proof.
  unfold update_try.
  set (del := db_call (execute (DELETE_FROM_faces p))).
  pose proof (db_call_cases (execute (DELETE_FROM_faces p)) s) as H1.
  fold del in H1.
  destruct r as [[|fd l]|].
  - unfold bindS. destruct (del s) as [[e|[]] s1].
    + destruct H1 as [-> Hk]. auto.
    + destruct H1 as (Hcn1 & Hco1 & Hq1 & Hk1).
      rewrite Hcn1, Hco1, Hq1. repeat split.
  - set (ins := insert_faces p (fd :: l) 0). set (cm := db_call commit).
    unfold bindS. destruct (del s) as [[e|[]] s1].
    { destruct H1 as [-> Hk]. auto. }
    destruct H1 as (Hcn1 & Hco1 & Hq1 & Hk1).
    pose proof (insert_faces_cases p (fd :: l) 0 s1) as H2. fold ins in H2.
    destruct (ins s1) as [[e|m] s2].
    { destruct H2 as (Hcm & Hco & Hq & Hk).
      rewrite Hcm, Hco, Hq, Hcn1, Hco1, Hq1, <- Hk1, Hk. repeat split. }
    destruct H2 as (-> & Hcn2 & Hco2 & Hq2 & Hk2).
    pose proof (db_call_cases commit s2) as H3. fold cm in H3.
    destruct (view_inserts p (fd :: l) (execute (DELETE_FROM_faces p) (cn s)))
      as [Hview Hcomm].
    destruct (cm s2) as [[e|[]] s3].
    { destruct H3 as [-> Hk]. rewrite Hcn2, Hco2, Hq2, Hcn1, Hco1, Hq1, Hcomm.
      rewrite <- Hk1, <- Hk2, Hk. repeat split. }
    destruct H3 as (Hcn3 & Hco3 & Hq3 & Hk3).
    cbn [cn counts queue with_counts].
    rewrite Hcn3, Hco3, Hq3, Hcn2, Hco2, Hq2, Hcn1, Hco1, Hq1.
    split; [|split; reflexivity].
    unfold commit, applied, connect. rewrite Hview. reflexivity.
  - set (cm := db_call commit). unfold bindS.
    destruct (del s) as [[e|[]] s1].
    { destruct H1 as [-> Hk]. auto. }
    destruct H1 as (Hcn1 & Hco1 & Hq1 & Hk1).
    pose proof (db_call_cases commit (with_counts file_error s1)) as H3.
    fold cm in H3.
    destruct (cm (with_counts file_error s1)) as [[e|[]] s3].
    { destruct H3 as [-> Hk]. cbn [cn counts queue with_counts calls_left] in *.
      rewrite Hcn1, Hco1, Hq1, <- Hk1, Hk. repeat split. }
    destruct H3 as (Hcn3 & Hco3 & Hq3 & Hk3).
    cbn [cn counts queue with_counts] in *.
    rewrite Hcn3, Hco3, Hq3, Hcn1, Hco1, Hq1. repeat split.
Qed.

(** Without a fault the [try] block returns. *)
Lemma update_try_returns (p : string) (r : option (list face_data))
    (s : loop_state) :
  calls_left s = None -> exists s', update_try p r s = (inr tt, s').
Proof.
  intros Hnone. pose proof (update_try_cases p r s) as H.
  destruct (update_try p r s) as [[e|[]] s'].
  - destruct H as (_ & _ & _ & H). rewrite Hnone in H. discriminate.
  - eauto.
Qed.

(** One iteration of the result loop: the result is applied; or a database
    error rolled the transaction back and was counted; or an exception that
    is not a database error left the loop, with nothing committed and no
    database error counted. *)
Lemma apply_result_cases (o : Oracle) (total i : nat) (p : string)
    (r : option (list face_data)) (s : loop_state) :
  let s' := apply_result o total i (p, r) s in
  (fst (loop_body o total i (p, r) s) = inr tt /\
   cn s' = applied p r (cn s) /\
   counts s' = counted r (counts s) /\
   queue s' = queue s ++ [PROGRESS (S i) total (path_name p)]) \/
  (fst (loop_body o total i (p, r) s) = inr tt /\
   cn s' = connect (committed (cn s)) /\
   db_errors (counts s') = S (db_errors (counts s)) /\
   queue s' = queue s ++ [PROGRESS (S i) total (path_name p);
                          ERROR "Database error updating for {}: {}" [str p]] /\
   statement_fails o i <> None) \/
  (exists e n,
     fst (loop_body o total i (p, r) s) = inl e /\ e <> sqlite3_Error /\
     statement_fails o i = Some (n, e) /\
     committed (cn s') = committed (cn s) /\
     db_errors (counts s') = db_errors (counts s) /\
     queue s' = queue s ++ [PROGRESS (S i) total (path_name p)]).
Proof.
  cbn zeta. unfold apply_result, loop_body.
  set (s0 := with_calls_left (statement_fails o i)
               (report_status (PROGRESS (S i) total (path_name p)) s)).
  pose proof (update_try_cases p r s0) as H.
  destruct (update_try p r s0) as [[e|[]] s1].
  - destruct H as (Hcm & Hq & Hdb & Hk).
    assert (Hf : exists n, statement_fails o i = Some (n, e)).
    { subst s0. cbn [calls_left with_calls_left] in Hk.
      destruct (statement_fails o i) as [[n e']|]; [|discriminate].
      injection Hk as ->. eauto. }
    destruct Hf as [n Hf].
    assert (Hsql : e = sqlite3_Error ->
      fst (ret tt,
           with_counts db_error
             (with_conn rollback
                (report_status
                   (ERROR "Database error updating for {}: {}" [str p]) s1)))
      = inr tt /\
      cn (with_counts db_error
            (with_conn rollback
               (report_status
                  (ERROR "Database error updating for {}: {}" [str p]) s1)))
      = connect (committed (cn s)) /\
      db_errors (counts (with_counts db_error
            (with_conn rollback
               (report_status
                  (ERROR "Database error updating for {}: {}" [str p]) s1))))
      = S (db_errors (counts s)) /\
      queue (with_counts db_error
            (with_conn rollback
               (report_status
                  (ERROR "Database error updating for {}: {}" [str p]) s1)))
      = queue s ++ [PROGRESS (S i) total (path_name p);
                    ERROR "Database error updating for {}: {}" [str p]] /\
      statement_fails o i <> None).
    { intros _.
      cbn [fst cn counts queue with_counts with_conn report_status db_error
           db_errors]. rewrite Hq, Hdb. unfold rollback, connect. rewrite Hcm.
      subst s0. cbn. rewrite <- app_assoc, Hf. repeat split. discriminate. }
    assert (Hother : e <> sqlite3_Error ->
      exists e0 n0,
        fst (@raise unit e, s1) = inl e0 /\ e0 <> sqlite3_Error /\
        statement_fails o i = Some (n0, e0) /\
        committed (cn s1) = committed (cn s) /\
        db_errors (counts s1) = db_errors (counts s) /\
        queue s1 = queue s ++ [PROGRESS (S i) total (path_name p)]).
    { intros Hne. exists e, n. rewrite Hcm, Hq, Hdb. subst s0. cbn.
      repeat split; assumption. }
    destruct e;
      first [ right; left; cbn [fst snd]; apply Hsql; reflexivity
            | right; right; cbn [fst snd]; apply Hother; discriminate ].
  - left. cbn [fst snd]. destruct H as (-> & -> & ->). subst s0. cbn. auto.
Qed.

(** The handler catches every database error. *)
Lemma loop_body_returns (o : Oracle) (total i : nat)
    (item : string * option (list face_data)) (s : loop_state) :
  (forall n e, statement_fails o i = Some (n, e) -> e = sqlite3_Error) ->
  fst (loop_body o total i item s) = inr tt.
Proof.
  intros Hdb. destruct item as [p r].
  destruct (apply_result_cases o total i p r s)
    as [(H & _)|[(H & _)|(e & n & _ & Hne & Hf & _)]]; [exact H | exact H |].
  exfalso. apply Hne. apply (Hdb n). exact Hf.
Qed.

Lemma loop_body_raises (o : Oracle) (total i : nat)
    (item : string * option (list face_data)) (s : loop_state) (e : exn) :
  fst (loop_body o total i item s) = inl e ->
  e <> sqlite3_Error /\ exists n, statement_fails o i = Some (n, e).
Proof.
  intros He. destruct item as [p r].
  destruct (apply_result_cases o total i p r s)
    as [(H & _)|[(H & _)|(e' & n & H & Hne & Hf & _)]];
    try congruence.
  rewrite He in H. injection H as <-. eauto.
Qed.

(** *** Stepping through the loop *)

Lemma consume_nil (o : Oracle) (total i : nat) (s : loop_state) :
  consume o total i [] s = s.
Proof. reflexivity. Qed.

Lemma for_results_cons (o : Oracle) (total i : nat)
    (x : string * option (list face_data))
    (l : list (string * option (list face_data))) (s : loop_state) :
  for_results o total i (x :: l) s =
  match fst (loop_body o total i x s) with
  | inr _ => for_results o total (S i) l (apply_result o total i x s)
  | inl e => (inl e, apply_result o total i x s)
  end.
Proof.
  cbn [for_results]. unfold bindS, apply_result.
  destruct (loop_body o total i x s) as [[e|[]] s']; reflexivity.
Qed.

Lemma consume_cons (o : Oracle) (total i : nat)
    (x : string * option (list face_data))
    (l : list (string * option (list face_data))) (s : loop_state) :
  consume o total i (x :: l) s =
  match fst (loop_body o total i x s) with
  | inr _ => consume o total (S i) l (apply_result o total i x s)
  | inl _ => apply_result o total i x s
  end.
Proof.
  unfold consume. rewrite for_results_cons.
  destruct (fst (loop_body o total i x s)); reflexivity.
Qed.

(** While the handler catches what is raised, the loop goes on. *)
Lemma consume_step (o : Oracle) (total i : nat)
    (x : string * option (list face_data))
    (l : list (string * option (list face_data))) (s : loop_state) :
  (forall n e, statement_fails o i = Some (n, e) -> e = sqlite3_Error) ->
  consume o total i (x :: l) s =
  consume o total (S i) l (apply_result o total i x s).
Proof.
  intros Hdb. rewrite consume_cons, loop_body_returns by exact Hdb.
  reflexivity.
Qed.

Lemma loop_body_no_fault (o : Oracle) (total i : nat)
    (item : string * option (list face_data)) (s : loop_state) :
  statement_fails o i = None -> fst (loop_body o total i item s) = inr tt.
Proof.
  intros Hok. apply loop_body_returns. intros n e Hf. congruence.
Qed.

Lemma consume_step_no_fault (o : Oracle) (total i : nat)
    (x : string * option (list face_data))
    (l : list (string * option (list face_data))) (s : loop_state) :
  statement_fails o i = None ->
  consume o total i (x :: l) s =
  consume o total (S i) l (apply_result o total i x s).
Proof.
  intros Hok. apply consume_step. intros n e Hf. congruence.
Qed.

Lemma for_results_returns (o : Oracle) (total : nat)
    (l : list (string * option (list face_data))) :
  only_database_errors o ->
  forall i s, fst (for_results o total i l s) = inr tt.
Proof.
  intros Hdb. induction l as [|x l IH]; intros i s; [reflexivity|].
  rewrite for_results_cons, loop_body_returns by (intros n e; apply Hdb).
  apply IH.
Qed.

Lemma for_results_raises (o : Oracle) (total : nat)
    (l : list (string * option (list face_data))) (e : exn) :
  forall i s, fst (for_results o total i l s) = inl e ->
              e <> sqlite3_Error /\ ~ only_database_errors o.
Proof.
  induction l as [|x l IH]; intros i s; [discriminate|].
  rewrite for_results_cons.
  destruct (fst (loop_body o total i x s)) as [e'|[]] eqn:Hb.
  - cbn [fst]. intros [= ->].
    destruct (loop_body_raises o total i x s e Hb) as (Hne & n & Hf).
    split; [exact Hne|]. intros Hdb. apply Hne. apply (Hdb i n). exact Hf.
  - apply IH.
Qed.

Lemma no_statement_fails_only_database_errors (o : Oracle) :
  (forall i, statement_fails o i = None) -> only_database_errors o.
Proof. intros H i n e Hf. rewrite H in Hf. discriminate. Qed.

Lemma for_results_app (o : Oracle) (total : nat)
    (l1 l2 : list (string * option (list face_data))) :
  forall (i : nat) (s : loop_state),
    for_results o total i (l1 ++ l2) s =
    match fst (for_results o total i l1 s) with
    | inr _ =>
      for_results o total (i + length l1) l2 (consume o total i l1 s)
    | inl e => (inl e, consume o total i l1 s)
    end.
Proof.
  induction l1 as [|x l1 IH]; intros i s.
  - cbn [app length for_results fst]. rewrite Nat.add_0_r. reflexivity.
  - cbn [app length]. rewrite !for_results_cons, consume_cons.
    destruct (fst (loop_body o total i x s)) as [e|[]]; [reflexivity|].
    rewrite IH. replace (S i + length l1)%nat with (i + S (length l1))%nat
      by lia. reflexivity.
Qed.

Lemma consume_app (o : Oracle) (total : nat)
    (l1 l2 : list (string * option (list face_data))) :
  forall (i : nat) (s : loop_state),
    consume o total i (l1 ++ l2) s =
    match fst (for_results o total i l1 s) with
    | inr _ => consume o total (i + length l1) l2 (consume o total i l1 s)
    | inl _ => consume o total i l1 s
    end.
Proof.
  intros i s. unfold consume at 1. rewrite for_results_app.
  destruct (fst (for_results o total i l1 s)); reflexivity.
Qed.

(** *** One result, applied *)

Lemma applied_clean (p : string) (r : option (list face_data)) (c : conn) :
  pending c = None -> r <> Some [] ->
  applied p r c = connect (replaced p (default [] r) (committed c)).
Proof.
  intros Hc Hr. unfold applied, view. rewrite Hc.
  destruct r as [[|fd l]|]; [done | reflexivity | reflexivity].
Qed.

Lemma apply_result_frame (o : Oracle) (total i : nat) (p q : string)
    (r : option (list face_data)) (s : loop_state) :
  pending (cn s) = None -> q <> p ->
  rows_for q (committed (cn (apply_result o total i (p, r) s))) =
  rows_for q (committed (cn s)).
Proof.
  intros Hclean Hne.
  destruct (apply_result_cases o total i p r s)
    as [(_ & -> & _)|[(_ & -> & _)|(e & n & _ & _ & _ & -> & _)]];
    [|reflexivity|reflexivity].
  unfold applied, view. rewrite Hclean.
  destruct r as [[|fd l]|]; cbn [committed connect execute default];
    [reflexivity | apply replaced_frame, Hne | apply replaced_frame, Hne].
Qed.

(** When the body returns, it leaves no transaction open. *)
Lemma apply_result_clean (o : Oracle) (total i : nat) (p : string)
    (r : option (list face_data)) (s : loop_state) :
  r <> Some [] -> fst (loop_body o total i (p, r) s) = inr tt ->
  pending (cn (apply_result o total i (p, r) s)) = None.
Proof.
  intros Hr Hret.
  destruct (apply_result_cases o total i p r s)
    as [(_ & -> & _)|[(_ & -> & _)|(e & n & He & _)]];
    [|reflexivity|congruence].
  destruct r as [[|fd l]|]; [done | reflexivity | reflexivity].
Qed.

Lemma apply_result_no_fault (o : Oracle) (total i : nat) (p : string)
    (r : option (list face_data)) (s : loop_state) :
  statement_fails o i = None -> pending (cn s) = None -> r <> Some [] ->
  cn (apply_result o total i (p, r) s) =
  connect (replaced p (default [] r) (committed (cn s))).
Proof.
  intros Hok Hclean Hr.
  destruct (apply_result_cases o total i p r s)
    as [(_ & -> & _)|[(_ & _ & _ & _ & Hf)|(e & n & _ & _ & Hf & _)]];
    [|contradiction|congruence].
  apply applied_clean; assumption.
Qed.

Lemma worker_results_nonempty (w : World) (model : string)
    (paths : list string) :
  Forall (fun it : string * option (list face_data) => it.2 <> Some [])
    (map (process_image w model) paths).
Proof.
  induction paths as [|p paths IH]; constructor; [|exact IH].
  apply (proj1 (proj2 (process_image_outcome w model p))).
Qed.

(** One iteration of the result loop on the worker's result for [p],
    started with no open transaction. *)
Lemma apply_result_atomic (w : World) (o : Oracle) (model : string)
    (total i : nat) (p : string) (s : loop_state) :
  pending (cn s) = None ->
  let r := snd (process_image w model p) in
  let raised := fst (loop_body o total i (process_image w model p) s) in
  let s' := apply_result o total i (process_image w model p) s in
  ((raised = inr tt /\ pending (cn s') = None /\
    db_errors (counts s') = db_errors (counts s) /\
    records_for p (committed (cn s')) = default [] r /\
    forall q, q <> p ->
      rows_for q (committed (cn s')) = rows_for q (committed (cn s))) \/
   (raised = inr tt /\ pending (cn s') = None /\
    db_errors (counts s') = S (db_errors (counts s)) /\
    committed (cn s') = committed (cn s)) \/
   (exists e, raised = inl e /\ e <> sqlite3_Error /\
    db_errors (counts s') = db_errors (counts s) /\
    committed (cn s') = committed (cn s))) /\
  (statement_fails o i = None ->
   raised = inr tt /\ pending (cn s') = None /\
   db_errors (counts s') = db_errors (counts s) /\
   records_for p (committed (cn s')) = default [] r).
Proof.
  intros Hclean. cbn zeta.
  assert (Hitem : process_image w model p
                  = (p, snd (process_image w model p))).
  { rewrite <- (proj1 (process_image_outcome w model p)) at 2.
    apply surjective_pairing. }
  rewrite Hitem. cbn [snd].
  set (r := snd (process_image w model p)).
  assert (Hr : r <> Some [])
    by (apply (proj1 (proj2 (process_image_outcome w model p)))).
  pose proof (apply_result_frame o total i p) as Hframe.
  pose proof (apply_result_clean o total i p r s Hr) as Hc.
  destruct (apply_result_cases o total i p r s)
    as [(Hret & Hcn & Hco & _)|[(Hret & Hcn & Hdb & _ & Hf)
                               |(e & n & He & Hne & Hf & Hcm & Hdb & _)]].
  - assert (Happlied :
      fst (loop_body o total i (p, r) s) = inr tt /\
      pending (cn (apply_result o total i (p, r) s)) = None /\
      db_errors (counts (apply_result o total i (p, r) s))
      = db_errors (counts s) /\
      records_for p (committed (cn (apply_result o total i (p, r) s)))
      = default [] r).
    { split; [exact Hret|]. split; [apply Hc; exact Hret|].
      rewrite Hco, Hcn, applied_clean by assumption. split.
      - destruct r as [[|fd l]|]; reflexivity.
      - apply replaced_records. }
    split; [|intros _; exact Happlied].
    left. destruct Happlied as (H0 & H1 & H2 & H3).
    do 4 (split; [assumption|]). intros q Hq. apply Hframe; assumption.
  - split; [|intros Hok; contradiction].
    right. left. split; [exact Hret|]. split; [apply Hc; exact Hret|].
    rewrite Hcn. split; [exact Hdb | reflexivity].
  - split; [|intros Hok; congruence].
    right. right. exists e. auto.
Qed.

(** The worker never returns an empty list, so a loop that was not left by
    an exception leaves no transaction open, whatever database call
    failed. *)
Lemma consume_clean (o : Oracle) (total : nat)
    (items : list (string * option (list face_data))) :
  forall (i : nat) (s : loop_state),
    pending (cn s) = None ->
    Forall (fun it => it.2 <> Some []) items ->
    fst (for_results o total i items s) = inr tt ->
    pending (cn (consume o total i items s)) = None.
Proof.
  induction items as [|[p r] items IH]; intros i s Hclean Hitems;
    [intros _; exact Hclean|].
  apply Forall_cons in Hitems as [Hr Hitems].
  rewrite for_results_cons, consume_cons.
  destruct (fst (loop_body o total i (p, r) s)) as [e|[]] eqn:Hb;
    [discriminate|].
  apply IH; [|exact Hitems]. apply apply_result_clean; assumption.
Qed.

(** C1.  Let the pool yield the workers' results for [paths] in this
    order, and let [p] be the [k]-th of them; compare the store before and
    after the loop body for [p].  Either the result was applied -- the rows
    stored for [p] are exactly the records of this pass, in order, no other
    path's rows changed and no transaction is open -- or a database error
    was counted and the committed table is the one from before, untouched,
    or an exception that is not a database error has left the loop, in this
    iteration or an earlier one, and again the committed table is the one
    from before.  When no statement of this iteration fails and the loop
    got as far as [p], the first case holds. *)
Theorem replace_atomic (w : World) (o : Oracle) (model : string)
    (paths : list string) (k : nat) (p : string) (s0 : loop_state) :
  pending (cn s0) = None ->
  paths !! k = Some p ->
  let results := map (process_image w model) paths in
  let before := consume o (length paths) 0 (firstn k results) s0 in
  let after := consume o (length paths) 0 (firstn (S k) results) s0 in
  let raised :=
    fst (for_results o (length paths) 0 (firstn (S k) results) s0) in
  ((raised = inr tt /\ pending (cn after) = None /\
    db_errors (counts after) = db_errors (counts before) /\
    records_for p (committed (cn after)) =
      default [] (snd (process_image w model p)) /\
    forall q, q <> p ->
      rows_for q (committed (cn after)) = rows_for q (committed (cn before))) \/
   (raised = inr tt /\ pending (cn after) = None /\
    db_errors (counts after) = S (db_errors (counts before)) /\
    committed (cn after) = committed (cn before)) \/
   (exists e, raised = inl e /\ e <> sqlite3_Error /\
    db_errors (counts after) = db_errors (counts before) /\
    committed (cn after) = committed (cn before))) /\
  (statement_fails o k = None ->
   fst (for_results o (length paths) 0 (firstn k results) s0) = inr tt ->
   raised = inr tt /\
   db_errors (counts after) = db_errors (counts before) /\
   records_for p (committed (cn after)) =
     default [] (snd (process_image w model p))).
Proof.
  intros Hclean Hk. cbn zeta.
  set (results := map (process_image w model) paths).
  assert (Hres : results !! k = Some (process_image w model p))
    by (subst results; rewrite lookup_map, Hk; reflexivity).
  assert (Hlen : length (firstn k results) = k).
  { apply length_take_le. apply Nat.lt_le_incl.
    apply (lookup_lt_Some results k _ Hres). }
  rewrite (take_S_r results k _ Hres), consume_app, for_results_app, Hlen.
  cbn [Nat.add].
  destruct (fst (for_results o (length paths) 0 (firstn k results) s0))
    as [e|[]] eqn:Hbefore.
  { cbn [fst]. split; [|intros _ [=]].
    right. right. exists e.
    split; [reflexivity|].
    split; [apply (for_results_raises _ _ _ _ _ _ Hbefore)|].
    split; reflexivity. }
  assert (Hc : pending (cn (consume o (length paths) 0 (firstn k results) s0))
               = None).
  { apply consume_clean; [exact Hclean | | exact Hbefore].
    apply Forall_take. apply worker_results_nonempty. }
  rewrite for_results_cons, consume_cons.
  cbn [for_results consume].
  destruct (apply_result_atomic w o model (length paths) k p _ Hc)
    as [Hcases Hok]. cbn zeta in Hcases, Hok.
  destruct (fst (loop_body o (length paths) k (process_image w model p)
                   (consume o (length paths) 0 (firstn k results) s0)))
    as [e|[]] eqn:Hbody; cbn [fst].
  - split.
    + destruct Hcases as [(H & _)|[(H & _)|(e' & H & Hne & Hdb & Hcm)]];
        [discriminate | discriminate |].
      injection H as <-. right. right. exists e. auto.
    + intros Hnone _. destruct (Hok Hnone) as [H _]. discriminate.
  - rewrite consume_nil. split.
    + destruct Hcases as [(_ & H)|[(_ & H)|(e' & H & _)]];
        [left; auto | right; left; auto | discriminate].
    + intros Hnone _. destruct (Hok Hnone) as (_ & _ & H1 & H2). auto.
Qed.

(** *** The whole result loop *)

Lemma consume_records (o : Oracle) (total : nat)
    (items : list (string * option (list face_data))) :
  forall (i : nat) (s : loop_state),
    (forall j, statement_fails o j = None) ->
    pending (cn s) = None ->
    Forall (fun it => it.2 <> Some []) items ->
    let s' := consume o total i items s in
    pending (cn s') = None /\
    forall x,
      (latest x items = None ->
       rows_for x (committed (cn s')) = rows_for x (committed (cn s))) /\
      (forall r, latest x items = Some r ->
       records_for x (committed (cn s')) = default [] r).
Proof.
  induction items as [|[p r] items IH]; intros i s Hok Hclean Hitems;
    cbn zeta.
  - rewrite consume_nil.
    split; [exact Hclean|]. intros x. split; [reflexivity | discriminate].
  - rewrite consume_step_no_fault by apply Hok.
    apply Forall_cons in Hitems as [Hr Hitems]. cbn [snd] in Hr.
    pose proof (apply_result_clean o total i p r s Hr
                  (loop_body_no_fault o total i (p, r) s (Hok i))) as Hc.
    pose proof (apply_result_no_fault o total i p r s (Hok i) Hclean Hr) as Hcn.
    destruct (IH (S i) (apply_result o total i (p, r) s) Hok Hc Hitems)
      as [Hclean' Hx].
    split; [exact Hclean'|]. intros x. destruct (Hx x) as [Hnone Hsome].
    cbn [latest]. destruct (latest x items) as [r'|].
    + split; [discriminate|]. intros r0 [= <-]. apply Hsome. reflexivity.
    + destruct (decide (p = x)) as [->|Hne].
      * split; [discriminate|]. intros r0 [= <-].
        unfold records_for. rewrite Hnone by reflexivity.
        rewrite Hcn. apply replaced_records.
      * split; [|discriminate]. intros _. rewrite Hnone by reflexivity.
        apply apply_result_frame; [exact Hclean | congruence].
Qed.

Lemma latest_In (x : string) (items : list (string * option (list face_data))) :
  NoDup (map fst items) ->
  forall r, latest x items = Some r <-> In (x, r) items.
Proof.
  induction items as [|[p r0] items IH]; intros Hnd r; cbn [latest].
  - split; [discriminate | intros []].
  - cbn [map fst] in Hnd. apply NoDup_cons in Hnd as [Hp Hnd].
    specialize (IH Hnd). destruct (latest x items) as [r'|] eqn:Hl.
    + split.
      * intros [= <-]. right. apply IH. reflexivity.
      * intros [[= -> ->]|Hin]; [|apply IH; exact Hin].
        exfalso. apply Hp. apply list_elem_of_In, in_map_iff.
        exists (x, r'). split; [reflexivity|].
        apply (proj1 (IH r')). reflexivity.
    + destruct (decide (p = x)) as [->|Hne].
      * split; [intros [= <-]; left; reflexivity|].
        intros [[= ->]|Hin]; [reflexivity|].
        apply IH in Hin. discriminate.
      * split; [discriminate|].
        intros [[= -> _]|Hin]; [done|]. apply IH in Hin. discriminate.
Qed.

Lemma latest_Permutation (x : string)
    (items1 items2 : list (string * option (list face_data))) :
  NoDup (map fst items1) -> Permutation items1 items2 ->
  latest x items1 = latest x items2.
Proof.
  intros Hnd Hperm.
  assert (Hnd2 : NoDup (map fst items2)).
  { change (map fst items2) with (fst <$> items2).
    rewrite <- Hperm. exact Hnd. }
  destruct (latest x items1) as [r|] eqn:H1.
  - symmetry. apply latest_In; [exact Hnd2|].
    apply (Permutation_in _ Hperm). apply latest_In; assumption.
  - destruct (latest x items2) as [r|] eqn:H2; [|reflexivity].
    apply latest_In in H2; [|exact Hnd2].
    apply (Permutation_in _ (Permutation_sym Hperm)) in H2.
    apply latest_In in H2; [congruence | exact Hnd].
Qed.

(** C9.  The loop body for a result of [p] leaves the committed rows of
    every other path as they were, whatever the result and whether or not a
    statement fails.  Hence, when no statement fails, two runs of the result
    loop over the same results of distinct files, taken in any two orders,
    end with the same records stored for every path. *)
Theorem results_independent (o : Oracle) (total : nat) (s : loop_state) :
  pending (cn s) = None ->
  (forall i p r q, q <> p ->
     rows_for q (committed (cn (apply_result o total i (p, r) s))) =
     rows_for q (committed (cn s))) /\
  (forall items1 items2 i1 i2,
     (forall j, statement_fails o j = None) ->
     Forall (fun it => it.2 <> Some []) items1 ->
     NoDup (map fst items1) ->
     Permutation items1 items2 ->
     forall x,
       records_for x (committed (cn (consume o total i1 items1 s))) =
       records_for x (committed (cn (consume o total i2 items2 s)))).
Proof.
  intros Hclean. split.
  - intros i p r q Hne. apply apply_result_frame; assumption.
  - intros items1 items2 i1 i2 Hok Hw Hnd Hperm x.
    assert (Hw2 : Forall (fun it => it.2 <> Some []) items2)
      by (rewrite <- Hperm; exact Hw).
    destruct (consume_records o total items1 i1 s Hok Hclean Hw) as [_ H1].
    destruct (consume_records o total items2 i2 s Hok Hclean Hw2) as [_ H2].
    destruct (H1 x) as [Hn1 Hs1]. destruct (H2 x) as [Hn2 Hs2].
    pose proof (latest_Permutation x items1 items2 Hnd Hperm) as Hl.
    destruct (latest x items1) as [r|] eqn:E1.
    + rewrite (Hs1 r eq_refl), (Hs2 r (eq_sym Hl)). reflexivity.
    + unfold records_for. rewrite (Hn1 eq_refl), (Hn2 (eq_sym Hl)).
      reflexivity.
Qed.

(** ** Terminal events of an indexing run *)

Lemma plain_filters (q : list message) :
  plain q -> terminal_events q = [] /\ List.filter is_PROGRESS q = [].
Proof.
  induction 1 as [|m q [Ht Hp] _ [IH1 IH2]]; [split; reflexivity|].
  unfold terminal_events in *. cbn [List.filter]. rewrite Ht, Hp. auto.
Qed.

#[local] Hint Unfold plain : core.
#[local] Hint Extern 1 (_ /\ _) => split : core.
#[local] Hint Extern 2 (Forall _ (_ ++ _)) => apply Forall_app : core.

Lemma check_files_plain (w : World) (indexed : gmap string float64)
    (all : list string) :
  forall s, plain (reported s) ->
            plain (reported (foldl (check_file w indexed) s all)).
Proof.
  induction all as [|p all IH]; intros s Hs; [exact Hs|].
  cbn [foldl]. apply IH. unfold check_file.
  destruct (stat_mtime w p) as [e|m].
  - destruct e; cbn [reported]; apply Forall_app; split; auto;
      repeat constructor.
  - destruct (new_or_modified indexed p m); exact Hs.
Qed.

Lemma select_files_plain (w : World) (indexed : gmap string float64)
    (force : bool) (all : list string) :
  plain (reported (select_files w indexed force all)).
Proof.
  unfold select_files. destruct force; [repeat constructor|].
  cbn [reported]. apply Forall_app. split.
  - apply check_files_plain. repeat constructor.
  - apply Forall_app. split; [repeat constructor|].
    destruct (0 <? _)%nat; repeat constructor.
Qed.

Lemma entered_le (o : Oracle) (total : nat)
    (items : list (string * option (list face_data))) :
  forall (i : nat) (s : loop_state),
    (entered o total i items s <= length items)%nat.
Proof.
  induction items as [|x items IH]; intros i s; cbn [entered length];
    [lia|].
  destruct (fst (loop_body o total i x s)); [lia|].
  specialize (IH (S i) (apply_result o total i x s)). lia.
Qed.

Lemma entered_returns (o : Oracle) (total : nat)
    (items : list (string * option (list face_data))) :
  forall (i : nat) (s : loop_state),
    fst (for_results o total i items s) = inr tt ->
    entered o total i items s = length items.
Proof.
  induction items as [|x items IH]; intros i s; [reflexivity|].
  rewrite for_results_cons. cbn [entered length].
  destruct (fst (loop_body o total i x s)) as [e|[]]; [discriminate|].
  intros H. rewrite (IH _ _ H). reflexivity.
Qed.

(** What the loop puts on the queue: one progress report for each result
    whose body is entered, and no terminal event. *)
Lemma consume_queue (o : Oracle) (total : nat)
    (items : list (string * option (list face_data))) :
  forall (i : nat) (s : loop_state),
    exists extra,
      queue (consume o total i items s) = queue s ++ extra /\
      terminal_events extra = [] /\
      List.filter is_PROGRESS extra
      = progress_events total i
          (map fst (firstn (entered o total i items s) items)).
Proof.
  induction items as [|[p r] items IH]; intros i s.
  - rewrite consume_nil. exists []. rewrite app_nil_r. auto.
  - rewrite consume_cons. cbn [entered].
    destruct (apply_result_cases o total i p r s)
      as [(Hret & _ & _ & Hq)|[(Hret & _ & _ & Hq & _)
                              |(e & n & Hret & _ & _ & _ & _ & Hq)]];
      rewrite Hret.
    + destruct (IH (S i) (apply_result o total i (p, r) s))
        as (extra & -> & Ht & Hp).
      rewrite Hq, <- app_assoc. eexists. split; [reflexivity|].
      unfold terminal_events in *.
      cbn [app List.filter is_terminal is_PROGRESS firstn map fst
           progress_events].
      rewrite Hp. auto.
    + destruct (IH (S i) (apply_result o total i (p, r) s))
        as (extra & -> & Ht & Hp).
      rewrite Hq, <- app_assoc. eexists. split; [reflexivity|].
      unfold terminal_events in *.
      cbn [app List.filter is_terminal is_PROGRESS firstn map fst
           progress_events].
      rewrite Hp. auto.
    + rewrite Hq. eexists. split; [reflexivity|].
      split; reflexivity.
Qed.

Lemma consume_queue_returned (o : Oracle) (total : nat)
    (items : list (string * option (list face_data)))
    (i : nat) (s : loop_state) :
  fst (for_results o total i items s) = inr tt ->
  exists extra,
    queue (consume o total i items s) = queue s ++ extra /\
    terminal_events extra = [] /\
    List.filter is_PROGRESS extra = progress_events total i (map fst items).
Proof.
  intros Hret. destruct (consume_queue o total items i s)
    as (extra & Hq & Ht & Hp).
  rewrite (entered_returns _ _ _ _ _ Hret), firstn_all in Hp. eauto.
Qed.

(** *** The pool *)

Lemma map_consumed (w : World) (o : Oracle) (model : string)
    (files : list string) :
  map (process_image w model) (consumed o files) =
  match pool_breaks_after o with
  | None => map (process_image w model) (completion_order o files)
  | Some (k, _) =>
    firstn k (map (process_image w model) (completion_order o files))
  end.
Proof.
  unfold consumed. destruct (pool_breaks_after o) as [[k how]|];
    [symmetry; apply firstn_map | reflexivity].
Qed.

(** [run_pool] ends in the state the loop leaves over the results the
    iterator yields, with at most one more message on the queue. *)
Lemma run_pool_state (w : World) (o : Oracle) (model : string)
    (files : list string) (s : loop_state) :
  let x := run_pool w o model files s in
  let c := consume o (length files) 0
             (map (process_image w model) (consumed o files)) s in
  cn (pool_state x) = cn c /\ counts (pool_state x) = counts c /\
  exists tail,
    queue (pool_state x) = queue c ++ tail /\
    (tail = [] \/
     tail = [PLAIN "\nINFO: Processing complete." []] \/
     tail = [ERROR "during multiprocessing pool execution: {}" []]).
Proof.
  cbn zeta. rewrite map_consumed. unfold run_pool, consume.
  set (results := map (process_image w model) (completion_order o files)).
  assert (Hexhausted :
    forall l, l = results ->
      let x := match for_results o (length files) 0 results s with
               | (inr _, s') =>
                 inr (report_status
                        (PLAIN "\nINFO: Processing complete." []) s')
               | (inl _, s') =>
                 inr (report_status
                        (ERROR "during multiprocessing pool execution: {}" [])
                        s')
               end in
      cn (pool_state x) = cn (snd (for_results o (length files) 0 l s)) /\
      counts (pool_state x)
      = counts (snd (for_results o (length files) 0 l s)) /\
      exists tail,
        queue (pool_state x)
        = queue (snd (for_results o (length files) 0 l s)) ++ tail /\
        (tail = [] \/
         tail = [PLAIN "\nINFO: Processing complete." []] \/
         tail = [ERROR "during multiprocessing pool execution: {}" []])).
  { intros l ->. cbn zeta.
    destruct (for_results _ _ _ _ s) as [[e|[]] s'];
      cbn [pool_state snd cn counts queue report_status];
      (split; [reflexivity|]); (split; [reflexivity|]);
      (eexists; split; [reflexivity|]); auto. }
  destruct (pool_breaks_after o) as [[k []]|].
  - cbn [pool_state cn counts queue report_status].
    split; [reflexivity|]. split; [reflexivity|].
    eexists. split; [reflexivity|]. auto.
  - destruct (k <? length results)%nat eqn:Hk.
    + destruct (for_results _ _ _ (firstn k results) s) as [[e|[]] s'];
        cbn [pool_state snd cn counts queue report_status];
        (split; [reflexivity|]); (split; [reflexivity|]).
      * eexists. split; [reflexivity|]. auto.
      * exists []. rewrite app_nil_r. auto.
    + apply Hexhausted. apply firstn_all2. apply Nat.ltb_ge. exact Hk.
  - apply Hexhausted. reflexivity.
Qed.

Lemma run_pool_blocks (w : World) (o : Oracle) (model : string)
    (files : list string) (s : loop_state) :
  match run_pool w o model files s with
  | inl _ =>
    exists k, pool_breaks_after o = Some (k, blocks) /\
              (k < length (completion_order o files))%nat
  | inr _ =>
    forall k, pool_breaks_after o = Some (k, blocks) ->
              (length (completion_order o files) <= k)%nat
  end.
Proof.
  unfold run_pool. rewrite length_map.
  destruct (pool_breaks_after o) as [[k []]|].
  - intros k'. discriminate.
  - destruct (k <? length (completion_order o files))%nat eqn:Hk.
    + apply Nat.ltb_lt in Hk.
      destruct (for_results _ _ _ (firstn k _) s) as [[e|[]] s']; eauto.
    + apply Nat.ltb_ge in Hk.
      destruct (for_results _ _ _ _ s) as [[e|[]] s'];
        intros k' [= <-]; exact Hk.
  - destruct (for_results _ _ _ _ s) as [[e|[]] s']; intros k; discriminate.
Qed.

(** Without a fault of the pool or a foreign exception the loop runs to
    its end. *)
Lemma run_pool_to_the_end (w : World) (o : Oracle) (model : string)
    (files : list string) (s : loop_state) :
  pool_breaks_after o = None -> only_database_errors o ->
  run_pool w o model files s =
  inr (report_status (PLAIN "\nINFO: Processing complete." [])
         (consume o (length files) 0
            (map (process_image w model) (completion_order o files)) s)).
Proof.
  intros Hb Hdb. unfold run_pool, consume. rewrite Hb.
  pose proof (for_results_returns o (length files)
                (map (process_image w model) (completion_order o files))
                Hdb 0%nat s) as H.
  destruct (for_results _ _ _ _ s) as [[e|[]] s']; cbn [fst snd] in *;
    [discriminate | reflexivity].
Qed.

(** Unless [setup_database] exits, [run_indexing] puts exactly one
    terminal event on the queue, as its last message, when it returns; it
    does not return only when the iterator of the pool blocks, and then the
    queue holds no terminal event. *)
Lemma run_indexing_terminal (w : World) (o : Oracle) (dirs : list string)
    (db : option Table) (force : bool) (model : string) (workers : Z) :
  setup_fails o = false ->
  let r := run_indexing w o dirs db force model workers in
  escaped r = None /\
  (blocked r = false ->
   exists m, is_terminal m = true /\
             terminal_events (status_queue r) = [m] /\
             last (status_queue r) = Some m) /\
  (blocked r = true ->
   terminal_events (status_queue r) = [] /\
   exists k, pool_breaks_after o = Some (k, blocks)) /\
  ((forall k, pool_breaks_after o <> Some (k, blocks)) -> blocked r = false).
Proof.
  intros Hsetup. cbn zeta. unfold run_indexing, setup_database.
  rewrite Hsetup.
  set (q0 := _ ++ (if force then _ else _)).
  assert (Hq0 : terminal_events q0 = [])
    by (subst q0; destruct force; reflexivity).
  set (indexed := get_indexed_files o _).
  set (sel := select_files w indexed force _).
  destruct (plain_filters _ (select_files_plain w indexed force
                               (find_image_files w dirs))) as [Hsel _].
  fold sel in Hsel.
  destruct (files_to_process sel) as [|p ps] eqn:Hfiles.
  { cbn [escaped blocked status_queue]. split; [reflexivity|].
    split; [|split; [discriminate | reflexivity]]. intros _. exists DONE.
    split; [reflexivity|]. split.
    - rewrite !terminal_events_app, Hq0, Hsel. reflexivity.
    - repeat rewrite last_app. reflexivity. }
  destruct (connect_fails o).
  { cbn [escaped blocked status_queue]. split; [reflexivity|].
    split; [|split; [discriminate | reflexivity]]. intros _. exists ABORTED.
    split; [reflexivity|]. split.
    - rewrite !terminal_events_app, Hq0, Hsel. reflexivity.
    - repeat rewrite last_app. reflexivity. }
  destruct ((workers <? 1) || pool_start_fails o).
  { cbn [escaped blocked status_queue]. split; [reflexivity|].
    split; [|split; [discriminate | reflexivity]]. intros _. exists ABORTED.
    split; [reflexivity|]. split.
    - rewrite !terminal_events_app, Hq0, Hsel. reflexivity.
    - repeat rewrite last_app. reflexivity. }
  match goal with
  | |- context [run_pool w o model ?files ?s] =>
    pose proof (run_pool_state w o model files s) as (_ & _ & tail & Hq & Ht);
    pose proof (run_pool_blocks w o model files s) as Hb;
    destruct (consume_queue o (length files)
                (map (process_image w model) (consumed o files)) 0%nat s)
      as (extra & Hex & Hte & _);
    destruct (run_pool w o model files s) as [sb|sr]
  end; cbn [pool_state escaped blocked status_queue queue] in *;
    rewrite Hex in Hq; (split; [reflexivity|]).
  - destruct Hb as (k & Hb & Hlt).
    split; [discriminate|]. split; [|intros H; destruct (H k Hb)].
    intros _. split; [|exists k; exact Hb].
    rewrite Hq, !terminal_events_app, Hq0, Hsel, Hte.
    destruct Ht as [-> | [-> | ->]]; reflexivity.
  - split; [|split; [discriminate | reflexivity]]. intros _. exists DONE.
    split; [reflexivity|]. split; [|repeat rewrite last_app; reflexivity].
    rewrite Hq, !terminal_events_app, Hq0, Hsel, Hte.
    destruct Ht as [-> | [-> | ->]]; reflexivity.
Qed.

(** C8 at the failing input.  When [setup_database] hits a database error
    it calls [sys.exit(1)]; the [SystemExit] is not an [Exception], so it
    leaves [run_indexing] through the outer handler, and the queue holds
    neither DONE nor ABORTED. *)
Theorem setup_failure_no_terminal_event (w : World) (o : Oracle)
    (dirs : list string) (db : option Table) (force : bool) (model : string)
    (workers : Z) :
  setup_fails o = true ->
  let r := run_indexing w o dirs db force model workers in
  escaped r = Some (SystemExit 1) /\
  terminal_events (status_queue r) = [] /\
  db_after r = db.
Proof.
  intros Hsetup. cbn zeta. unfold run_indexing, setup_database.
  rewrite Hsetup. cbn [escaped status_queue db_after].
  destruct force; repeat split; reflexivity.
Qed.

(** ** Running the indexer twice *)

Lemma group_max_lookup (rs : list Row) :
  forall (acc : gmap string float64) (p : string),
    foldl group_max acc rs !! p =
    fold_max (acc !! p)
      (map last_modified (filter (fun r => file_path r = p) rs)).
Proof.
  induction rs as [|r rs IH]; intros acc p; [reflexivity|].
  cbn [foldl]. rewrite IH. unfold group_max.
  destruct (decide (file_path r = p)) as [Heq|Hne].
  - rewrite filter_cons_True by exact Heq. cbn [map fold_max foldl].
    rewrite Heq. destruct (acc !! p); rewrite lookup_insert_eq; reflexivity.
  - rewrite filter_cons_False by exact Hne.
    destruct (acc !! file_path r); rewrite lookup_insert_ne by exact Hne;
      reflexivity.
Qed.

Lemma fold_max_Some (ms : list float64) :
  forall x, exists y, fold_max (Some x) ms = Some y.
Proof.
  induction ms as [|m ms IH]; intros x; cbn; eauto.
Qed.

Lemma fold_max_constant (m : float64) (ms : list float64) :
  Forall (fun x => x = m) ms -> fold_max (Some m) ms = Some m.
Proof.
  induction 1 as [|x ms -> _ IH]; [reflexivity|].
  cbn [fold_max foldl]. unfold max_last_modified, Float64.lt.
  rewrite Z.ltb_irrefl, andb_false_r. exact IH.
Qed.

(** The snapshot entry of a path is decided by the rows stored for it. *)
Lemma snapshot_lookup (o : Oracle) (t : Table) (p : string) :
  snapshot_fails o = false ->
  get_indexed_files o (Some t) !! p =
  fold_max None (map last_modified (rows_for p t)).
Proof.
  intros Hs. unfold get_indexed_files. rewrite Hs, group_max_lookup.
  rewrite lookup_empty. reflexivity.
Qed.

Lemma snapshot_None (o : Oracle) (t : Table) (p : string) :
  snapshot_fails o = false ->
  get_indexed_files o (Some t) !! p = None <-> rows_for p t = [].
Proof.
  intros Hs. rewrite snapshot_lookup by exact Hs.
  destruct (rows_for p t) as [|r rs]; [split; reflexivity|].
  cbn [map fold_max foldl].
  destruct (fold_max_Some (map last_modified rs) (last_modified r)) as [y Hy].
  unfold fold_max in Hy. rewrite Hy. split; discriminate.
Qed.

Lemma worker_paths (w : World) (model : string) (paths : list string) :
  map fst (map (process_image w model) paths) = paths.
Proof.
  induction paths as [|p paths IH]; [reflexivity|]. cbn [map].
  rewrite IH, (proj1 (process_image_outcome w model p)). reflexivity.
Qed.

Lemma latest_worker (w : World) (model : string) (x : string)
    (paths : list string) :
  latest x (map (process_image w model) paths) =
  if decide (x ∈ paths) then Some (snd (process_image w model x)) else None.
Proof.
  induction paths as [|p paths IH]; [reflexivity|].
  cbn [map latest].
  destruct (process_image w model p) as [p' r] eqn:Hp.
  assert (p' = p) as ->
    by (rewrite <- (proj1 (process_image_outcome w model p)), Hp; reflexivity).
  rewrite IH. destruct (decide (x ∈ paths)) as [Hin|Hnin].
  - rewrite decide_True by (right; exact Hin). reflexivity.
  - destruct (decide (p = x)) as [->|Hne].
    + rewrite decide_True by left. rewrite Hp. reflexivity.
    + rewrite decide_False; [reflexivity|].
      intros H. apply elem_of_cons in H as [H|H]; [congruence | contradiction].
Qed.

(** A result loop that only meets failed or faceless files without stored
    rows leaves the connection as it is. *)
Lemma consume_noop (o : Oracle) (total : nat)
    (items : list (string * option (list face_data))) :
  forall (i : nat) (s : loop_state),
    (forall j, statement_fails o j = None) ->
    pending (cn s) = None ->
    Forall (fun it => it.2 = None /\ rows_for (it.1) (committed (cn s)) = [])
      items ->
    cn (consume o total i items s) = cn s.
Proof.
  induction items as [|[p r] items IH]; intros i s Hok Hclean Hitems;
    [reflexivity|].
  rewrite consume_step_no_fault by apply Hok.
  apply Forall_cons in Hitems as [[Hr Hrows] Hitems].
  cbn [fst snd] in Hr, Hrows. subst r.
  assert (Hcn : cn (apply_result o total i (p, None) s) = cn s).
  { rewrite apply_result_no_fault by (auto; discriminate).
    unfold replaced. cbn [default foldl]. rewrite delete_absent by exact Hrows.
    destruct (cn s) as [c pd]. cbn in Hclean |- *. subst pd. reflexivity. }
  rewrite IH; [exact Hcn | exact Hok | rewrite Hcn; exact Hclean |].
  rewrite Hcn. exact Hitems.
Qed.

(** The store and the progress reports a fault-free run leaves behind. *)
Lemma run_indexing_fault_free (w : World) (o : Oracle) (dirs : list string)
    (db : option Table) (force : bool) (model : string) (workers : Z) :
  fault_free o -> 1 <= workers ->
  let T0 := default empty_table db in
  let P := files_to_process
             (select_files w (get_indexed_files o (Some T0)) force
                (find_image_files w dirs)) in
  let r := run_indexing w o dirs db force model workers in
  exists s0,
    cn s0 = connect T0 /\
    db_after r =
      Some (committed
              (cn (consume o (length P) 0
                     (map (process_image w model) (completion_order o P)) s0))) /\
    List.filter is_PROGRESS (status_queue r) =
      progress_events (length P) 0 (completion_order o P).
Proof.
  intros (Hsetup & Hsnap & Hconn & Hpool & Hbreak & Hok & Hperm) Hworkers.
  cbn zeta. unfold run_indexing, setup_database. rewrite Hsetup.
  set (T0 := default empty_table db).
  set (q0 := _ ++ (if force then _ else _)).
  assert (Hq0 : List.filter is_PROGRESS q0 = [])
    by (subst q0; destruct force; reflexivity).
  set (sel := select_files w _ force _).
  destruct (plain_filters _ (select_files_plain w
                               (get_indexed_files o (Some T0)) force
                               (find_image_files w dirs))) as [_ Hsel].
  fold sel in Hsel.
  destruct (files_to_process sel) as [|p ps] eqn:Hfiles.
  { exists {| cn := connect T0;
              counts := {| processed_files_count := 0; faces_stored_count := 0;
                           file_process_errors := 0; db_errors := 0 |};
              queue := []; calls_left := None |}.
    assert (Hnil : completion_order o [] = [])
      by (apply Permutation_nil_r, Hperm).
    rewrite Hnil. cbn [map consume cn committed connect db_after status_queue
                       progress_events].
    split; [reflexivity|]. split; [reflexivity|].
    rewrite !List.filter_app, Hq0, Hsel. reflexivity. }
  rewrite Hconn, Hpool. replace (workers <? 1) with false by lia.
  cbn [orb].
  rewrite run_pool_to_the_end
    by (try apply no_statement_fails_only_database_errors; assumption).
  cbn [db_after status_queue close cn queue report_status].
  eexists. split; [|split; [reflexivity|]]; [reflexivity|].
  match goal with
  | |- context [consume o ?t ?i ?items ?s] =>
    destruct (consume_queue_returned o t items i s
                (for_results_returns o t items
                   (no_statement_fails_only_database_errors o Hok) i s))
      as (extra & -> & _ & Hex)
  end.
  cbn [queue]. rewrite !List.filter_app, Hq0, Hsel, Hex, worker_paths.
  unfold summary. cbn [List.filter is_PROGRESS app]. rewrite ?app_nil_r.
  reflexivity.
Qed.

Lemma progress_events_length (total : nat) (paths : list string) :
  forall i, length (progress_events total i paths) = length paths.
Proof.
  induction paths as [|p ps IH]; intros i; [reflexivity|].
  cbn [progress_events length]. rewrite IH. reflexivity.
Qed.

Lemma select_files_filter (w : World) (indexed : gmap string float64)
    (all : list string) :
  files_to_process (select_files w indexed false all) =
  List.filter (selected w indexed) all.
Proof.
  unfold select_files. cbn [files_to_process].
  match goal with
  | |- context [foldl _ ?s0 all] =>
    destruct (check_files_spec w indexed all s0) as [Hf _]
  end.
  exact Hf.
Qed.

(** After a fault-free run, a discovered file whose stat succeeds is new or
    modified for the next run exactly when the store holds no row for it,
    and then the worker has nothing to store for it. *)
Lemma after_run_selection (w : World) (o1 o2 : Oracle) (dirs : list string)
    (db : option Table) (force1 : bool) (model : string) (n1 : Z) (T1 : Table)
    (p : string) (m : float64) :
  fault_free o1 -> snapshot_fails o2 = false -> 1 <= n1 ->
  db_after (run_indexing w o1 dirs db force1 model n1) = Some T1 ->
  In p (find_image_files w dirs) ->
  stat_mtime w p = inr m ->
  (new_or_modified (get_indexed_files o2 (Some T1)) p m = true <->
   rows_for p T1 = []) /\
  (rows_for p T1 = [] -> snd (process_image w model p) = None).
Proof.
  intros Hff Hsnap2 Hn1 Hdb Hin Hstat.
  destruct (run_indexing_fault_free w o1 dirs db force1 model n1 Hff Hn1)
    as (s0 & Hcn0 & Hdb1 & _).
  cbn zeta in Hdb1. rewrite Hdb in Hdb1. injection Hdb1 as ->.
  destruct Hff as (_ & Hsnap1 & _ & _ & _ & Hok & Hperm).
  set (T0 := default empty_table db) in *.
  set (P1 := files_to_process _) in *.
  set (items := map (process_image w model) (completion_order o1 P1)).
  assert (Hclean : pending (cn s0) = None) by (rewrite Hcn0; reflexivity).
  destruct (consume_records o1 (length P1) items 0 s0 Hok Hclean
              (worker_results_nonempty w model _)) as [_ Hrec].
  cbn zeta in Hrec. fold items.
  set (T1 := committed (cn (consume o1 (length P1) 0 items s0))) in *.
  destruct (Hrec p) as [Hnone Hsome]. clear Hrec. subst items.
  rewrite latest_worker in Hnone, Hsome.
  assert (Hnom : forall t,
            new_or_modified (get_indexed_files o2 (Some t)) p m =
            match fold_max None (map last_modified (rows_for p t)) with
            | None => true
            | Some x => Float64.gt m x
            end).
  { intros t. unfold new_or_modified.
    rewrite snapshot_lookup by exact Hsnap2. reflexivity. }
  destruct (decide (p ∈ completion_order o1 P1)) as [HinP|HninP].
  - specialize (Hsome _ eq_refl). clear Hnone.
    destruct (snd (process_image w model p)) as [l|] eqn:Hres.
    + apply (proj1 (proj2 (proj2 (process_image_outcome w model p)))) in Hres
        as (lm & img & locs & encs & Hs & _ & _ & Hlocs & _ & Hencs & ->).
      rewrite Hstat in Hs. injection Hs as <-.
      cbn [default from_option id] in Hsome. unfold records_for in Hsome.
      assert (Hms : Forall (fun x => x = m)
                      (map last_modified (rows_for p T1)) /\
                    rows_for p T1 <> []).
      { split.
        - replace (map last_modified (rows_for p T1))
            with (map (fun fd : face_data => fd.1.1)
                    (map record_of (rows_for p T1)))
            by (rewrite map_map; reflexivity).
          rewrite Hsome, map_map. apply List.Forall_forall. intros x Hx.
          apply in_map_iff in Hx as (y & <- & _). reflexivity.
        - intros Hnil. rewrite Hnil in Hsome.
          destruct encs, locs; try done. }
      destruct Hms as [Hms Hne]. rewrite Hnom.
      destruct (rows_for p T1) as [|r rs]; [done|].
      cbn [map] in Hms |- *. apply Forall_cons in Hms as [-> Hms].
      change (fold_max None (m :: ?ms)) with (fold_max (Some m) ms).
      rewrite (fold_max_constant m _ Hms), float64_gt_irrefl.
      split; [split; discriminate | discriminate].
    + cbn [default from_option id] in Hsome. unfold records_for in Hsome.
      apply map_eq_nil in Hsome. rewrite Hnom, Hsome. cbn. tauto.
  - specialize (Hnone eq_refl). clear Hsome.
    rewrite Hcn0 in Hnone. cbn [committed connect] in Hnone.
    assert (HnP : ~ In p P1).
    { intros H. apply HninP. rewrite Hperm. apply list_elem_of_In. exact H. }
    assert (Hold : new_or_modified (get_indexed_files o1 (Some T0)) p m
                   = false).
    { subst P1. destruct force1.
      - contradiction.
      - rewrite select_files_filter in HnP.
        destruct (new_or_modified _ p m) eqn:E; [|reflexivity].
        exfalso. apply HnP. apply filter_In. split; [exact Hin|].
        unfold selected. rewrite Hstat. exact E. }
    unfold new_or_modified in Hold.
    rewrite snapshot_lookup in Hold by exact Hsnap1.
    rewrite Hnom, Hnone.
    destruct (rows_for p T0) as [|r rs]; [discriminate Hold|].
    destruct (fold_max None (map last_modified (r :: rs))); [|discriminate].
    rewrite Hold. split; [split; discriminate | discriminate].
Qed.

(** C5, as the code has it.  Two fault-free runs over the same directories
    with the same detection model and an unchanged file system, the second
    one not forced: the second run selects exactly the discovered files
    whose stat succeeds and for which the store holds no row after the first
    run; for each of them the worker again has nothing to store (no face, or
    a processing failure); the run reports progress once per such file and
    leaves the store exactly as the first run left it. *)
Theorem second_run (w : World) (o1 o2 : Oracle) (dirs : list string)
    (db : option Table) (force1 : bool) (model : string) (n1 n2 : Z) :
  fault_free o1 -> fault_free o2 -> 1 <= n1 -> 1 <= n2 ->
  let all := find_image_files w dirs in
  let r1 := run_indexing w o1 dirs db force1 model n1 in
  let r2 := run_indexing w o2 dirs (db_after r1) false model n2 in
  exists T1 : Table,
    db_after r1 = Some T1 /\
    db_after r2 = Some T1 /\
    let again :=
      List.filter (fun p => negb (stat_raises w p) &&
                            bool_decide (rows_for p T1 = [])) all in
    files_to_process
      (select_files w (get_indexed_files o2 (Some T1)) false all) = again /\
    Forall (fun p => snd (process_image w model p) = None) again /\
    length (List.filter is_PROGRESS (status_queue r2)) = length again.
Proof.
  intros Hff1 Hff2 Hn1 Hn2. cbn zeta.
  destruct (run_indexing_fault_free w o1 dirs db force1 model n1 Hff1 Hn1)
    as (s1 & _ & Hdb1 & _).
  cbn zeta in Hdb1.
  match type of Hdb1 with _ = Some ?t => set (T1 := t) in * end.
  exists T1. split; [exact Hdb1|]. rewrite Hdb1.
  pose proof (fun p m => after_run_selection w o1 o2 dirs db force1 model n1
                           T1 p m Hff1 (proj1 (proj2 Hff2)) Hn1 Hdb1) as Hsel.
  assert (Hagain :
    files_to_process
      (select_files w (get_indexed_files o2 (Some T1)) false
         (find_image_files w dirs)) =
    List.filter (fun p => negb (stat_raises w p) &&
                          bool_decide (rows_for p T1 = []))
      (find_image_files w dirs)).
  { rewrite select_files_filter. apply List.filter_ext_in. intros p Hin.
    unfold selected, stat_raises.
    destruct (stat_mtime w p) as [e|m] eqn:Hstat; [reflexivity|].
    destruct (Hsel p m Hin Hstat) as [Hiff _]. cbn [negb andb].
    destruct (new_or_modified _ p m).
    - symmetry. apply bool_decide_eq_true. apply Hiff. reflexivity.
    - symmetry. apply bool_decide_eq_false. intros H. apply Hiff in H.
      discriminate. }
  assert (Hnone : Forall (fun p => snd (process_image w model p) = None /\
                                   rows_for p T1 = [])
                    (List.filter (fun p => negb (stat_raises w p) &&
                                           bool_decide (rows_for p T1 = []))
                       (find_image_files w dirs))).
  { apply List.Forall_forall. intros p Hp.
    apply filter_In in Hp as [Hin Hb]. apply andb_true_iff in Hb as [Hst Hb].
    apply bool_decide_eq_true in Hb. unfold stat_raises in Hst.
    destruct (stat_mtime w p) as [e|m] eqn:Hstat; [discriminate|].
    destruct (Hsel p m Hin Hstat) as [_ Hres]. auto. }
  destruct (run_indexing_fault_free w o2 dirs (Some T1) false model n2 Hff2 Hn2)
    as (s2 & Hcn2 & Hdb2 & Hprog).
  cbn zeta in Hdb2, Hprog.
  change (default empty_table (Some T1)) with T1 in Hcn2, Hdb2, Hprog.
  rewrite Hagain in Hdb2, Hprog.
  destruct Hff2 as (_ & _ & _ & _ & _ & Hok2 & Hperm2).
  split; [|split; [exact Hagain|split]].
  - rewrite Hdb2. f_equal. rewrite consume_noop; [rewrite Hcn2; reflexivity
      | exact Hok2 | rewrite Hcn2; reflexivity |].
    rewrite Hcn2. cbn [committed connect].
    apply List.Forall_forall. intros it Hit.
    apply in_map_iff in Hit as (p & <- & Hp).
    apply list_elem_of_In in Hp. rewrite Hperm2 in Hp.
    apply list_elem_of_In in Hp.
    rewrite List.Forall_forall in Hnone. destruct (Hnone p Hp) as [Hr Hrows].
    rewrite (proj1 (process_image_outcome w model p)). auto.
  - eapply Forall_impl; [exact Hnone|]. intros p [H _]. exact H.
  - rewrite Hprog, progress_events_length. apply Permutation_length, Hperm2.
Qed.

(** * Further properties *)

(** ** What a whole run does to the store *)

Lemma consume_frame (o : Oracle) (total : nat)
    (items : list (string * option (list face_data))) :
  forall (i : nat) (s : loop_state) (x : string),
    pending (cn s) = None ->
    Forall (fun it => it.2 <> Some []) items ->
    ~ In x (map fst items) ->
    rows_for x (committed (cn (consume o total i items s))) =
    rows_for x (committed (cn s)).
Proof.
  induction items as [|[p r] items IH]; intros i s x Hclean Hitems Hx;
    [reflexivity|].
  apply Forall_cons in Hitems as [Hr Hitems]. rewrite consume_cons.
  assert (Hstep : rows_for x (committed (cn (apply_result o total i (p, r) s)))
                  = rows_for x (committed (cn s))).
  { apply apply_result_frame; [exact Hclean|]. intros ->. apply Hx. left.
    reflexivity. }
  destruct (fst (loop_body o total i (p, r) s)) as [e|[]] eqn:Hb;
    [exact Hstep|].
  rewrite IH; [exact Hstep | apply apply_result_clean; assumption
               | exact Hitems | intros H; apply Hx; right; exact H].
Qed.

Lemma consume_old_or_new (w : World) (o : Oracle) (model : string)
    (total : nat) (paths : list string) :
  forall (i : nat) (s : loop_state) (x : string),
    pending (cn s) = None ->
    let s' := consume o total i (map (process_image w model) paths) s in
    records_for x (committed (cn s')) = records_for x (committed (cn s)) \/
    records_for x (committed (cn s')) = faces_of w model x.
Proof.
  induction paths as [|p paths IH]; intros i s x Hclean; cbn zeta;
    [left; reflexivity|].
  cbn [map]. rewrite consume_cons.
  destruct (apply_result_atomic w o model total i p s Hclean) as [Hstep _].
  cbn zeta in Hstep.
  assert (Hone :
    records_for x
      (committed (cn (apply_result o total i (process_image w model p) s)))
    = records_for x (committed (cn s)) \/
    records_for x
      (committed (cn (apply_result o total i (process_image w model p) s)))
    = faces_of w model x).
  { destruct Hstep as [(_ & _ & _ & Hp & Hframe)
                      |[(_ & _ & _ & Hcomm)|(e & _ & _ & _ & Hcomm)]].
    - destruct (decide (x = p)) as [->|Hne].
      + right. exact Hp.
      + left. unfold records_for. rewrite Hframe by exact Hne. reflexivity.
    - left. rewrite Hcomm. reflexivity.
    - left. rewrite Hcomm. reflexivity. }
  destruct (fst (loop_body o total i (process_image w model p) s))
    as [e|[]] eqn:Hb; [exact Hone|].
  assert (Hc : pending
                 (cn (apply_result o total i (process_image w model p) s))
               = None).
  { destruct Hstep as [(_ & H & _)|[(_ & H & _)|(e & He & _)]];
      [exact H | exact H | discriminate]. }
  destruct (IH (S i) _ x Hc) as [Hsame|Hnew]; [|right; exact Hnew].
  cbn zeta in Hsame. rewrite Hsame. exact Hone.
Qed.

(** The table a run leaves behind, for every oracle: the table it started
    from, or what the result loop committed on a connection to it. *)
Lemma run_indexing_table (w : World) (o : Oracle) (dirs : list string)
    (db : option Table) (force : bool) (model : string) (workers : Z) :
  let r := run_indexing w o dirs db force model workers in
  table_after r = table_before db \/
  exists s0,
    cn s0 = connect (table_before db) /\
    table_after r =
      committed
        (cn (consume o (length (selected_files w o dirs db force)) 0
               (map (process_image w model)
                  (consumed o (selected_files w o dirs db force))) s0)).
Proof.
  cbn zeta. unfold table_after, run_indexing, setup_database, selected_files.
  fold (table_before db).
  destruct (setup_fails o); [left; reflexivity|].
  destruct (files_to_process _) as [|p ps] eqn:Hfiles; [left; reflexivity|].
  destruct (connect_fails o); [left; reflexivity|].
  destruct ((workers <? 1) || pool_start_fails o); [left; reflexivity|].
  right.
  match goal with
  | |- context [run_pool w o model ?files ?s] =>
    pose proof (run_pool_state w o model files s) as (Hcn & _); exists s;
    destruct (run_pool w o model files s) as [sb|sr]
  end;
    cbn [db_after default from_option id close pool_state cn] in *;
    (split; [reflexivity|]); rewrite Hcn; reflexivity.
Qed.

(** The rows of a path that was not selected survive the run. *)
Lemma run_rows_unselected (w : World) (o : Oracle) (dirs : list string)
    (db : option Table) (force : bool) (model : string) (workers : Z)
    (x : string) :
  pool_sound o ->
  ~ In x (selected_files w o dirs db force) ->
  rows_for x (table_after (run_indexing w o dirs db force model workers))
  = rows_for x (table_before db).
Proof.
  intros Hpool Hx.
  destruct (run_indexing_table w o dirs db force model workers)
    as [->|(s0 & Hcn & ->)]; [reflexivity|].
  rewrite consume_frame.
  - rewrite Hcn. reflexivity.
  - rewrite Hcn. reflexivity.
  - apply worker_results_nonempty.
  - rewrite worker_paths. intros Hin. apply Hx. unfold consumed in Hin.
    destruct (pool_breaks_after o) as [[k how]|].
    + apply Hpool. apply list_elem_of_In.
      apply list_elem_of_In in Hin.
      apply (subseteq_take k (completion_order o _)). exact Hin.
    + apply Hpool. exact Hin.
Qed.

(** X1.  A run changes the stored rows of no path outside the set it
    selected for processing, whatever fails on the way, provided the pool
    yields only paths that were dispatched.  In particular the rows of a
    file that is no longer discovered on disk are kept: the index is never
    pruned. *)
Theorem run_keeps_unselected_rows (w : World) (o : Oracle)
    (dirs : list string) (db : option Table) (force : bool) (model : string)
    (workers : Z) (x : string) :
  pool_sound o ->
  let r := run_indexing w o dirs db force model workers in
  (~ In x (selected_files w o dirs db force) ->
   rows_for x (table_after r) = rows_for x (table_before db)) /\
  (~ In x (find_image_files w dirs) ->
   rows_for x (table_after r) = rows_for x (table_before db)).
Proof.
  intros Hpool. cbn zeta.
  pose proof (run_rows_unselected w o dirs db force model workers x Hpool)
    as Hsel.
  split; [exact Hsel|].
  intros Hx. apply Hsel. intros Hin. apply Hx.
  unfold selected_files, select_files in Hin. destruct force.
  - exact Hin.
  - fold (select_files w (get_indexed_files o (Some (table_before db))) false
            (find_image_files w dirs)) in Hin.
    rewrite select_files_filter in Hin. apply filter_In in Hin. tauto.
Qed.

(** X2.  After any run -- whatever database call failed, wherever the pool
    stopped -- the records stored for a path are either the ones stored
    before the run or exactly the ones the worker returns for it: never a
    part of either, never a mix. *)
Theorem run_never_mixes (w : World) (o : Oracle) (dirs : list string)
    (db : option Table) (force : bool) (model : string) (workers : Z)
    (x : string) :
  let r := run_indexing w o dirs db force model workers in
  records_for x (table_after r) = records_for x (table_before db) \/
  records_for x (table_after r) = faces_of w model x.
Proof.
  cbn zeta.
  destruct (run_indexing_table w o dirs db force model workers)
    as [->|(s0 & Hcn & ->)]; [left; reflexivity|].
  assert (Hclean : pending (cn s0) = None) by (rewrite Hcn; reflexivity).
  destruct (consume_old_or_new w o model
              (length (selected_files w o dirs db force))
              (consumed o (selected_files w o dirs db force)) 0 s0 x Hclean)
    as [H|H]; cbn zeta in H; rewrite H; [left|right; reflexivity].
  rewrite Hcn. reflexivity.
Qed.

(** The records of a selected path after a run in which nothing fails. *)
Lemma run_records_selected (w : World) (o : Oracle) (dirs : list string)
    (db : option Table) (force : bool) (model : string) (workers : Z)
    (x : string) :
  fault_free o -> 1 <= workers ->
  In x (selected_files w o dirs db force) ->
  records_for x (table_after (run_indexing w o dirs db force model workers))
  = faces_of w model x.
Proof.
  intros Hff Hworkers Hin. cbn zeta.
  destruct (run_indexing_fault_free w o dirs db force model workers Hff
              Hworkers) as (s0 & Hcn & Hdb & _).
  cbn zeta in Hdb. unfold table_after. rewrite Hdb.
  cbn [default from_option id].
  destruct Hff as (_ & _ & _ & _ & _ & Hok & Hperm).
  assert (Hclean : pending (cn s0) = None) by (rewrite Hcn; reflexivity).
  match goal with
  | |- context [consume o ?t 0 ?items s0] =>
    destruct (consume_records o t items 0 s0 Hok Hclean
                (worker_results_nonempty w model _)) as [_ Hrec]
  end.
  cbn zeta in Hrec. destruct (Hrec x) as [_ Hsome]. clear Hrec.
  rewrite latest_worker in Hsome.
  rewrite decide_True in Hsome
    by (rewrite Hperm; apply list_elem_of_In; exact Hin).
  specialize (Hsome _ eq_refl).
  assert (Hrecs : records_for x
                    (committed
                       (cn (consume o
                              (length (files_to_process
                                 (select_files w
                                    (get_indexed_files o
                                       (Some (default empty_table db)))
                                    force (find_image_files w dirs))))
                              0
                              (map (process_image w model)
                                 (completion_order o
                                    (files_to_process
                                       (select_files w
                                          (get_indexed_files o
                                             (Some (default empty_table db)))
                                          force (find_image_files w dirs)))))
                              s0)))
                  = faces_of w model x) by exact Hsome.
  exact Hrecs.
Qed.

(** X3.  After a run in which nothing fails, the records stored for every
    selected path are exactly the ones the worker returned for it.  So a
    selected file that shows no face any more, or cannot be processed, loses
    the rows it had. *)
Theorem run_replaces_selected (w : World) (o : Oracle) (dirs : list string)
    (db : option Table) (force : bool) (model : string) (workers : Z)
    (x : string) :
  fault_free o -> 1 <= workers ->
  In x (selected_files w o dirs db force) ->
  let r := run_indexing w o dirs db force model workers in
  records_for x (table_after r) = faces_of w model x /\
  (has_faces w model x = false -> rows_for x (table_after r) = []).
Proof.
  intros Hff Hworkers Hin. cbn zeta.
  pose proof (run_records_selected w o dirs db force model workers x Hff
                Hworkers Hin) as Hrecs.
  split; [exact Hrecs|].
  intros Hno. unfold faces_of, has_faces in *.
  destruct (snd (process_image w model x)); [discriminate|].
  cbn [default from_option] in Hrecs. unfold records_for in Hrecs.
  apply map_eq_nil in Hrecs. exact Hrecs.
Qed.

(** ** The tallies of a run *)

(** The queue of a run that reaches the result loop and does not block in
    it ends with the summary of the loop's counters and DONE; before it
    come the progress reports of the results whose body was entered. *)
Lemma run_indexing_summary (w : World) (o : Oracle) (dirs : list string)
    (db : option Table) (force : bool) (model : string) (workers : Z) :
  setup_fails o = false -> connect_fails o = false ->
  pool_start_fails o = false -> 1 <= workers ->
  selected_files w o dirs db force <> [] ->
  (forall k, pool_breaks_after o <> Some (k, blocks)) ->
  let P := selected_files w o dirs db force in
  let sel := select_files w (get_indexed_files o (Some (table_before db)))
               force (find_image_files w dirs) in
  let items := map (process_image w model) (consumed o P) in
  exists s0 q,
    cn s0 = connect (table_before db) /\ counts s0 = no_tally /\
    status_queue (run_indexing w o dirs db force model workers) =
      q ++ summary (length (find_image_files w dirs)) sel
             (counts (consume o (length P) 0 items s0))
        ++ [DONE] /\
    List.filter is_PROGRESS q =
      progress_events (length P) 0
        (firstn (entered o (length P) 0 items s0) (consumed o P)).
Proof.
  intros Hsetup Hconn Hpool Hworkers Hne Hblocks. cbn zeta.
  unfold run_indexing, setup_database, selected_files in *.
  fold (table_before db) in *. rewrite Hsetup.
  set (q0 := _ ++ (if force then _ else _)).
  assert (Hq0 : List.filter is_PROGRESS q0 = [])
    by (subst q0; destruct force; reflexivity).
  set (sel := select_files w _ force _) in *.
  destruct (plain_filters _ (select_files_plain w
                               (get_indexed_files o (Some (table_before db)))
                               force (find_image_files w dirs))) as [_ Hsel].
  fold sel in Hsel.
  destruct (files_to_process sel) as [|p ps] eqn:Hfiles; [done|].
  rewrite Hconn, Hpool. replace (workers <? 1) with false by lia.
  cbn [orb].
  match goal with
  | |- context [run_pool w o model ?files ?s] =>
    pose proof (run_pool_state w o model files s)
      as (_ & Hco & tail & Hq & Ht);
    pose proof (run_pool_blocks w o model files s) as Hb;
    destruct (consume_queue o (length files)
                (map (process_image w model) (consumed o files)) 0%nat s)
      as (extra & Hex & _ & Hpr);
    exists s;
    destruct (run_pool w o model files s) as [sb|sr]
  end.
  { destruct Hb as (k & Hb & _). destruct (Hblocks k Hb). }
  cbn [pool_state status_queue cn counts queue] in *.
  rewrite Hex in Hq. rewrite Hq, Hco. eexists.
  split; [reflexivity|]. split; [reflexivity|]. split; [reflexivity|].
  rewrite !List.filter_app, Hq0, Hsel, Hpr, <- firstn_map, worker_paths.
  destruct Ht as [-> | [-> | ->]]; cbn [List.filter is_PROGRESS app];
    rewrite ?app_nil_r; reflexivity.
Qed.

Lemma consume_tally (o : Oracle) (total : nat)
    (items : list (string * option (list face_data))) :
  forall (i : nat) (s : loop_state),
    (forall j, statement_fails o j = None) ->
    counts (consume o total i items s) = tally_of items (counts s).
Proof.
  induction items as [|[p r] items IH]; intros i s Hok; [reflexivity|].
  rewrite consume_step_no_fault by apply Hok.
  change (tally_of (?it :: ?its) ?c) with (tally_of its (counted it.2 c)).
  rewrite IH by exact Hok. cbn [snd].
  destruct (apply_result_cases o total i p r s)
    as [(_ & _ & -> & _)|[(_ & _ & _ & _ & Hf)|(e & n & _ & _ & Hf & _)]];
    [reflexivity | |]; specialize (Hok i); congruence.
Qed.

Lemma tally_of_worker (w : World) (model : string) (paths : list string) :
  forall c,
    tally_of (map (process_image w model) paths) c =
    {| processed_files_count :=
         (processed_files_count c
          + length (List.filter (has_faces w model) paths))%nat;
       faces_stored_count :=
         (faces_stored_count c + faces_found w model paths)%nat;
       file_process_errors :=
         (file_process_errors c
          + length (List.filter (fun p => negb (has_faces w model p)) paths))%nat;
       db_errors := db_errors c |}.
Proof.
  induction paths as [|p paths IH]; intros c.
  - destruct c. cbn. f_equal; lia.
  - cbn [map].
    change (tally_of (?it :: ?items) c) with (tally_of items (counted it.2 c)).
    rewrite IH. cbn [List.filter faces_found foldr].
    fold (faces_found w model paths).
    assert (Hhf : has_faces w model p =
                  match snd (process_image w model p) with
                  | Some _ => true
                  | None => false
                  end) by reflexivity.
    assert (Hfo : faces_of w model p = default [] (snd (process_image w model p)))
      by reflexivity.
    pose proof (proj1 (proj2 (process_image_outcome w model p))) as Hne.
    destruct (snd (process_image w model p)) as [[|fd l]|]; [done| |];
      rewrite Hhf, Hfo;
      cbn [counted stored file_error processed_files_count faces_stored_count
           file_process_errors db_errors negb length default from_option id];
      f_equal; lia.
Qed.

Lemma filter_length_Permutation {A} (f : A -> bool) (l1 l2 : list A) :
  Permutation l1 l2 ->
  length (List.filter f l1) = length (List.filter f l2).
Proof.
  induction 1 as [|x l1 l2 _ IH|x y l|l1 l2 l3 _ IH1 _ IH2];
    cbn [List.filter].
  - reflexivity.
  - destruct (f x); cbn [length]; rewrite IH; reflexivity.
  - destruct (f x), (f y); reflexivity.
  - rewrite IH1. exact IH2.
Qed.

Lemma faces_found_Permutation (w : World) (model : string)
    (l1 l2 : list string) :
  Permutation l1 l2 -> faces_found w model l1 = faces_found w model l2.
Proof.
  induction 1 as [|x l1 l2 _ IH|x y l|l1 l2 l3 _ IH1 _ IH2];
    cbn [faces_found foldr].
  - reflexivity.
  - fold (faces_found w model l1) (faces_found w model l2). rewrite IH.
    reflexivity.
  - lia.
  - rewrite IH1. exact IH2.
Qed.

(** X4.  The summary of a run in which nothing fails is exact: the files
    reported as processed are the selected files for which the worker
    returned faces, the embeddings reported as stored are all the faces the
    worker returned, every other selected file is reported under
    "processing errors or no faces", and no database error is reported. *)
Theorem fault_free_summary (w : World) (o : Oracle) (dirs : list string)
    (db : option Table) (force : bool) (model : string) (workers : Z) :
  fault_free o -> 1 <= workers ->
  selected_files w o dirs db force <> [] ->
  let P := selected_files w o dirs db force in
  let q := status_queue (run_indexing w o dirs db force model workers) in
  In (PLAIN "Files successfully processed (faces stored): {}"
        [num (length (List.filter (has_faces w model) P))]) q /\
  In (PLAIN "Total face embeddings stored in this run: {}"
        [num (faces_found w model P)]) q /\
  In (PLAIN "Files with processing errors or no faces: {}"
        [num (length (List.filter (fun p => negb (has_faces w model p)) P))]) q /\
  In (PLAIN "Database update errors: {}" [num 0]) q /\
  (length (List.filter (has_faces w model) P)
   + length (List.filter (fun p => negb (has_faces w model p)) P)
   = length P)%nat.
Proof.
  intros (Hsetup & _ & Hconn & Hpool & Hbreak & Hok & Hperm) Hworkers Hne.
  cbn zeta.
  assert (Hblocks : forall k, pool_breaks_after o <> Some (k, blocks))
    by (intros k; rewrite Hbreak; discriminate).
  destruct (run_indexing_summary w o dirs db force model workers Hsetup Hconn
              Hpool Hworkers Hne Hblocks) as (s0 & q & _ & Hc0 & -> & _).
  cbn zeta. rewrite consume_tally by exact Hok. unfold consumed.
  rewrite Hbreak, tally_of_worker, Hc0.
  set (P := selected_files w o dirs db force).
  rewrite (filter_length_Permutation _ _ _ (Hperm P)),
    (filter_length_Permutation (fun p => negb (has_faces w model p)) _ _
       (Hperm P)),
    (faces_found_Permutation w model _ _ (Hperm P)).
  unfold summary, no_tally.
  cbn [processed_files_count faces_stored_count file_process_errors db_errors
       Nat.add].
  repeat split; try (apply in_or_app; right; apply in_or_app; left; cbn; tauto).
  clear. induction P as [|p P IH]; [reflexivity|].
  cbn [List.filter]. destruct (has_faces w model p); cbn [negb length]; lia.
Qed.

(** The counters after the [try] block, also when it raises: the only
    counter touched before a failing call is [file_process_errors], bumped
    before the commit of a result without faces. *)
Lemma update_try_counts (p : string) (r : option (list face_data))
    (s : loop_state) :
  match update_try p r s with
  | (inr _, s') => counts s' = counted r (counts s)
  | (inl _, s') =>
    counts s' = counts s \/ (r = None /\ counts s' = file_error (counts s))
  end.
Proof.
  unfold update_try.
  set (del := db_call (execute (DELETE_FROM_faces p))).
  pose proof (db_call_cases (execute (DELETE_FROM_faces p)) s) as H1.
  fold del in H1.
  destruct r as [[|fd l]|].
  - unfold bindS. destruct (del s) as [[e|[]] s1].
    + destruct H1 as [-> _]. auto.
    + destruct H1 as (_ & -> & _). reflexivity.
  - set (ins := insert_faces p (fd :: l) 0). set (cm := db_call commit).
    unfold bindS. destruct (del s) as [[e|[]] s1].
    { destruct H1 as [-> _]. auto. }
    destruct H1 as (_ & Hco1 & _).
    pose proof (insert_faces_cases p (fd :: l) 0 s1) as H2. fold ins in H2.
    destruct (ins s1) as [[e|m] s2].
    { destruct H2 as (_ & -> & _). auto. }
    destruct H2 as (-> & _ & Hco2 & _).
    pose proof (db_call_cases commit s2) as H3. fold cm in H3.
    destruct (cm s2) as [[e|[]] s3].
    { destruct H3 as [-> _]. rewrite Hco2. auto. }
    destruct H3 as (_ & Hco3 & _).
    cbn [counts with_counts counted]. rewrite Hco3, Hco2, Hco1. reflexivity.
  - set (cm := db_call commit). unfold bindS.
    destruct (del s) as [[e|[]] s1].
    { destruct H1 as [-> _]. auto. }
    destruct H1 as (_ & Hco1 & _).
    pose proof (db_call_cases commit (with_counts file_error s1)) as H3.
    fold cm in H3.
    destruct (cm (with_counts file_error s1)) as [[e|[]] s3].
    { destruct H3 as [-> _]. cbn [counts with_counts]. rewrite Hco1. auto. }
    destruct H3 as (_ & Hco3 & _). cbn [counts with_counts counted] in *.
    rewrite Hco3, Hco1. reflexivity.
Qed.

Lemma apply_result_counts (o : Oracle) (total i : nat) (p : string)
    (r : option (list face_data)) (s : loop_state) :
  let c := counts s in
  let c' := counts (apply_result o total i (p, r) s) in
  match fst (loop_body o total i (p, r) s) with
  | inr _ =>
    c' = counted r c \/ c' = db_error c \/
    (r = None /\ c' = db_error (file_error c))
  | inl _ => c' = c \/ (r = None /\ c' = file_error c)
  end.
Proof.
  cbn zeta. unfold apply_result, loop_body.
  pose proof (update_try_counts p r
                (with_calls_left (statement_fails o i)
                   (report_status (PROGRESS (S i) total (path_name p)) s)))
    as H.
  destruct (update_try p r _) as [[e|[]] s1];
    cbn [counts with_calls_left report_status] in H.
  - destruct e;
      cbn [fst snd counts with_counts with_conn report_status];
      first [ destruct H as [-> | [Hr ->]];
              [left; reflexivity | right; split; [exact Hr | reflexivity]]
            | right; destruct H as [-> | [Hr ->]];
              [left; reflexivity | right; split; [exact Hr | reflexivity]] ].
  - left. cbn [fst snd]. exact H.
Qed.

(** The three tallies against the number of results whose body was
    entered. *)
Lemma consume_bounds (o : Oracle) (total : nat)
    (items : list (string * option (list face_data))) :
  forall (i : nat) (s : loop_state),
    Forall (fun it => it.2 <> Some []) items ->
    let c := counts s in
    let c' := counts (consume o total i items s) in
    let n := entered o total i items s in
    (processed_files_count c' + db_errors c'
     <= processed_files_count c + db_errors c + n)%nat /\
    (processed_files_count c + file_process_errors c + db_errors c + n
     <= processed_files_count c' + file_process_errors c' + db_errors c'
        + 1)%nat /\
    (fst (for_results o total i items s) = inr tt ->
     (processed_files_count c + file_process_errors c + db_errors c + n
      <= processed_files_count c' + file_process_errors c' + db_errors c')%nat)
    /\
    (processed_files_count c' + file_process_errors c' + db_errors c'
     <= processed_files_count c + file_process_errors c + db_errors c
        + 2 * n)%nat.
Proof.
  induction items as [|[p r] items IH]; intros i s Hitems; cbn zeta.
  - rewrite consume_nil. cbn [entered]. repeat split; try intros _; lia.
  - apply Forall_cons in Hitems as [Hr Hitems]. cbn [snd] in Hr.
    rewrite consume_cons, for_results_cons. cbn [entered].
    specialize (IH (S i) (apply_result o total i (p, r) s) Hitems).
    cbn zeta in IH.
    pose proof (apply_result_counts o total i p r s) as Hc. cbn zeta in Hc.
    destruct (fst (loop_body o total i (p, r) s)) as [e|[]].
    + clear IH.
      destruct (counts (apply_result o total i (p, r) s)) as [P1 S1 F1 D1].
      destruct (counts s) as [P0 S0 F0 D0].
      cbn [fst processed_files_count file_process_errors db_errors] in *.
      destruct Hc as [Hc|[_ Hc]]; cbn in Hc; injection Hc as -> -> -> ->;
        repeat split; try discriminate; lia.
    + destruct IH as (IH1 & IH2 & IH3 & IH4).
      set (n := entered o total (S i) items
                  (apply_result o total i (p, r) s)) in *.
      set (c' := counts (consume o total (S i) items
                           (apply_result o total i (p, r) s))) in *.
      destruct (counts (apply_result o total i (p, r) s)) as [P1 S1 F1 D1].
      destruct (counts s) as [P0 S0 F0 D0].
      cbn [processed_files_count file_process_errors db_errors] in *.
      destruct Hc as [Hc|[Hc|[_ Hc]]].
      * destruct r as [[|fd l]|]; [done| |]; cbn in Hc;
          injection Hc as -> -> -> ->;
          repeat split; try (intros H; specialize (IH3 H)); lia.
      * cbn in Hc. injection Hc as -> -> -> ->.
        repeat split; try (intros H; specialize (IH3 H)); lia.
      * cbn in Hc. injection Hc as -> -> -> ->.
        repeat split; try (intros H; specialize (IH3 H)); lia.
Qed.

(** X5.  In the summary of any run that reaches the result loop and does
    not block in it, with [n] the number of progress reports on the queue,
    one for each result the loop took up: every result taken up is counted
    at most twice over the three tallies "processed", "processing errors or
    no faces" and "database update errors", a result counted as processed is
    never also counted as a database error, and at most one result -- the
    one whose database call raised something the handler does not catch --
    is counted in no tally.  When the database calls raise nothing but
    [sqlite3.Error], every result the pool yields is taken up and counted
    at least once. *)
Theorem summary_bounds (w : World) (o : Oracle) (dirs : list string)
    (db : option Table) (force : bool) (model : string) (workers : Z) :
  setup_fails o = false -> connect_fails o = false ->
  pool_start_fails o = false -> 1 <= workers ->
  selected_files w o dirs db force <> [] ->
  (forall k, pool_breaks_after o <> Some (k, blocks)) ->
  let q := status_queue (run_indexing w o dirs db force model workers) in
  let n := length (List.filter is_PROGRESS q) in
  exists processed failed db_failed : nat,
    In (PLAIN "Files successfully processed (faces stored): {}" [num processed])
       q /\
    In (PLAIN "Files with processing errors or no faces: {}" [num failed]) q /\
    In (PLAIN "Database update errors: {}" [num db_failed]) q /\
    (n <= length (consumed o (selected_files w o dirs db force)))%nat /\
    (processed + db_failed <= n)%nat /\
    (n <= processed + failed + db_failed + 1)%nat /\
    (processed + failed + db_failed <= 2 * n)%nat /\
    (only_database_errors o ->
     n = length (consumed o (selected_files w o dirs db force)) /\
     (n <= processed + failed + db_failed)%nat).
Proof.
  intros Hsetup Hconn Hpool Hworkers Hne Hblocks. cbn zeta.
  destruct (run_indexing_summary w o dirs db force model workers Hsetup Hconn
              Hpool Hworkers Hne Hblocks) as (s0 & q & _ & Hc0 & -> & Hpr).
  cbn zeta in Hpr |- *.
  set (P := selected_files w o dirs db force) in *.
  set (items := map (process_image w model) (consumed o P)) in *.
  pose proof (consume_bounds o (length P) items 0 s0
                (worker_results_nonempty w model _)) as Hb.
  pose proof (entered_le o (length P) items 0 s0) as Hle.
  pose proof (entered_returns o (length P) items 0 s0) as Hall.
  pose proof (fun H => for_results_returns o (length P) items H 0%nat s0)
    as Hret.
  cbn zeta in Hb. rewrite Hc0 in Hb.
  set (c := counts (consume o (length P) 0 items s0)) in *.
  set (n := entered o (length P) 0 items s0) in *.
  assert (Hlen : length items = length (consumed o P))
    by (subst items; apply length_map).
  rewrite Hlen in Hle, Hall.
  assert (Hn : length
                 (List.filter is_PROGRESS
                    (q ++ summary (length (find_image_files w dirs))
                            (select_files w
                               (get_indexed_files o (Some (table_before db)))
                               force (find_image_files w dirs)) c ++ [DONE]))
               = n).
  { rewrite !List.filter_app, Hpr. unfold summary.
    cbn [List.filter is_PROGRESS app]. rewrite app_nil_r.
    rewrite progress_events_length, length_take. lia. }
  rewrite Hn.
  cbn [no_tally processed_files_count file_process_errors db_errors] in Hb.
  destruct Hb as (H1 & H2 & H3 & H4).
  exists (processed_files_count c), (file_process_errors c), (db_errors c).
  unfold summary.
  do 3 (split; [apply in_or_app; right; apply in_or_app; left; cbn; tauto|]).
  do 4 (split; [lia|]).
  intros Hdb. specialize (H3 (Hret Hdb)). specialize (Hall (Hret Hdb)).
  split; [exact Hall | lia].
Qed.

(** ** Progress reports *)

(** The progress reports of a run that reaches the result loop, whether it
    returns or blocks: one for each result whose body was entered. *)
Lemma run_indexing_progress (w : World) (o : Oracle) (dirs : list string)
    (db : option Table) (force : bool) (model : string) (workers : Z) :
  setup_fails o = false -> connect_fails o = false ->
  pool_start_fails o = false -> 1 <= workers ->
  selected_files w o dirs db force <> [] ->
  exists n,
    (n <= length (consumed o (selected_files w o dirs db force)))%nat /\
    (only_database_errors o ->
     n = length (consumed o (selected_files w o dirs db force))) /\
    List.filter is_PROGRESS
      (status_queue (run_indexing w o dirs db force model workers)) =
    progress_events (length (selected_files w o dirs db force)) 0
      (firstn n (consumed o (selected_files w o dirs db force))).
Proof.
  intros Hsetup Hconn Hpool Hworkers Hne.
  unfold run_indexing, setup_database, selected_files in *.
  fold (table_before db) in *. rewrite Hsetup.
  set (q0 := _ ++ (if force then _ else _)).
  assert (Hq0 : List.filter is_PROGRESS q0 = [])
    by (subst q0; destruct force; reflexivity).
  set (sel := select_files w _ force _) in *.
  destruct (plain_filters _ (select_files_plain w
                               (get_indexed_files o (Some (table_before db)))
                               force (find_image_files w dirs))) as [_ Hsel].
  fold sel in Hsel.
  destruct (files_to_process sel) as [|p ps] eqn:Hfiles; [done|].
  rewrite Hconn, Hpool. replace (workers <? 1) with false by lia.
  cbn [orb].
  match goal with
  | |- context [run_pool w o model ?files ?s] =>
    pose proof (run_pool_state w o model files s)
      as (_ & _ & tail & Hq & Ht);
    destruct (consume_queue o (length files)
                (map (process_image w model) (consumed o files)) 0%nat s)
      as (extra & Hex & _ & Hpr);
    pose proof (entered_le o (length files)
                  (map (process_image w model) (consumed o files)) 0%nat s)
      as Hle;
    pose proof (entered_returns o (length files)
                  (map (process_image w model) (consumed o files)) 0%nat s)
      as Hall;
    pose proof (fun H => for_results_returns o (length files)
                  (map (process_image w model) (consumed o files)) H 0%nat s)
      as Hret;
    exists (entered o (length files) 0%nat
              (map (process_image w model) (consumed o files)) s);
    destruct (run_pool w o model files s) as [sb|sr]
  end;
    rewrite length_map in Hle, Hall;
    (split; [exact Hle|]);
    (split; [intros Hdb; apply Hall, Hret, Hdb|]);
    cbn [pool_state status_queue queue] in *;
    rewrite Hex in Hq; rewrite Hq, !List.filter_app, Hq0, Hsel, Hpr,
      <- firstn_map, worker_paths;
    destruct Ht as [-> | [-> | ->]]; unfold summary;
    cbn [List.filter is_PROGRESS app]; rewrite ?app_nil_r; reflexivity.
Qed.

Lemma progress_fraction_filter (q : list message) :
  omap progress_fraction q = omap progress_fraction (List.filter is_PROGRESS q).
Proof.
  induction q as [|m q IH]; [reflexivity|].
  destruct m; cbn [List.filter is_PROGRESS];
    try exact IH.
  change (omap progress_fraction (PROGRESS completed total name :: ?l))
    with ((completed, total) :: omap progress_fraction l).
  rewrite IH. reflexivity.
Qed.

Lemma progress_fraction_events (total : nat) (paths : list string) :
  forall i,
    omap progress_fraction (progress_events total i paths) =
    map (fun j => (j, total)) (List.seq (S i) (length paths)).
Proof.
  induction paths as [|p paths IH]; intros i; [reflexivity|].
  cbn [progress_events length List.seq map].
  change (omap progress_fraction (PROGRESS ?c ?t ?n :: ?l))
    with ((c, t) :: omap progress_fraction l).
  rewrite IH. reflexivity.
Qed.

(** X6.  In a run that reaches the result loop, the progress reports on
    the queue are numbered 1, 2, ..., n out of the number of selected files,
    one per result the loop took up and in the order the pool yielded them.
    When the database calls raise nothing but [sqlite3.Error], the loop
    takes up every result the pool yields, so n is their number; when
    moreover the pool runs to the end and yields every dispatched path once,
    the last report is "all of all". *)
Theorem progress_counts_up (w : World) (o : Oracle) (dirs : list string)
    (db : option Table) (force : bool) (model : string) (workers : Z) :
  setup_fails o = false -> connect_fails o = false ->
  pool_start_fails o = false -> 1 <= workers ->
  selected_files w o dirs db force <> [] ->
  let P := selected_files w o dirs db force in
  let q := status_queue (run_indexing w o dirs db force model workers) in
  (exists n, (n <= length (consumed o P))%nat /\
     omap progress_fraction q =
       map (fun j => (j, length P)) (List.seq 1 n)) /\
  (only_database_errors o ->
   omap progress_fraction q =
     map (fun j => (j, length P)) (List.seq 1 (length (consumed o P))) /\
   (pool_breaks_after o = None ->
    (forall l, Permutation (completion_order o l) l) ->
    last (omap progress_fraction q) = Some (length P, length P))).
Proof.
  intros Hsetup Hconn Hpool Hworkers Hne. cbn zeta.
  destruct (run_indexing_progress w o dirs db force model workers Hsetup
              Hconn Hpool Hworkers Hne) as (n & Hle & Hall & Hpr).
  assert (Hq : omap progress_fraction
                 (status_queue (run_indexing w o dirs db force model workers))
               = map (fun j => (j, length (selected_files w o dirs db force)))
                   (List.seq 1 n)).
  { rewrite progress_fraction_filter, Hpr, progress_fraction_events.
    rewrite length_take. f_equal. f_equal. lia. }
  split; [exists n; split; [exact Hle | exact Hq]|].
  intros Hdb. rewrite Hq, (Hall Hdb). split; [reflexivity|].
  intros Hbreak Hperm. unfold consumed. rewrite Hbreak.
  rewrite (Permutation_length (Hperm _)).
  destruct (selected_files w o dirs db force) as [|p P] eqn:HP; [done|].
  cbn [length]. rewrite seq_S, map_app, last_app. reflexivity.
Qed.

(** ** The snapshot of the store *)

Lemma float64_lt_chain (a x y : float64) :
  Float64.lt a y = true -> Float64.lt a x = false -> Float64.lt y x = false.
Proof.
  unfold Float64.lt. intros Hay Hax.
  apply andb_true_iff in Hay as [Hay Hk]. apply andb_true_iff in Hay as [Ha Hy].
  rewrite Ha in Hax. cbn [andb] in Hax.
  destruct (Float64.is_nan x); [rewrite andb_false_r; reflexivity|].
  cbn [negb andb] in Hax. rewrite andb_true_r.
  apply Z.ltb_lt in Hk. apply Z.ltb_ge in Hax.
  destruct (negb (Float64.is_nan y)); [|reflexivity].
  apply Z.ltb_ge. lia.
Qed.

Lemma float64_lt_irrefl (a : float64) : Float64.lt a a = false.
Proof. apply float64_gt_irrefl. Qed.

Lemma fold_max_upper (ms : list float64) :
  forall (a : float64) (seen : list float64),
    In a seen -> (forall x, In x seen -> Float64.lt a x = false) ->
    exists m, fold_max (Some a) ms = Some m /\ In m (seen ++ ms) /\
              forall x, In x (seen ++ ms) -> Float64.lt m x = false.
Proof.
  induction ms as [|y ms IH]; intros a seen Hin Hup.
  - exists a. rewrite app_nil_r. auto.
  - change (fold_max (Some a) (y :: ms))
      with (fold_max (Some (max_last_modified a y)) ms).
    destruct (IH (max_last_modified a y) (seen ++ [y])) as (m & Hm & Hmin & Hmup).
    + unfold max_last_modified. destruct (Float64.lt a y);
        apply in_or_app; [right; left; reflexivity | left; exact Hin].
    + intros x Hx. apply in_app_or in Hx. unfold max_last_modified.
      destruct (Float64.lt a y) eqn:Hay.
      * destruct Hx as [Hx|[<-|[]]]; [|apply float64_lt_irrefl].
        apply (float64_lt_chain a x y Hay). apply Hup. exact Hx.
      * destruct Hx as [Hx|[<-|[]]]; [apply Hup; exact Hx | exact Hay].
    + exists m. rewrite <- app_assoc in Hmin, Hmup. auto.
Qed.

(** X7.  When the store can be read, the snapshot has an entry exactly for
    the paths that have rows; the entry is the modification time of one of
    the path's rows, and no row of the path has a greater one. *)
Theorem snapshot_is_max (o : Oracle) (t : Table) (p : string) :
  snapshot_fails o = false ->
  (get_indexed_files o (Some t) !! p = None <-> rows_for p t = []) /\
  (forall m, get_indexed_files o (Some t) !! p = Some m ->
     (exists r, In r (rows_for p t) /\ last_modified r = m) /\
     (forall r, In r (rows_for p t) ->
        Float64.lt m (last_modified r) = false)) /\
  dom (get_indexed_files o (Some t)) =
    (list_to_set (map file_path (rows t)) : gset string).
Proof.
  intros Hs.
  assert (Hnone : forall x, get_indexed_files o (Some t) !! x = None <->
                            rows_for x t = [])
    by (intros x; apply snapshot_None; exact Hs).
  split; [apply Hnone|]. split.
  - intros m Hm. rewrite snapshot_lookup in Hm by exact Hs.
    destruct (rows_for p t) as [|r rs]; [discriminate|].
    cbn [map] in Hm.
    change (fold_max None (?a :: ?ms)) with (fold_max (Some a) ms) in Hm.
    destruct (fold_max_upper (map last_modified rs) (last_modified r)
                [last_modified r]) as (m' & Hm' & Hin & Hup).
    { left. reflexivity. }
    { intros x [<-|[]]. apply float64_lt_irrefl. }
    rewrite Hm in Hm'. injection Hm' as <-.
    change ([last_modified r] ++ map last_modified rs)
      with (map last_modified (r :: rs)) in Hin, Hup.
    split.
    + apply in_map_iff in Hin as (r' & Hr' & Hin). eauto.
    + intros r' Hr'. apply Hup. apply in_map. exact Hr'.
  - apply set_eq. intros x. rewrite elem_of_dom, elem_of_list_to_set.
    rewrite <- not_eq_None_Some, Hnone, list_elem_of_In, in_map_iff.
    unfold rows_for. split.
    + intros Hne. destruct (filter _ (rows t)) as [|r rs] eqn:Hf; [done|].
      assert (Hr : r ∈ filter (fun r => file_path r = x) (rows t))
        by (rewrite Hf; left).
      apply list_elem_of_filter in Hr as [Hp Hr].
      exists r. split; [exact Hp | apply list_elem_of_In; exact Hr].
    + intros (r & Hp & Hr) Hnil.
      assert (Hin : r ∈ filter (fun r => file_path r = x) (rows t))
        by (apply list_elem_of_filter; split;
            [exact Hp | apply list_elem_of_In; exact Hr]).
      rewrite Hnil in Hin. inversion Hin.
Qed.

(** ** When a search returns, and what *)

(** The value [run_search] returns, case by case. *)
Lemma run_search_fst (w : World) (read_fails : bool) (ref : string)
    (db : option Table) (tol : float64) :
  fst (run_search w read_fails ref db tol) =
  if negb (is_file w ref) then None else
  match db with
  | None => None
  | Some t =>
    if read_fails then None else
    match rows t with
    | [] => Some []
    | _ :: _ =>
      match List.filter (valid_row w) (rows t) with
      | [] => None
      | g :: good =>
        match reference_encodings w ref with
        | inr (target :: _) =>
          Some (sorted
                  (collect (map file_path (g :: good)) 0
                     (compare_faces w (map (decoded w) (g :: good)) target tol)
                     ∅))
        | _ => None
        end
      end
    end
  end.
Proof.
  unfold run_search. destruct (is_file w ref); cbn [negb]; [|reflexivity].
  destruct db as [t|]; [|reflexivity].
  destruct read_fails; [reflexivity|].
  rewrite load_all_spec. destruct (rows t) as [|r rs]; [reflexivity|].
  cbn zeta. destruct (List.filter (valid_row w) (r :: rs)) as [|g good];
    [reflexivity|].
  cbn [map]. destruct (reference_encodings w ref) as [e|[|target others]];
    reflexivity.
Qed.

(** X8.  A search returns a list exactly when the reference path is a
    file, the store exists and can be read, and either the store has no rows
    -- then the reference image is not even opened -- or it has a valid
    embedding and the provider finds a face in the reference image. *)
Theorem search_returns_iff (w : World) (read_fails : bool) (ref : string)
    (db : option Table) (tol : float64) :
  is_Some (fst (run_search w read_fails ref db tol)) <->
  is_file w ref = true /\
  exists t, db = Some t /\ read_fails = false /\
    (rows t = [] \/
     ((exists r, In r (rows t) /\ valid_row w r = true) /\
      exists target others,
        reference_encodings w ref = inr (target :: others))).
Proof.
  rewrite run_search_fst.
  destruct (is_file w ref); cbn [negb].
  2:{ split; [intros [? [=]] | intros [[=] _]]. }
  destruct db as [t|].
  2:{ split; [intros [? [=]] | intros [_ (t & [=] & _)]]. }
  destruct read_fails.
  { split; [intros [? [=]] | intros [_ (t' & _ & [=] & _)]]. }
  destruct (rows t) as [|r rs] eqn:Hrows.
  { split; [|eauto]. intros _. split; [reflexivity|].
    exists t. rewrite Hrows. auto. }
  assert (Hf : forall x, In x (List.filter (valid_row w) (r :: rs)) <->
                 In x (r :: rs) /\ valid_row w x = true)
    by (intros x; apply filter_In).
  destruct (List.filter (valid_row w) (r :: rs)) as [|g good].
  { split; [intros [? [=]]|].
    intros [_ (t' & [= <-] & _ & [H|[(x & Hx) _]])].
    - rewrite Hrows in H. discriminate.
    - rewrite Hrows in Hx. apply Hf in Hx. destruct Hx. }
  destruct (reference_encodings w ref) as [e|[|target others]].
  - split; [intros [? [=]]|].
    intros [_ (t' & [= <-] & _ & [H|[_ (? & ? & [=])]])].
    rewrite Hrows in H. discriminate.
  - split; [intros [? [=]]|].
    intros [_ (t' & [= <-] & _ & [H|[_ (? & ? & [=])]])].
    rewrite Hrows in H. discriminate.
  - split; [|eauto]. intros _. split; [reflexivity|].
    exists t. split; [reflexivity|]. split; [reflexivity|]. right.
    rewrite Hrows. split; [|eauto]. exists g. apply Hf. left. reflexivity.
Qed.

Lemma float64_le_trans (a b c : float64) :
  Float64.le a b = true -> Float64.le b c = true -> Float64.le a c = true.
Proof.
  unfold Float64.le. intros Hab Hbc.
  apply andb_true_iff in Hab as [Hab Hk1].
  apply andb_true_iff in Hab as [Ha _].
  apply andb_true_iff in Hbc as [Hbc Hk2].
  apply andb_true_iff in Hbc as [_ Hc].
  rewrite Ha, Hc. cbn [andb]. apply Z.leb_le in Hk1, Hk2. apply Z.leb_le. lia.
Qed.

(** X9.  Raising the tolerance never loses a match: if a search returns a
    list at one tolerance, the search with a tolerance that is [>=] it
    returns a list containing every path of the first. *)
Theorem search_monotone_in_tolerance (w : World) (read_fails : bool)
    (ref : string) (db : option Table) (tol1 tol2 : float64)
    (paths1 : list string) :
  Float64.le tol1 tol2 = true ->
  fst (run_search w read_fails ref db tol1) = Some paths1 ->
  exists paths2,
    fst (run_search w read_fails ref db tol2) = Some paths2 /\
    forall p, In p paths1 -> In p paths2.
Proof.
  intros Hle. rewrite !run_search_fst.
  destruct (negb (is_file w ref)); [discriminate|].
  destruct db as [t|]; [|discriminate].
  destruct read_fails; [discriminate|].
  destruct (rows t) as [|r rs]; [intros [= <-]; eauto|].
  destruct (List.filter (valid_row w) (r :: rs)) as [|g good]; [discriminate|].
  destruct (reference_encodings w ref) as [e|[|target others]];
    [discriminate | discriminate |].
  intros H. apply (f_equal (default [])) in H. cbn [default from_option id] in H.
  subst paths1. eexists. split; [reflexivity|]. intros p Hp.
  apply (proj2 (proj2 (sorted_spec _))) in Hp.
  apply (proj2 (proj2 (sorted_spec _))).
  apply collect_loaded in Hp. apply collect_loaded.
  destruct Hp as (x & Hin & Hp & Hw). exists x. split; [exact Hin|].
  split; [exact Hp|]. unfold within in *.
  apply (float64_le_trans _ tol1); assumption.
Qed.

(** ** What the loader hands to the comparison *)

Lemma read_items_wf (bo : byteorder) (n : nat) :
  forall buf, Forall Float64.wf (read_items bo n buf).
Proof.
  induction n as [|n IH]; intros buf; cbn [read_items]; constructor;
    [|apply IH].
  unfold Float64.wf, float64_of_bytes.
  assert (Hb : forall bs : list byte,
            (length bs <= 8)%nat -> 0 <= le_combine bs < 2 ^ 64).
  { intros bs Hlen. pose proof (le_combine_bound bs) as [H0 H1].
    split; [exact H0|]. eapply Z.lt_le_trans; [exact H1|].
    apply Z.pow_le_mono_r; lia. }
  destruct bo; apply Hb; rewrite ?length_rev, length_take; lia.
Qed.

Lemma filter_split_length {A} (f : A -> bool) (l : list A) :
  (length (List.filter f l) + length (List.filter (fun x => negb (f x)) l)
   = length l)%nat.
Proof.
  induction l as [|x l IH]; [reflexivity|].
  cbn [List.filter]. destruct (f x); cbn [negb length]; lia.
Qed.

(** X10.  Whenever the loader returns its two lists, they have the same
    length, every embedding in the second has exactly 128 elements, each a
    64-bit pattern, and every row of a non-empty store is either loaded or
    reported in a warning of its own. *)
Theorem loaded_embeddings_well_formed (w : World) (read_fails : bool)
    (db : option Table) (known_file_paths : list string)
    (known_face_encodings : list encoding) (q : list message) :
  load_all_encodings_from_db w read_fails db
    = (Some (known_file_paths, known_face_encodings), q) ->
  length known_file_paths = length known_face_encodings /\
  Forall (fun e => length e = 128%nat /\ Forall Float64.wf e)
    known_face_encodings /\
  (forall t, db = Some t -> rows t <> [] ->
     (length known_face_encodings + length (List.filter is_WARN q)
      = length (rows t))%nat).
Proof.
  destruct db as [t|]; [|discriminate].
  destruct read_fails; [discriminate|].
  rewrite load_all_spec. destruct (rows t) as [|r rs] eqn:Hrows.
  { intros [= <- <- <-]. split; [reflexivity|]. split; [constructor|].
    intros t' [= <-]. rewrite Hrows. done. }
  cbn zeta.
  pose proof (filter_split_length (valid_row w) (r :: rs)) as Hlen.
  assert (Hf : forall x, In x (List.filter (valid_row w) (r :: rs)) ->
                 valid_row w x = true)
    by (intros x Hx; apply filter_In in Hx; tauto).
  remember (List.filter (fun x => negb (valid_row w x)) (r :: rs)) as bad
    eqn:Hbad.
  destruct (List.filter (valid_row w) (r :: rs)) as [|g good]; [discriminate|].
  remember (g :: good) as gl eqn:Hgl.
  intros [= <- <- <-]. split; [rewrite !length_map; reflexivity|]. split.
  - apply List.Forall_forall. intros e He.
    apply in_map_iff in He as (x & <- & Hx). apply Hf in Hx.
    unfold valid_row, decoded, blob_to_np_array in *.
    destruct (length (face_encoding x) mod 8 =? 0)%nat; [|discriminate].
    unfold ret in *. split; [apply Nat.eqb_eq; exact Hx | apply read_items_wf].
  - intros t' [= <-]. rewrite Hrows. intros _.
    rewrite List.filter_app, (proj1 (drop_warnings_WARN w _)).
    cbn [List.filter is_WARN]. rewrite app_nil_r, !length_map. exact Hlen.
Qed.

(** ** How a search ends *)

Lemma quiet_drop_warnings (w : World) (rs : list Row) :
  Forall quiet (map (drop_warning w) rs).
Proof.
  apply List.Forall_forall. intros m Hm.
  apply in_map_iff in Hm as (r & <- & _). unfold drop_warning.
  destruct (blob_to_np_array (byte_order w) (face_encoding r));
    split; reflexivity.
Qed.

Lemma load_quiet (w : World) (read_fails : bool) (db : option Table) :
  Forall quiet (snd (load_all_encodings_from_db w read_fails db)).
Proof.
  destruct db as [t|]; [|repeat constructor].
  destruct read_fails; [repeat constructor|].
  rewrite load_all_spec. destruct (rows t) as [|r rs]; [repeat constructor|].
  cbn zeta. destruct (List.filter (valid_row w) (r :: rs)); cbn [snd];
    (apply Forall_app; split; [apply quiet_drop_warnings|repeat constructor]).
Qed.

(** The queue of a search: messages that are neither results nor terminal,
    then one RESULT per returned path, then the terminal event. *)
Lemma run_search_queue (w : World) (read_fails : bool) (ref : string)
    (db : option Table) (tol : float64) :
  let r := run_search w read_fails ref db tol in
  exists q,
    snd r = q ++ map RESULT (default [] (fst r))
              ++ [match fst r with Some _ => DONE | None => ABORTED end] /\
    Forall quiet q.
Proof.
  cbn zeta. unfold run_search.
  destruct (is_file w ref); cbn [negb].
  2:{ exists [ERROR "Reference image not found at '{}'" [str ref]].
      split; [reflexivity|repeat constructor]. }
  pose proof (load_quiet w read_fails db) as Hq.
  destruct (load_all_encodings_from_db w read_fails db) as [[[fps encs]|] q];
    cbn [snd] in Hq.
  2:{ cbn [fst snd default from_option map app].
      exists ([INFO "Using database: {}" [];
               INFO "Using reference image: {}" [str ref];
               INFO "Using matching tolerance: {}" [real tol]] ++ q).
      split; [rewrite <- app_assoc; reflexivity|].
      apply Forall_app. split; [repeat constructor | exact Hq]. }
  set (q0 := [INFO "Using database: {}" [];
              INFO "Using reference image: {}" [str ref];
              INFO "Using matching tolerance: {}" [real tol]]).
  assert (Hq0 : Forall quiet q0) by (subst q0; repeat constructor).
  destruct encs as [|enc encs].
  { cbn [fst snd default from_option id map app].
    exists (q0 ++ q ++
            [WARN "No faces loaded from DB to compare against." []]).
    split; [rewrite <- !app_assoc; reflexivity|].
    apply Forall_app. split; [exact Hq0|].
    apply Forall_app. split; [exact Hq | repeat constructor]. }
  set (q1 := q0 ++ q ++ [INFO "Processing reference image..." []]).
  assert (Hq1 : Forall quiet q1).
  { subst q1. apply Forall_app. split; [exact Hq0|].
    apply Forall_app. split; [exact Hq | repeat constructor]. }
  destruct (reference_encodings w ref) as [e|[|target others]].
  - cbn [fst snd default from_option map app].
    exists (q1 ++ [ERROR "loading or processing reference image: {}" []]).
    split; [rewrite <- app_assoc; reflexivity|].
    apply Forall_app. split; [exact Hq1 | repeat constructor].
  - cbn [fst snd default from_option map app].
    exists (q1 ++ [ERROR "No faces found in the reference image '{}'."
                     [str ref]]).
    split; [rewrite <- app_assoc; reflexivity|].
    apply Forall_app. split; [exact Hq1 | repeat constructor].
  - cbn zeta. cbn [fst snd default from_option id].
    generalize (sorted
                  (collect fps 0
                     (compare_faces w (enc :: encs) target tol) ∅)).
    intros paths.
    set (q2 := q1 ++ [match others with
                      | [] => INFO "Found 1 face in reference image. Using it for searching." []
                      | _ :: _ =>
                        WARN "Found {} faces in reference image. Using the first one."
                          [num (S (length others))]
                      end;
                      INFO "Comparing reference face against database..." []]).
    assert (Hq2 : Forall quiet q2).
    { subst q2. apply Forall_app. split; [exact Hq1|].
      destruct others; repeat constructor. }
    destruct paths as [|p ps].
    + exists (q2 ++ [INFO "Comparison finished in {} seconds." [seconds];
                     INFO "No matches found with tolerance {}." [real tol]]).
      split; [cbn [map app]; rewrite <- !app_assoc; reflexivity|].
      apply Forall_app. split; [exact Hq2 | repeat constructor].
    + exists (q2 ++ [INFO "Comparison finished in {} seconds." [seconds];
                     INFO "Found {} photos containing a matching face:"
                       [num (length (p :: ps))]]).
      split; [rewrite <- !app_assoc; reflexivity|].
      apply Forall_app. split; [exact Hq2 | repeat constructor].
Qed.


(** ** How an indexing run ends *)


(** ** The blob codec, in both directions *)

Lemma float64_to_of_bytes (bo : byteorder) (bs : list byte) :
  length bs = 8%nat -> float64_to_bytes bo (float64_of_bytes bo bs) = bs.
Proof.
  intros Hlen. unfold float64_to_bytes, float64_of_bytes. destruct bo.
  - rewrite <- Hlen. apply split_le_combine.
  - rewrite <- (length_rev bs) in Hlen. rewrite <- Hlen, split_le_combine.
    apply rev_involutive.
Qed.

Lemma blob_of_read_items (bo : byteorder) (n : nat) :
  forall buf, length buf = (n * 8)%nat ->
              np_array_to_blob bo (read_items bo n buf) = buf.
Proof.
  induction n as [|n IH]; intros buf Hlen.
  - destruct buf; [reflexivity | discriminate].
  - cbn [read_items]. unfold np_array_to_blob in *. cbn [flat_map].
    rewrite float64_to_of_bytes by (rewrite length_take; lia).
    rewrite IH by (rewrite length_drop; lia).
    apply take_drop.
Qed.

Lemma blob_to_of_array (bo : byteorder) (arr : list float64) :
  Forall Float64.wf arr ->
  blob_to_np_array bo (np_array_to_blob bo arr) = ret arr.
Proof.
  intros Hwf. unfold blob_to_np_array.
  rewrite np_array_to_blob_length, Nat.Div0.mod_mul.
  cbn [Nat.eqb]. rewrite Nat.div_mul by discriminate.
  rewrite read_items_blob by exact Hwf. reflexivity.
Qed.

(** X13.  The two blob conversions are inverse to each other on their
    whole domains: an array of any length of 64-bit patterns is read back
    from its blob; a buffer is accepted exactly when its size is a multiple
    of 8, and then it is the blob of the array read from it. *)
Theorem blob_codec (bo : byteorder) :
  (forall arr : list float64,
     Forall Float64.wf arr ->
     blob_to_np_array bo (np_array_to_blob bo arr) = ret arr) /\
  (forall blob : list byte,
     (length blob mod 8 <> 0)%nat ->
     blob_to_np_array bo blob = raise ValueError) /\
  (forall (blob : list byte) (arr : list float64),
     blob_to_np_array bo blob = ret arr ->
     (length arr * 8)%nat = length blob /\ Forall Float64.wf arr /\
     np_array_to_blob bo arr = blob).
Proof.
  split; [|split].
  - intros arr Hwf. apply blob_to_of_array. exact Hwf.
  - intros blob Hmod. unfold blob_to_np_array.
    apply Nat.eqb_neq in Hmod. rewrite Hmod. reflexivity.
  - intros blob arr. unfold blob_to_np_array.
    destruct (length blob mod 8 =? 0)%nat eqn:Hmod; [|discriminate].
    intros [= <-]. apply Nat.eqb_eq in Hmod.
    change (Nat.divmod (length blob) 7 0 7).1 with (length blob / 8)%nat.
    assert (Hlen : length blob = (length blob / 8 * 8)%nat).
    { pose proof (Nat.div_mod_eq (length blob) 8). lia. }
    rewrite read_items_length. split; [lia|]. split; [apply read_items_wf|].
    apply blob_of_read_items. exact Hlen.
Qed.

(** ** What the worker puts in a record *)

(** X14.  When the worker returns records, there is one per (encoding,
    location) pair, so their number is the smaller of the two counts: a
    mismatch between encodings and locations is cut off, not signalled.
    Every record carries the modification time read before loading, a blob
    of eight bytes per element of its encoding, and the location as four
    decimal numbers joined by commas. *)
Theorem worker_records (w : World) (model p : string)
    (l : list face_data) :
  snd (process_image w model p) = Some l ->
  exists lm img locs encs,
    stat_mtime w p = inr lm /\ load_image_file w p = inr img /\
    face_locations w model img = inr locs /\
    face_encodings w img locs NUM_JITTERS ENCODING_MODEL = inr encs /\
    length l = Nat.min (length encs) (length locs) /\
    forall i fd, l !! i = Some fd ->
      exists e loc,
        encs !! i = Some e /\ locs !! i = Some loc /\
        fd.1.1 = lm /\
        fd.1.2 = np_array_to_blob (byte_order w) e /\
        length (fd.1.2) = (length e * 8)%nat /\
        fd.2 = location_str loc.
Proof.
  unfold process_image, process_image_try, bind, ret.
  destruct (stat_mtime w p) as [e|lm] eqn:Hs; [discriminate|].
  destruct (load_image_file w p) as [e|img] eqn:Hload; [discriminate|].
  destruct (face_locations w model img) as [e|locs] eqn:Hlocs;
    [discriminate|].
  destruct locs as [|loc0 locs]; [discriminate|].
  destruct (face_encodings w img (loc0 :: locs) NUM_JITTERS ENCODING_MODEL)
    as [e|encs] eqn:Hencs;
    [discriminate|].
  destruct encs as [|enc0 encs]; [discriminate|].
  remember (loc0 :: locs) as ls eqn:Hls.
  remember (enc0 :: encs) as es eqn:Hes.
  cbn [snd]. intros Hl. apply (f_equal (default [])) in Hl.
  cbn [default from_option id] in Hl. subst l.
  exists lm, img, ls, es. do 4 (split; [assumption || reflexivity|]). split.
  - rewrite length_map. apply length_zip_with.
  - intros i fd Hi. rewrite lookup_map in Hi.
    apply fmap_Some in Hi as ([e loc] & Hz & ->).
    apply lookup_zip_with_Some in Hz as (e' & loc' & [= <- <-] & He & Hloc).
    exists e, loc. cbn [fst snd].
    rewrite np_array_to_blob_length. auto 10.
Qed.

(** ** From the worker to the search *)

Lemma faces_of_In (w : World) (model p : string) (fd : face_data) :
  In fd (faces_of w model p) <->
  exists lm img locs encs i e loc,
    stat_mtime w p = inr lm /\ load_image_file w p = inr img /\
    face_locations w model img = inr locs /\
    face_encodings w img locs NUM_JITTERS ENCODING_MODEL = inr encs /\
    encs !! i = Some e /\ locs !! i = Some loc /\
    fd = face_record w lm (e, loc).
Proof.
  unfold faces_of, process_image, process_image_try, bind, ret. split.
  - destruct (stat_mtime w p) as [x|lm] eqn:Hs; [intros []|].
    destruct (load_image_file w p) as [x|img] eqn:Hload; [intros []|].
    destruct (face_locations w model img) as [x|locs] eqn:Hlocs;
      [intros []|].
    destruct locs as [|loc0 locs]; [intros []|].
    destruct (face_encodings w img (loc0 :: locs) NUM_JITTERS ENCODING_MODEL)
    as [x|encs] eqn:Hencs;
      [intros []|].
    destruct encs as [|enc0 encs]; [intros []|].
    remember (loc0 :: locs) as ls eqn:Hls.
    remember (enc0 :: encs) as es eqn:Hes.
    cbn [snd default from_option id]. rewrite in_map_iff.
    intros ([e loc] & <- & Hin).
    apply list_elem_of_In, list_elem_of_lookup in Hin as [i Hi].
    apply lookup_zip_Some in Hi as [He Hl].
    exists lm, img, ls, es, i, e, loc. auto 10.
  - intros (lm & img & locs & encs & i & e & loc & -> & -> & -> & Hencs &
            He & Hl & ->).
    destruct locs as [|loc0 locs]; [discriminate|].
    rewrite Hencs. destruct encs as [|enc0 encs]; [discriminate|].
    remember (loc0 :: locs) as ls eqn:Hls.
    remember (enc0 :: encs) as es eqn:Hes.
    cbn [snd default from_option id]. apply in_map_iff.
    exists (e, loc). split; [reflexivity|].
    apply list_elem_of_In. apply (list_elem_of_lookup_2 _ i).
    apply lookup_zip_Some. auto.
Qed.

Lemma fault_free_pool_sound (o : Oracle) : fault_free o -> pool_sound o.
Proof.
  intros (_ & _ & _ & _ & _ & _ & Hperm) l x Hin.
  apply list_elem_of_In. rewrite <- (Hperm l). apply list_elem_of_In.
  exact Hin.
Qed.

Lemma decoded_blob (w : World) (r : Row) (e : encoding) :
  face_encoding r = np_array_to_blob (byte_order w) e ->
  Forall Float64.wf e ->
  decoded w r = e /\ valid_row w r = (length e =? 128)%nat.
Proof.
  intros Hb Hwf. unfold decoded, valid_row.
  rewrite Hb, blob_to_of_array by exact Hwf. split; reflexivity.
Qed.

Lemma rows_for_In (x : string) (t : Table) (r : Row) :
  In r (rows_for x t) <-> In r (rows t) /\ file_path r = x.
Proof.
  unfold rows_for. rewrite <- !list_elem_of_In, list_elem_of_filter. tauto.
Qed.

(** X15.  Indexing and then searching.  Suppose that nothing fails in the
    run, that the provider returns embeddings of 128 numbers whatever model
    it is asked for (the worker asks for the model [ENCODING_MODEL], the
    search for the default of the library), that every row stored before the
    run holds a valid embedding, that the reference path is a file, and that
    the provider finds at least one face in it, [target] being the embedding
    of the first.  Then the search over the store the run leaves returns a
    list, and a path is on it exactly when it was selected by the run and
    one of the embeddings the worker stored for it is within the tolerance
    of [target], or it was not selected and one of the rows it had before
    is.  Rows of paths the run did not select -- files that are unchanged,
    or gone from the disk -- keep matching. *)
Theorem index_then_search (w : World) (o : Oracle) (dirs : list string)
    (db : option Table) (force : bool) (model : string) (workers : Z)
    (ref : string) (tol : float64) (target : encoding)
    (others : list encoding) :
  fault_free o -> 1 <= workers -> provider_128 w ->
  (forall r, In r (rows (table_before db)) -> valid_row w r = true) ->
  is_file w ref = true ->
  reference_encodings w ref = inr (target :: others) ->
  let P := selected_files w o dirs db force in
  let r := run_indexing w o dirs db force model workers in
  exists paths,
    fst (run_search w false ref (db_after r) tol) = Some paths /\
    forall p, In p paths <->
      (In p P /\
       exists e, embedding_of w model p e /\
                 Float64.le (face_distance w e target) tol = true) \/
      (~ In p P /\
       exists r0, In r0 (rows (table_before db)) /\ file_path r0 = p /\
                  within w target tol r0 = true).
Proof.
  intros Hff Hworkers Hprov Hold Hfile Href. cbn zeta.
  set (P := selected_files w o dirs db force).
  set (r := run_indexing w o dirs db force model workers).
  assert (Hdb : db_after r = Some (table_after r)).
  { destruct (run_indexing_fault_free w o dirs db force model workers Hff
                Hworkers) as (s0 & _ & Hdb & _).
    cbn zeta in Hdb. unfold table_after. subst r. rewrite Hdb. reflexivity. }
  set (T := table_after r) in *.
  assert (Hsel : forall x, In x P ->
                   records_for x T = faces_of w model x)
    by (intros x Hx; apply run_records_selected; assumption).
  assert (Hunsel : forall x, ~ In x P ->
                     rows_for x T = rows_for x (table_before db))
    by (intros x Hx; apply run_rows_unselected;
        [apply fault_free_pool_sound|]; assumption).
  assert (Hnew : forall r0, In r0 (rows T) -> In (file_path r0) P ->
            exists e, embedding_of w model (file_path r0) e /\
                      decoded w r0 = e /\ valid_row w r0 = true).
  { intros r0 Hr0 Hp.
    assert (Hfd : In (record_of r0) (faces_of w model (file_path r0))).
    { rewrite <- (Hsel _ Hp). unfold records_for. apply in_map.
      apply rows_for_In. auto. }
    apply faces_of_In in Hfd
      as (lm & img & locs & encs & i & e & loc & Hs & Hload & Hlocs & Hencs &
          He & Hl & Hrec).
    pose proof (Hprov _ _ _ _ _ Hencs) as Hall.
    rewrite List.Forall_forall in Hall.
    destruct (Hall e) as [Hlen Hwf].
    { apply list_elem_of_In. eapply list_elem_of_lookup_2. exact He. }
    assert (Hb : face_encoding r0 = np_array_to_blob (byte_order w) e).
    { unfold record_of, face_record in Hrec. cbn [fst snd] in Hrec.
      congruence. }
    destruct (decoded_blob w r0 e Hb Hwf) as [Hd Hv].
    exists e. split; [|split; [exact Hd|]].
    - exists lm, img, locs, encs, i. do 5 (split; [assumption|]).
      apply lookup_lt_is_Some. eauto.
    - rewrite Hv, Hlen. reflexivity. }
  assert (Hvalid : forall r0, In r0 (rows T) -> valid_row w r0 = true).
  { intros r0 Hr0. destruct (decide (file_path r0 ∈ P)) as [Hp|Hp];
      rewrite list_elem_of_In in Hp.
    - destruct (Hnew r0 Hr0 Hp) as (e & _ & _ & Hv). exact Hv.
    - apply Hold. apply (rows_for_In (file_path r0)).
      rewrite <- (Hunsel _ Hp). apply rows_for_In. auto. }
  assert (Hiff : forall p,
            (exists r0, In r0 (rows T) /\ file_path r0 = p /\
                        within w target tol r0 = true) <->
            (In p P /\
             exists e, embedding_of w model p e /\
                       Float64.le (face_distance w e target) tol = true) \/
            (~ In p P /\
             exists r0, In r0 (rows (table_before db)) /\ file_path r0 = p /\
                        within w target tol r0 = true)).
  { intros p. split.
    - intros (r0 & Hr0 & <- & Hw).
      destruct (decide (file_path r0 ∈ P)) as [Hp|Hp];
      rewrite list_elem_of_In in Hp.
      + left. split; [exact Hp|].
        destruct (Hnew r0 Hr0 Hp) as (e & He & Hd & _).
        exists e. split; [exact He|]. unfold within in Hw. rewrite Hd in Hw.
        exact Hw.
      + right. split; [exact Hp|]. exists r0. split; [|auto].
        apply (rows_for_In (file_path r0)).
        rewrite <- (Hunsel _ Hp). apply rows_for_In. auto.
    - intros [(Hp & e & He & Hle)|(Hp & r0 & Hr0 & <- & Hw)].
      + destruct He as (lm & img & locs & encs & i & Hs & Hload & Hlocs &
                        Hencs & He & Hi).
        apply lookup_lt_is_Some in Hi as [loc Hl].
        assert (Hfd : In (face_record w lm (e, loc)) (faces_of w model p)).
        { apply faces_of_In. exists lm, img, locs, encs, i, e, loc. auto 10. }
        rewrite <- (Hsel _ Hp) in Hfd. unfold records_for in Hfd.
        apply in_map_iff in Hfd as (r0 & Hrec & Hr0).
        apply rows_for_In in Hr0 as [Hr0 Hpath].
        exists r0. split; [exact Hr0|]. split; [exact Hpath|].
        pose proof (Hprov _ _ _ _ _ Hencs) as Hall.
        rewrite List.Forall_forall in Hall.
        destruct (Hall e) as [Hlen Hwf].
        { apply list_elem_of_In. eapply list_elem_of_lookup_2. exact He. }
        assert (Hb : face_encoding r0 = np_array_to_blob (byte_order w) e).
        { unfold record_of, face_record in Hrec. cbn [fst snd] in Hrec.
          congruence. }
        destruct (decoded_blob w r0 e Hb Hwf) as [Hd' _].
        unfold within. rewrite Hd'. exact Hle.
      + exists r0. split; [|auto].
        apply (rows_for_In (file_path r0)). rewrite (Hunsel _ Hp).
        apply rows_for_In. auto. }
  rewrite Hdb, run_search_fst, Hfile. cbn [negb].
  destruct (rows T) as [|r1 rs] eqn:Hrows.
  { exists []. split; [reflexivity|]. intros p. rewrite <- Hiff.
    split; [intros []|]. intros (r0 & [] & _). }
  assert (Hgood : List.filter (valid_row w) (r1 :: rs) = r1 :: rs).
  { apply forallb_filter_id. apply forallb_forall. exact Hvalid. }
  rewrite Hgood, Href. eexists. split; [reflexivity|]. intros p.
  rewrite (proj2 (proj2 (sorted_spec _))), collect_loaded. apply Hiff.
Qed.

(** ** An unreadable snapshot *)

(** X16.  When the snapshot cannot be read, or the database file did not
    exist, the snapshot is empty and a run without [force_rescan] selects
    every discovered file whose stat succeeds, unchanged files included. *)
Theorem unreadable_snapshot_rescans_everything (w : World) (o : Oracle)
    (dirs : list string) (db : option Table) :
  snapshot_fails o = true \/ db = None ->
  get_indexed_files o (Some (table_before db)) = ∅ /\
  selected_files w o dirs db false
  = List.filter (fun p => negb (stat_raises w p)) (find_image_files w dirs).
Proof.
  intros H.
  assert (He : get_indexed_files o (Some (table_before db)) = ∅).
  { unfold get_indexed_files. destruct H as [->| ->]; [reflexivity|].
    destruct (snapshot_fails o); reflexivity. }
  split; [exact He|]. unfold selected_files. rewrite He, select_files_filter.
  apply filter_ext. intros p. unfold selected, stat_raises, new_or_modified.
  destruct (stat_mtime w p); [reflexivity|]. rewrite lookup_empty. reflexivity.
Qed.

(** ** Exporting the results *)

Import Gui.

Lemma export_file_spec (o : Disk) (total i : nat) (p : string)
    (s : export_state) :
  let s' := export_file o total i p s in
  folder s' = match written_at o i with
              | Some data => <[path_name p := data]> (folder s)
              | None => folder s
              end /\
  export_count s' = (export_count s + if copied_at o i then 1 else 0)%nat /\
  export_errors s' = (export_errors s + if copied_at o i then 0 else 1)%nat /\
  exists extra,
    put s' = put s ++ PROGRESS (S i) total ("Exporting " +:+ path_name p)
                   :: extra /\
    plain extra.
Proof.
  cbn zeta. unfold export_file, written_at, copied_at.
  destruct (src_exists o i); cbn [negb andb].
  - destruct (copy2 o i) as [data|left_behind];
      cbn [folder export_count export_errors put].
    + repeat split; try lia. exists [].
      split; [reflexivity | constructor].
    + repeat split; try lia. eexists. rewrite <- app_assoc.
      split; [reflexivity|]. repeat constructor.
  - cbn [folder export_count export_errors put]. repeat split; try lia.
    eexists. rewrite <- app_assoc. split; [reflexivity|]. repeat constructor.
Qed.



Lemma export_loop_folder (o : Disk) (total : nat) (paths : list string)
    (name : string) :
  forall (i : nat) (s : export_state),
    folder (export_loop o total i paths s) !! name =
    match last_written o name i paths with
    | Some data => Some data
    | None => folder s !! name
    end.
Proof.
  induction paths as [|p paths IH]; intros i s; [reflexivity|].
  cbn [export_loop last_written]. rewrite IH.
  destruct (last_written o name (S i) paths) as [data|]; [reflexivity|].
  destruct (export_file_spec o total i p s) as (-> & _).
  destruct (decide (path_name p = name)) as [->|Hne].
  - destruct (written_at o i); [apply lookup_insert_eq | reflexivity].
  - destruct (written_at o i); [|reflexivity].
    apply lookup_insert_ne. exact Hne.
Qed.

Lemma last_written_None (o : Disk) (name : string) (paths : list string) :
  forall i, ~ In name (map path_name paths) ->
            last_written o name i paths = None.
Proof.
  induction paths as [|p paths IH]; intros i Hn; [reflexivity|].
  cbn [last_written]. rewrite IH by (intros H; apply Hn; right; exact H).
  rewrite decide_False; [reflexivity|]. intros H. apply Hn. left. exact H.
Qed.

Lemma last_written_last (o : Disk) (name : string) (paths : list string) :
  forall i k p data,
    paths !! k = Some p -> path_name p = name ->
    written_at o (i + k) = Some data ->
    (forall j q, (k < j)%nat -> paths !! j = Some q -> path_name q = name ->
                 written_at o (i + j) = None) ->
    last_written o name i paths = Some data.
Proof.
  induction paths as [|p0 paths IH]; intros i k p data Hk Hp Hw Hlast; [done|].
  cbn [last_written]. destruct k as [|k].
  - injection Hk as ->. rewrite Nat.add_0_r in Hw.
    assert (Hrest : forall i', (forall j q, paths !! j = Some q ->
                       path_name q = name ->
                       written_at o (i' + j) = None) ->
                     last_written o name i' paths = None).
    { clear. induction paths as [|q paths IH]; intros i' H; [reflexivity|].
      cbn [last_written]. rewrite IH.
      - destruct (decide (path_name q = name)) as [Hq|_]; [|reflexivity].
        rewrite <- (Nat.add_0_r i'). apply (H 0%nat q); [reflexivity|exact Hq].
      - intros j q' Hj Hq'. replace (S i' + j)%nat with (i' + S j)%nat by lia.
        apply (H (S j) q'); assumption. }
    rewrite Hrest.
    + rewrite decide_True by exact Hp. exact Hw.
    + intros j q Hj Hq. replace (S i + j)%nat with (i + S j)%nat by lia.
      apply (Hlast (S j) q); [lia | exact Hj | exact Hq].
  - rewrite (IH (S i) k p data Hk Hp); [reflexivity | |].
    + replace (S i + k)%nat with (i + S k)%nat by lia. exact Hw.
    + intros j q Hj Hq Hn. replace (S i + j)%nat with (i + S j)%nat by lia.
      apply (Hlast (S j) q); [lia | exact Hq | exact Hn].
Qed.

Lemma perform_export_cases (o : Disk) (paths : list string)
    (dest : option (gmap string string)) :
  (dest = None /\ mkdir_fails o = true /\
   _perform_export o paths dest =
     (None, [ERROR "Could not create destination folder: {}" []; ABORTED])) \/
  ((dest <> None \/ mkdir_fails o = false) /\
   let s := export_loop o (length paths) 0 paths
              {| folder := default ∅ dest; export_count := 0;
                 export_errors := 0; put := [] |} in
   _perform_export o paths dest =
     (Some (folder s),
      put s ++
      [INFO "Export finished in {} seconds." [seconds];
       INFO "Successfully exported {} files." [num (export_count s)]] ++
      (if (0 <? export_errors s)%nat
       then [WARN "Failed to export {} files." [num (export_errors s)]]
       else []) ++
      [DONE])).
Proof.
  unfold _perform_export. destruct dest as [d|].
  - right. split; [left; discriminate | reflexivity].
  - destruct (mkdir_fails o).
    + left. auto.
    + right. split; [right; reflexivity | reflexivity].
Qed.


(** X18.  The destination folder after an export: a file whose name is
    the last component of no exported path is left as it was; a file whose
    name is the last component of exported paths holds what the last of
    them that wrote it left there, so of two results with the same file name
    in different directories only one copy survives although both are
    counted; and no other file appears. *)
Theorem export_overwrites_same_name (o : Disk) (paths : list string)
    (dest : option (gmap string string)) (dest' : gmap string string) :
  fst (_perform_export o paths dest) = Some dest' ->
  (forall name, ~ In name (map path_name paths) ->
     dest' !! name = default ∅ dest !! name) /\
  (forall k p data,
     paths !! k = Some p -> written_at o k = Some data ->
     (forall j q, (k < j)%nat -> paths !! j = Some q ->
                  path_name q = path_name p -> written_at o j = None) ->
     dest' !! path_name p = Some data) /\
  dom dest' ⊆ dom (default ∅ dest) ∪ list_to_set (map path_name paths).
Proof.
  intros Hdest'.
  destruct (perform_export_cases o paths dest)
    as [(_ & _ & Heq)|(_ & Heq)]; [rewrite Heq in Hdest'; discriminate|].
  cbn zeta in Heq. rewrite Heq in Hdest'. cbn [fst] in Hdest'.
  injection Hdest' as <-. clear Heq.
  set (s0 := {| folder := default ∅ dest; export_count := 0;
                export_errors := 0; put := [] |}).
  assert (Hframe : forall name, ~ In name (map path_name paths) ->
            folder (export_loop o (length paths) 0 paths s0) !! name
            = default ∅ dest !! name).
  { intros name Hn. rewrite export_loop_folder, last_written_None by exact Hn.
    reflexivity. }
  split; [exact Hframe|]. split.
  - intros k p data Hk Hw Hlast. rewrite export_loop_folder.
    rewrite (last_written_last o (path_name p) paths 0 k p data);
      [reflexivity | exact Hk | reflexivity | exact Hw | exact Hlast].
  - intros name Hin. apply elem_of_dom in Hin.
    destruct (decide (name ∈ map path_name paths)) as [Hn|Hn].
    + apply elem_of_union_r, elem_of_list_to_set. exact Hn.
    + apply elem_of_union_l, elem_of_dom.
      rewrite <- Hframe; [exact Hin|]. rewrite <- list_elem_of_In. exact Hn.
Qed.

(** ** The window and the status queue *)

Lemma check_queue_app (a : App) (l1 l2 : list queue_item) :
  check_queue a (l1 ++ l2) = check_queue (check_queue a l1) l2.
Proof. apply foldl_app. Qed.

Lemma handle_results (a : App) (x : queue_item) :
  current_results (handle a x) = current_results a ++ option_list (result_of x).
Proof.
  destruct a as [ip cr st pb pi b eb rl pt].
  destruct x as [m| |]; [destruct m|..]; try destruct cr;
    cbn; rewrite ?app_nil_r; reflexivity.
Qed.

Lemma check_queue_results (items : list queue_item) :
  forall a, current_results (check_queue a items)
            = current_results a ++ omap result_of items.
Proof.
  induction items as [|x items IH]; intros a.
  - cbn. rewrite app_nil_r. reflexivity.
  - cbn [check_queue foldl]. fold (check_queue (handle a x) items).
    rewrite IH, handle_results.
    destruct x as [m| |]; [destruct m|..]; cbn [result_of option_list omap];
      rewrite <- ?app_assoc; try reflexivity.
Qed.

Lemma handle_quiet (a : App) (m : message) :
  quiet m -> control (handle a (Msg m)) = control a.
Proof.
  intros [Hr Ht]. destruct a. destruct m; try discriminate; reflexivity.
Qed.

Lemma check_queue_quiet (q : list message) :
  forall a, Forall quiet q -> control (check_queue a (map Msg q)) = control a.
Proof.
  induction q as [|m q IH]; intros a Hq; [reflexivity|].
  apply Forall_cons in Hq as [Hm Hq]. cbn [map check_queue foldl].
  fold (check_queue (handle a (Msg m)) (map Msg q)).
  rewrite IH by exact Hq. apply handle_quiet. exact Hm.
Qed.

Lemma handle_terminal (a : App) (m : message) :
  is_terminal m = true ->
  control (handle a (Msg m)) = after_terminal m a.
Proof.
  destruct a as [ip cr st pb pi b eb rl pt].
  destruct m; try discriminate; intros _; destruct cr; reflexivity.
Qed.

Lemma quiet_split (q : list message) (m : message) :
  List.filter is_RESULT q = [] -> terminal_events q = [m] ->
  last q = Some m ->
  exists q', q = q' ++ [m] /\ Forall quiet q'.
Proof.
  intros Hr Ht Hl.
  destruct (last_Some q m) as [(q' & ->) _]; [exact Hl|]. exists q'.
  split; [reflexivity|].
  rewrite List.filter_app in Hr. apply app_eq_nil in Hr as [Hr _].
  unfold terminal_events in Ht. rewrite List.filter_app in Ht.
  assert (Hm : is_terminal m = true).
  { assert (Hin : In m (List.filter is_terminal q' ++ List.filter is_terminal [m]))
      by (rewrite Ht; left; reflexivity).
    apply in_app_iff in Hin as [Hin|Hin]; apply filter_In in Hin; tauto. }
  cbn [List.filter] in Ht. rewrite Hm in Ht.
  assert (Ht' : List.filter is_terminal q' = []).
  { destruct (List.filter is_terminal q') as [|x l]; [reflexivity|].
    destruct l; discriminate. }
  apply List.Forall_forall. intros x Hx. split.
  - destruct (is_RESULT x) eqn:E; [|reflexivity].
    assert (Hin : In x (List.filter is_RESULT q'))
      by (apply filter_In; auto).
    rewrite Hr in Hin. destruct Hin.
  - destruct (is_terminal x) eqn:E; [|reflexivity].
    assert (Hin : In x (List.filter is_terminal q'))
      by (apply filter_In; auto).
    rewrite Ht' in Hin. destruct Hin.
Qed.

Lemma omap_result_of_quiet (q : list message) :
  Forall quiet q -> omap result_of (map Msg q) = [].
Proof.
  induction 1 as [|m q [Hr _] _ IH]; [reflexivity|].
  destruct m; try discriminate; exact IH.
Qed.

Lemma omap_result_of_results (paths : list string) :
  omap result_of (map Msg (map RESULT paths)) = paths.
Proof.
  induction paths as [|p paths IH]; [reflexivity|].
  cbn [map]. change (omap result_of (Msg (RESULT p) :: ?l))
    with (p :: omap result_of l). rewrite IH. reflexivity.
Qed.


(** X19.  The window never clears its list of results: handling queue
    items only appends the paths of the RESULT messages among them, in
    order, and none of the three button callbacks changes the list (the
    export thread gets a copy of it).  So after a search that returns
    [paths] the list is the old list followed by [paths]: the results of
    an earlier search stay in the list, in the count and in the export. *)
Theorem results_are_never_cleared (a : App) :
  (forall items,
     current_results (check_queue a items)
     = current_results a ++ omap result_of items) /\
  (forall dirs db force n a' args,
     start_indexing a dirs db force n = inr (a', args) ->
     current_results a' = current_results a) /\
  (forall ref db db_exists tol a' args,
     start_search a ref db db_exists tol = inr (a', args) ->
     current_results a' = current_results a) /\
  (forall dest a' args,
     export_results a dest = inr (a', args) ->
     current_results a' = current_results a /\ args.1 = current_results a) /\
  (forall w read_fails ref db tol paths,
     fst (run_search w read_fails ref db tol) = Some paths ->
     current_results
       (check_queue a (map Msg (snd (run_search w read_fails ref db tol))))
     = current_results a ++ paths).
Proof.
  split; [intros items; apply check_queue_results|].
  split.
  { intros dirs db force n a' args. unfold start_indexing.
    destruct (is_processing a); [discriminate|].
    destruct dirs; [discriminate|].
    destruct (String.eqb db EmptyString); [discriminate|].
    intros [= <- _]. reflexivity. }
  split.
  { intros ref db db_exists tol a' args. unfold start_search.
    destruct (is_processing a); [discriminate|].
    destruct (String.eqb ref EmptyString); [discriminate|].
    destruct (String.eqb db EmptyString); [discriminate|].
    destruct db_exists; [|discriminate]. cbn [negb].
    destruct tol as [t|]; [|discriminate].
    destruct (negb _); [discriminate|].
    intros [= <- _]. reflexivity. }
  split.
  { intros dest a' args. unfold export_results.
    destruct (current_results a) as [|p ps] eqn:Hres; [discriminate|].
    destruct (is_processing a); [discriminate|].
    destruct (String.eqb dest EmptyString); [discriminate|].
    intros [= <- <-]. cbn. rewrite Hres. auto. }
  intros w read_fails ref db tol paths Hpaths.
  rewrite check_queue_results. f_equal.
  destruct (run_search_queue w read_fails ref db tol) as (q & Hq & Hquiet).
  cbn zeta in Hq. rewrite Hq, Hpaths. cbn [default from_option id].
  rewrite !map_app, !omap_app, omap_result_of_quiet by exact Hquiet.
  rewrite omap_result_of_results. cbn. rewrite app_nil_r. reflexivity.
Qed.


Lemma check_files_no_result (w : World) (indexed : gmap string float64)
    (all : list string) :
  forall s, List.filter is_RESULT (reported s) = [] ->
            List.filter is_RESULT
              (reported (foldl (check_file w indexed) s all)) = [].
Proof.
  induction all as [|p all IH]; intros s Hs; [exact Hs|].
  cbn [foldl]. apply IH. unfold check_file.
  destruct (stat_mtime w p) as [e|m].
  - destruct e; cbn [reported]; rewrite List.filter_app, Hs; reflexivity.
  - destruct (new_or_modified indexed p m); exact Hs.
Qed.

Lemma select_files_no_result (w : World) (indexed : gmap string float64)
    (force : bool) (all : list string) :
  List.filter is_RESULT (reported (select_files w indexed force all)) = [].
Proof.
  unfold select_files. destruct force; [reflexivity|].
  cbn [reported]. rewrite !List.filter_app.
  rewrite check_files_no_result by reflexivity.
  destruct (0 <? _)%nat; reflexivity.
Qed.

Lemma consume_no_result (o : Oracle) (total : nat)
    (items : list (string * option (list face_data))) :
  forall (i : nat) (s : loop_state),
    List.filter is_RESULT (queue (consume o total i items s))
    = List.filter is_RESULT (queue s).
Proof.
  induction items as [|[p r] items IH]; intros i s; [reflexivity|].
  rewrite consume_cons.
  assert (Hstep : List.filter is_RESULT
                    (queue (apply_result o total i (p, r) s))
                  = List.filter is_RESULT (queue s)).
  { destruct (apply_result_cases o total i p r s)
      as [(_ & _ & _ & ->)|[(_ & _ & _ & -> & _)
                           |(e & n & _ & _ & _ & _ & _ & ->)]];
      rewrite List.filter_app, app_nil_r; reflexivity. }
  destruct (fst (loop_body o total i (p, r) s)); [exact Hstep|].
  rewrite IH. exact Hstep.
Qed.

(** The indexer never puts a RESULT on the queue. *)
Lemma run_indexing_no_result (w : World) (o : Oracle) (dirs : list string)
    (db : option Table) (force : bool) (model : string) (workers : Z) :
  List.filter is_RESULT
    (status_queue (run_indexing w o dirs db force model workers)) = [].
Proof.
  unfold run_indexing, setup_database.
  set (q0 := _ ++ (if force then _ else _)).
  assert (Hq0 : List.filter is_RESULT q0 = [])
    by (subst q0; destruct force; reflexivity).
  destruct (setup_fails o); [exact Hq0|].
  set (sel := select_files w _ force _).
  pose proof (select_files_no_result w
                (get_indexed_files o (Some (default empty_table db)))
                force (find_image_files w dirs)) as Hsel.
  fold sel in Hsel.
  destruct (files_to_process sel) as [|p ps].
  { cbn [status_queue]. rewrite !List.filter_app, Hq0, Hsel. reflexivity. }
  destruct (connect_fails o).
  { cbn [status_queue]. rewrite !List.filter_app, Hq0, Hsel. reflexivity. }
  destruct ((workers <? 1) || pool_start_fails o).
  { cbn [status_queue]. rewrite !List.filter_app, Hq0, Hsel. reflexivity. }
  match goal with
  | |- context [run_pool w o model ?files ?s] =>
    pose proof (run_pool_state w o model files s) as (_ & _ & tail & Hq & Ht);
    destruct (run_pool w o model files s) as [sb|sr]
  end; cbn [pool_state status_queue queue] in *;
    rewrite ?List.filter_app, Hq, List.filter_app, consume_no_result;
    cbn [queue]; rewrite !List.filter_app, Hq0, Hsel;
    destruct Ht as [-> | [-> | ->]]; reflexivity.
Qed.

Lemma quiet_filters (q : list message) :
  List.filter is_RESULT q = [] -> terminal_events q = [] -> Forall quiet q.
Proof.
  unfold terminal_events. induction q as [|m q IH]; [constructor|].
  cbn [List.filter]. intros Hr Ht.
  destruct (is_RESULT m) eqn:E1; [discriminate|].
  destruct (is_terminal m) eqn:E2; [discriminate|].
  constructor; [split; assumption | apply IH; assumption].
Qed.

(** A run that blocks has put neither a result nor a terminal event on the
    queue. *)
Lemma blocked_queue_quiet (w : World) (o : Oracle) (dirs : list string)
    (db : option Table) (force : bool) (model : string) (workers : Z) :
  blocked (run_indexing w o dirs db force model workers) = true ->
  Forall quiet (status_queue (run_indexing w o dirs db force model workers)).
Proof.
  intros Hb. apply quiet_filters; [apply run_indexing_no_result|].
  destruct (setup_fails o) eqn:Hsetup.
  - unfold run_indexing, setup_database in Hb. rewrite Hsetup in Hb.
    discriminate.
  - destruct (run_indexing_terminal w o dirs db force model workers Hsetup)
      as (_ & _ & H & _). apply H. exact Hb.
Qed.

Lemma setup_failure_queue_quiet (w : World) (o : Oracle) (dirs : list string)
    (db : option Table) (force : bool) (model : string) (workers : Z) :
  setup_fails o = true ->
  Forall quiet (status_queue (run_indexing w o dirs db force model workers)).
Proof.
  intros Hsetup. unfold run_indexing, setup_database. rewrite Hsetup.
  cbn [status_queue]. destruct force; repeat constructor.
Qed.

(** X21.  The window after it handled the whole queue of an indexing run.
    The results are untouched.  When [setup_database] exits, or when the
    run blocks for ever because a worker process died, nothing on the queue
    re-enables the buttons: the window stays as busy as the callback left
    it.  Otherwise the run's one terminal event decides: after DONE with
    results of an earlier search in the list, the window stays busy and
    starts a preview thread on them; in every other case it is idle. *)
Theorem window_after_indexing (a : App) (w : World) (o : Oracle)
    (dirs : list string) (db : option Table) (force : bool) (model : string)
    (workers : Z) :
  let r := run_indexing w o dirs db force model workers in
  let a' := check_queue a (map Msg (status_queue r)) in
  current_results a' = current_results a /\
  (setup_fails o = true \/ blocked r = true ->
   is_processing a' = is_processing a /\ buttons a' = buttons a /\
   export_button a' = export_button a /\
   preview_threads a' = preview_threads a) /\
  (setup_fails o = false -> blocked r = false ->
   exists m,
     terminal_events (status_queue r) = [m] /\
     match m, current_results a with
     | DONE, _ :: _ =>
       is_processing a' = true /\ buttons a' = false /\
       export_button a' = false /\
       preview_threads a' = preview_threads a ++ [current_results a]
     | _, [] =>
       is_processing a' = false /\ buttons a' = true /\
       export_button a' = false /\
       preview_threads a' = preview_threads a
     | _, _ :: _ =>
       is_processing a' = false /\ buttons a' = true /\
       export_button a' = true /\
       preview_threads a' = preview_threads a
     end).
Proof.
  cbn zeta.
  pose proof (run_indexing_no_result w o dirs db force model workers) as Hnr.
  pose proof (blocked_queue_quiet w o dirs db force model workers) as Hbq.
  pose proof (setup_failure_queue_quiet w o dirs db force model workers)
    as Hsq.
  pose proof (run_indexing_terminal w o dirs db force model workers) as Hterm.
  cbn zeta in Hterm.
  set (r := run_indexing w o dirs db force model workers) in *.
  split; [|split].
  - rewrite check_queue_results.
    assert (H : omap result_of (map Msg (status_queue r)) = []).
    { clear -Hnr. induction (status_queue r) as [|m q IH]; [reflexivity|].
      cbn [List.filter] in Hnr. destruct m; try discriminate;
        cbn [is_RESULT] in Hnr; apply IH; exact Hnr. }
    rewrite H. apply app_nil_r.
  - intros Hor.
    assert (Hquiet : Forall quiet (status_queue r))
      by (destruct Hor as [H|H]; [apply Hsq | apply Hbq]; exact H).
    pose proof (check_queue_quiet (status_queue r) a Hquiet) as H.
    unfold control in H. injection H as E1 E2 E3 E4 E5 E6. auto.
  - intros Hsetup Hblocked.
    destruct (Hterm Hsetup) as (_ & Hret & _).
    destruct (Hret Hblocked) as (m & Hm & Ht & Hl).
    exists m. split; [exact Ht|].
    destruct (quiet_split (status_queue r) m Hnr Ht Hl) as (q' & -> & Hq').
    rewrite map_app, check_queue_app.
    set (a1 := check_queue a (map Msg q')).
    pose proof (check_queue_quiet q' a Hq') as H1. fold a1 in H1.
    pose proof (handle_terminal a1 m Hm) as H2.
    change (check_queue a1 (map Msg [m])) with (handle a1 (Msg m)).
    unfold control in H1, H2. unfold after_terminal in H2.
    injection H1 as E1 E2 E3 E4 E5 E6. rewrite E2, E6 in H2.
    destruct m; try discriminate Hm;
      destruct (current_results a) as [|x xs];
      injection H2 as G1 G2 G3 G4 G5 G6; auto 10.
Qed.

(** X22.  Whatever happens to the individual thumbnails, handling the
    messages of a preview leaves the window idle with the buttons enabled,
    the progress bar reset and the count label showing the number of
    results; the export button is enabled when there are results. *)
Theorem preview_ends_idle (a : App) (open_image : string -> thumbnail)
    (file_paths : list string) :
  let a' := check_queue a (populate_preview_area open_image file_paths) in
  is_processing a' = false /\ buttons a' = true /\
  current_results a' = current_results a /\
  export_button a' = match current_results a with
                     | [] => export_button a
                     | _ :: _ => true
                     end /\
  results_count_label a' = Some (length (current_results a)) /\
  progress_indeterminate a' = false /\ progress_bar a' = None /\
  preview_threads a' = preview_threads a.
Proof.
  cbn zeta. unfold populate_preview_area.
  rewrite !check_queue_app.
  set (a1 := check_queue a [PREVIEW_START]).
  assert (H1 : control a1 = control a) by (destruct a; reflexivity).
  set (msgs := flat_map _ file_paths).
  assert (Hq : exists q, msgs = map Msg q /\ Forall quiet q).
  { subst msgs. induction file_paths as [|p ps (q & IH & Hq)].
    - exists []. split; [reflexivity | constructor].
    - cbn [flat_map]. rewrite IH.
      destruct (open_image p);
        [ exists q; split; [reflexivity | exact Hq]
        | eexists (_ :: q); split; [reflexivity|];
          constructor; [split; reflexivity | exact Hq] .. ]. }
  destruct Hq as (q & -> & Hq).
  set (a2 := check_queue a1 (map Msg q)).
  pose proof (check_queue_quiet q a1 Hq) as H2. fold a2 in H2.
  rewrite H1 in H2. unfold control in H2.
  injection H2 as E1 E2 E3 E4 E5 E6.
  change (check_queue a2 [PREVIEW_DONE]) with (handle a2 PREVIEW_DONE).
  destruct a2 as [ip cr st pb pi b eb rl pt]. cbn in E1, E2, E3, E4, E5, E6.
  subst. destruct (current_results a); cbn; auto 10.
Qed.
(** * The examples, run *)

(** The scenario of the specification: [a.jpg] with one face and [b.jpg]
    with none are indexed into a fresh store, which then holds one row. *)
Example index_demo :
  option_map (fun t => map (fun r => (row_id r, file_path r)) (rows t))
    (db_after (run_indexing Demo.world Demo.calm ["/photos"] None false "hog" 4))
  = Some [(1, "/photos/a.jpg")].
Proof. vm_compute. reflexivity. Qed.

(** Searching the demo store: [a.jpg] matches twice and is listed once,
    [Z.jpg] sorts before it, the malformed row only causes a warning. *)
Example search_demo :
  fst (run_search Demo.world false "/ref.jpg" (Some Demo.store) Demo.tolerance)
  = Some ["/photos/Z.jpg"; "/photos/a.jpg"].
Proof. vm_compute. reflexivity. Qed.

(** The second of two runs over the demo collection, nothing having
    changed in between, processes [b.jpg] again: the first run stored no row
    for it. *)
Lemma second_run_reprocesses_faceless_file :
  let r1 := run_indexing Demo.world Demo.calm ["/photos"] None false "hog" 4 in
  let r2 := run_indexing Demo.world Demo.calm ["/photos"] (db_after r1) false
              "hog" 4 in
  List.filter is_PROGRESS (status_queue r2) = [PROGRESS 1 1 "b.jpg"] /\
  files_to_process
    (select_files Demo.world (get_indexed_files Demo.calm (db_after r1)) false
       (find_image_files Demo.world ["/photos"])) = ["/photos/b.jpg"].
Proof. split; vm_compute; reflexivity. Qed.

(** A file whose modification time has increased since it was indexed is
    selected by the next run, together with the faceless [b.jpg]. *)
Example modified_file_selected :
  files_to_process
    (select_files Demo.touched
       (get_indexed_files Demo.calm
          (db_after (run_indexing Demo.world Demo.calm ["/photos"] None false
                       "hog" 4)))
       false (find_image_files Demo.touched ["/photos"]))
  = ["/photos/a.jpg"; "/photos/b.jpg"].
Proof. vm_compute. reflexivity. Qed.

Lemma calm_fault_free : fault_free Demo.calm.
Proof.
  unfold fault_free, Demo.calm; cbn.
  repeat split; reflexivity.
Defined.

Lemma calm_only_database_errors : only_database_errors Demo.calm.
Proof. intros i n e H. discriminate H. Defined.

Lemma flaky_only_database_errors : only_database_errors Demo.flaky.
Proof.
  intros i n e. unfold Demo.flaky, statement_fails.
  destruct (i =? 0)%nat; [intros [= _ <-]; reflexivity | discriminate].
Defined.

(** [a.jpg], stored with three faces and modified since, shows one face
    now: after its result is applied the store holds this one record for
    it. *)
Lemma replace_atomic_witness :
  pending (cn Demo.resumed) = None /\
  ["/photos/a.jpg"; "/photos/b.jpg"] !! 0%nat = Some "/photos/a.jpg" /\
  length (records_for "/photos/a.jpg" (committed (cn Demo.resumed))) = 3%nat /\
  length (default [] (snd (process_image Demo.touched "hog" "/photos/a.jpg")))
  = 1%nat /\
  records_for "/photos/a.jpg"
    (committed
       (cn (consume Demo.calm 2 0
              (firstn 1 (map (process_image Demo.touched "hog")
                           ["/photos/a.jpg"; "/photos/b.jpg"]))
              Demo.resumed)))
  = default [] (snd (process_image Demo.touched "hog" "/photos/a.jpg")).
Proof.
  split; [reflexivity|]. split; [reflexivity|]. split; [reflexivity|].
  split; [reflexivity|].
  exact (proj2 (proj2 (proj2 (replace_atomic Demo.touched Demo.calm "hog"
                                ["/photos/a.jpg"; "/photos/b.jpg"] 0
                                "/photos/a.jpg" Demo.resumed eq_refl eq_refl)
                         eq_refl eq_refl))).
Defined.

(** The second call for the result of [a.jpg], the first insert, raises
    [sqlite3.Error]: the error is counted and the three rows the file had
    are all still there. *)
Example database_error_keeps_old_rows :
  let s := apply_result Demo.flaky 2 0
             (process_image Demo.touched "hog" "/photos/a.jpg") Demo.resumed in
  committed (cn s) = Demo.store /\ pending (cn s) = None /\
  db_errors (counts s) = 1%nat.
Proof. vm_compute. repeat split; reflexivity. Qed.

(** The delete for the result of [b.jpg] raises [UnicodeEncodeError]: the
    handler does not catch it, the loop is left, and neither the store nor
    a counter has changed. *)
Example uncaught_exception_leaves_the_loop :
  let item := process_image Demo.touched "hog" "/photos/b.jpg" in
  fst (loop_body (Demo.garbled 1) 2 1 item Demo.resumed)
  = inl UnicodeEncodeError /\
  cn (apply_result (Demo.garbled 1) 2 1 item Demo.resumed) = cn Demo.resumed /\
  counts (apply_result (Demo.garbled 1) 2 1 item Demo.resumed)
  = counts Demo.resumed.
Proof. vm_compute. repeat split; reflexivity. Qed.

Lemma change_detection_witness :
  In "/photos/b.jpg"
    (files_to_process
       (select_files Demo.world
          (get_indexed_files Demo.calm (Some Demo.store)) false
          ["/photos/a.jpg"; "/photos/b.jpg"; "/photos/gone.jpg"])).
Proof.
  apply (proj1 (change_detection Demo.world
                  (get_indexed_files Demo.calm (Some Demo.store))
                  ["/photos/a.jpg"; "/photos/b.jpg"; "/photos/gone.jpg"])).
  split; [right; left; reflexivity|].
  exists Demo.t0. split; [reflexivity|]. left. vm_compute. reflexivity.
Defined.

Lemma search_result_witness :
  exists (paths : list string) (q : list message),
    run_search Demo.world false "/ref.jpg" (Some Demo.store) Demo.tolerance =
      (Some paths, q ++ map RESULT paths ++ [DONE]) /\
    List.filter (fun m => is_RESULT m || is_terminal m) q = [] /\
    StronglySorted str_le paths /\ NoDup paths /\
    forall p, In p paths <->
      exists r, In r (rows Demo.store) /\ file_path r = p /\
                valid_row Demo.world r = true /\
                Float64.le (face_distance Demo.world (decoded Demo.world r)
                              Demo.E1) Demo.tolerance = true.
Proof.
  apply (search_result Demo.world "/ref.jpg" Demo.store Demo.tolerance
           Demo.E1 []).
  - reflexivity.
  - reflexivity.
  - intros _. exists (Demo.face_row 1 "/photos/a.jpg" Demo.E1).
    split; [left; reflexivity | vm_compute; reflexivity].
Defined.

(** C3, as stated.  The store holds one row, whose blob is 8 bytes long, so
    no path has a stored embedding within the tolerance of the reference
    embedding: the result would be the empty list, followed by the
    completion event.  The search returns no list and ends with ABORTED. *)
Lemma search_aborts_without_valid_embedding :
  let r := run_search Demo.world false "/ref.jpg" (Some Demo.damaged)
             Demo.tolerance in
  rows Demo.damaged <> [] /\
  is_file Demo.world "/ref.jpg" = true /\
  reference_encodings Demo.world "/ref.jpg" = inr [Demo.E1] /\
  List.filter (valid_row Demo.world) (rows Demo.damaged) = [] /\
  fst r = None /\
  List.filter is_RESULT (snd r) = [] /\
  terminal_events (snd r) = [ABORTED] /\
  last (snd r) = Some ABORTED.
Proof.
  cbn zeta. split; [discriminate|]. repeat split; vm_compute; reflexivity.
Qed.

Lemma process_image_outcome_witness :
  snd (process_image Demo.world "hog" "/photos/b.jpg") = None.
Proof.
  apply (proj2 (proj2 (proj2
           (process_image_outcome Demo.world "hog" "/photos/b.jpg")))
           Demo.t0 [0]); reflexivity.
Defined.

Lemma second_run_witness :
  let r1 := run_indexing Demo.world Demo.calm ["/photos"] None false "hog" 4 in
  let r2 := run_indexing Demo.world Demo.calm ["/photos"] (db_after r1) false
              "hog" 4 in
  exists T1 : Table,
    db_after r1 = Some T1 /\
    db_after r2 = Some T1 /\
    let again :=
      List.filter (fun p => negb (stat_raises Demo.world p) &&
                            bool_decide (rows_for p T1 = []))
        (find_image_files Demo.world ["/photos"]) in
    files_to_process
      (select_files Demo.world (get_indexed_files Demo.calm (Some T1)) false
         (find_image_files Demo.world ["/photos"])) = again /\
    Forall (fun p => snd (process_image Demo.world "hog" p) = None) again /\
    length (List.filter is_PROGRESS (status_queue r2)) = length again.
Proof.
  apply (second_run Demo.world Demo.calm Demo.calm ["/photos"] None false
           "hog" 4 4 calm_fault_free calm_fault_free); lia.
Defined.

Lemma empty_store_witness :
  rows empty_table = [] /\ is_file Demo.world "/ref.jpg" = true /\
  fst (run_search Demo.world false "/ref.jpg" (Some empty_table) Demo.tolerance)
  = Some [].
Proof.
  split; [reflexivity|]. split; [reflexivity|].
  apply (proj2 (missing_store_aborts_empty_store_completes Demo.world false
                  "/ref.jpg" Demo.tolerance) empty_table); reflexivity.
Defined.

Lemma invalid_embeddings_dropped_witness :
  List.filter (valid_row Demo.world) (rows Demo.store) <> [] /\
  fst (load_all_encodings_from_db Demo.world false (Some Demo.store)) =
  Some (map file_path (List.filter (valid_row Demo.world) (rows Demo.store)),
        map (decoded Demo.world)
          (List.filter (valid_row Demo.world) (rows Demo.store))).
Proof.
  assert (H : List.filter (valid_row Demo.world) (rows Demo.store) <> [])
    by (vm_compute; discriminate).
  split; [exact H|].
  apply (proj1 (proj2 (proj2
           (invalid_embeddings_dropped Demo.world Demo.store)))).
  exact H.
Defined.

Lemma setup_failure_witness :
  setup_fails Demo.no_database = true /\
  terminal_events
    (status_queue
       (run_indexing Demo.world Demo.no_database ["/photos"] None false "hog" 4))
  = [].
Proof.
  split; [reflexivity|].
  apply (setup_failure_no_terminal_event Demo.world Demo.no_database
           ["/photos"] None false "hog" 4). reflexivity.
Defined.

Lemma results_independent_witness :
  pending (cn Demo.start) = None /\
  forall x,
    records_for x
      (committed
         (cn (consume Demo.calm 2 0
                [process_image Demo.world "hog" "/photos/a.jpg";
                 process_image Demo.world "hog" "/photos/b.jpg"]
                Demo.start))) =
    records_for x
      (committed
         (cn (consume Demo.calm 2 0
                [process_image Demo.world "hog" "/photos/b.jpg";
                 process_image Demo.world "hog" "/photos/a.jpg"]
                Demo.start))).
Proof.
  split; [reflexivity|].
  apply (proj2 (results_independent Demo.calm 2 Demo.start eq_refl)).
  - reflexivity.
  - repeat constructor; vm_compute; discriminate.
  - apply (bool_decide_unpack _). vm_compute. exact I.
  - apply perm_swap.
Defined.

Lemma blob_roundtrip_witness :
  length Demo.E1 = 128%nat /\ Forall Float64.wf Demo.E1 /\
  blob_to_np_array little (np_array_to_blob little Demo.E1) = ret Demo.E1.
Proof.
  assert (Hwf : Forall Float64.wf Demo.E1).
  { apply List.Forall_forall. intros x Hx. unfold Demo.E1 in Hx.
    apply in_map_iff in Hx as (n & <- & Hn). apply in_seq in Hn.
    unfold Float64.wf. lia. }
  split; [reflexivity|]. split; [exact Hwf|].
  apply (blob_roundtrip little Demo.E1); [reflexivity | exact Hwf].
Defined.

(** ** The further properties, at the examples *)

Lemma calm_pool_sound : pool_sound Demo.calm.
Proof. intros l x H. exact H. Defined.

Lemma demo_provider_128 : provider_128 Demo.world.
Proof.
  intros img locs jitters model encs [= <-]. apply List.Forall_forall.
  intros e He.
  apply in_map_iff in He as (loc & <- & _). split; [reflexivity|].
  apply List.Forall_forall. intros x Hx. unfold Demo.E1 in Hx.
  apply in_map_iff in Hx as (n & <- & Hn). apply in_seq in Hn.
  unfold Float64.wf. lia.
Defined.

Lemma run_keeps_unselected_rows_witness :
  rows_for "/photos/c.jpg"
    (table_after (run_indexing Demo.world Demo.calm ["/photos"]
                    (Some Demo.store) false "hog" 4))
  = rows_for "/photos/c.jpg" Demo.store.
Proof.
  apply (proj2 (run_keeps_unselected_rows Demo.world Demo.calm ["/photos"]
                  (Some Demo.store) false "hog" 4 "/photos/c.jpg"
                  calm_pool_sound)).
  vm_compute. intros [H|[H|[]]]; discriminate.
Defined.

Lemma run_replaces_selected_witness :
  records_for "/photos/a.jpg"
    (table_after (run_indexing Demo.touched Demo.calm ["/photos"]
                    (Some Demo.store) false "hog" 4))
  = faces_of Demo.touched "hog" "/photos/a.jpg".
Proof.
  apply (run_replaces_selected Demo.touched Demo.calm ["/photos"]
           (Some Demo.store) false "hog" 4 "/photos/a.jpg" calm_fault_free).
  - lia.
  - vm_compute. left. reflexivity.
Defined.

Lemma fault_free_summary_witness :
  In (PLAIN "Files successfully processed (faces stored): {}" [num 1])
     (status_queue (run_indexing Demo.world Demo.calm ["/photos"] None false
                      "hog" 4)) /\
  In (PLAIN "Files with processing errors or no faces: {}" [num 1])
     (status_queue (run_indexing Demo.world Demo.calm ["/photos"] None false
                      "hog" 4)).
Proof.
  assert (H1 : 1 <= 4) by lia.
  assert (H2 : selected_files Demo.world Demo.calm ["/photos"] None false
               <> []) by (vm_compute; discriminate).
  destruct (fault_free_summary Demo.world Demo.calm ["/photos"] None false
              "hog" 4 calm_fault_free H1 H2) as (Ha & _ & Hb & _).
  split; [exact Ha | exact Hb].
Defined.

Lemma summary_bounds_witness :
  let q := status_queue (run_indexing Demo.world Demo.flaky ["/photos"] None
                           false "hog" 4) in
  exists processed failed db_failed : nat,
    In (PLAIN "Database update errors: {}" [num db_failed]) q /\
    (processed + db_failed <= length (List.filter is_PROGRESS q))%nat /\
    length (List.filter is_PROGRESS q) = 2%nat /\
    (length (List.filter is_PROGRESS q)
     <= processed + failed + db_failed)%nat.
Proof.
  cbn zeta.
  assert (H1 : 1 <= 4) by lia.
  assert (H2 : selected_files Demo.world Demo.flaky ["/photos"] None false
               <> []) by (vm_compute; discriminate).
  assert (H3 : forall k, pool_breaks_after Demo.flaky <> Some (k, blocks))
    by (intros k; discriminate).
  destruct (summary_bounds Demo.world Demo.flaky ["/photos"] None false
              "hog" 4 eq_refl eq_refl eq_refl H1 H2 H3)
    as (p & f & d & _ & _ & Hd & _ & Ha & _ & _ & Hall).
  destruct (Hall flaky_only_database_errors) as [Hn Hb].
  exists p, f, d. split; [exact Hd|]. split; [exact Ha|].
  split; [exact Hn | exact Hb].
Defined.

(** The run in which the delete for the second result raises
    [UnicodeEncodeError]: two progress reports, one file counted as
    processed, the other in no tally. *)
Example uncaught_exception_leaves_result_uncounted :
  let q := status_queue (run_indexing Demo.world (Demo.garbled 1) ["/photos"]
                           None false "hog" 4) in
  List.filter is_PROGRESS q = [PROGRESS 1 2 "a.jpg"; PROGRESS 2 2 "b.jpg"] /\
  In (PLAIN "Files successfully processed (faces stored): {}" [num 1]) q /\
  In (PLAIN "Files with processing errors or no faces: {}" [num 0]) q /\
  In (PLAIN "Database update errors: {}" [num 0]) q /\
  In (ERROR "during multiprocessing pool execution: {}" []) q /\
  last q = Some DONE.
Proof.
  vm_compute.
  repeat split; repeat (first [left; reflexivity | right]).
Qed.

Lemma progress_counts_up_witness :
  omap progress_fraction
    (status_queue (run_indexing Demo.world Demo.calm ["/photos"] None false
                     "hog" 4))
  = [(1, 2); (2, 2)]%nat.
Proof.
  assert (H1 : 1 <= 4) by lia.
  assert (H2 : selected_files Demo.world Demo.calm ["/photos"] None false
               <> []) by (vm_compute; discriminate).
  exact (proj1 (proj2 (progress_counts_up Demo.world Demo.calm ["/photos"]
                         None false "hog" 4 eq_refl eq_refl eq_refl H1 H2)
                  calm_only_database_errors)).
Defined.

(** When the delete for the first of two results raises
    [UnicodeEncodeError], the only progress report is "1 of 2", although the
    pool yields both results. *)
Example uncaught_exception_stops_progress :
  omap progress_fraction
    (status_queue (run_indexing Demo.world (Demo.garbled 0) ["/photos"] None
                     false "hog" 4))
  = [(1, 2)]%nat /\
  length (consumed (Demo.garbled 0)
            (selected_files Demo.world (Demo.garbled 0) ["/photos"] None
               false)) = 2%nat.
Proof. split; vm_compute; reflexivity. Qed.

Lemma snapshot_is_max_witness :
  get_indexed_files Demo.calm (Some Demo.store) !! "/photos/q.jpg" = None <->
  rows_for "/photos/q.jpg" Demo.store = [].
Proof.
  exact (proj1 (snapshot_is_max Demo.calm Demo.store "/photos/q.jpg" eq_refl)).
Defined.

Lemma search_monotone_in_tolerance_witness :
  exists paths2,
    fst (run_search Demo.world false "/ref.jpg" (Some Demo.store)
           4607182418800017408) = Some paths2 /\
    forall p, In p ["/photos/Z.jpg"; "/photos/a.jpg"] -> In p paths2.
Proof.
  apply (search_monotone_in_tolerance Demo.world false "/ref.jpg"
           (Some Demo.store) Demo.tolerance 4607182418800017408).
  - vm_compute. reflexivity.
  - vm_compute. reflexivity.
Defined.

Lemma loaded_embeddings_well_formed_witness :
  let r := load_all_encodings_from_db Demo.world false (Some Demo.store) in
  length (default ([], []) (fst r)).1 = length (default ([], []) (fst r)).2.
Proof.
  cbn zeta.
  refine (proj1 (loaded_embeddings_well_formed Demo.world false
                   (Some Demo.store) _ _
                   (snd (load_all_encodings_from_db Demo.world false
                           (Some Demo.store))) _)).
  vm_compute. reflexivity.
Defined.


Lemma blob_codec_witness :
  blob_to_np_array little (le_split 7 0) = raise ValueError /\
  np_array_to_blob little [Demo.t0] = le_split 8 Demo.t0.
Proof.
  split.
  - apply (proj1 (proj2 (blob_codec little))). vm_compute. discriminate.
  - apply (proj2 (proj2 (blob_codec little)) (le_split 8 Demo.t0) [Demo.t0]).
    vm_compute. reflexivity.
Defined.

Lemma worker_records_witness :
  exists lm img locs encs,
    stat_mtime Demo.world "/photos/a.jpg" = inr lm /\
    load_image_file Demo.world "/photos/a.jpg" = inr img /\
    face_locations Demo.world "hog" img = inr locs /\
    face_encodings Demo.world img locs NUM_JITTERS ENCODING_MODEL = inr encs /\
    length (faces_of Demo.world "hog" "/photos/a.jpg")
    = Nat.min (length encs) (length locs).
Proof.
  destruct (worker_records Demo.world "hog" "/photos/a.jpg"
              (faces_of Demo.world "hog" "/photos/a.jpg") eq_refl)
    as (lm & img & locs & encs & H1 & H2 & H3 & H4 & H5 & _).
  exists lm, img, locs, encs. auto.
Defined.

Lemma index_then_search_witness :
  exists paths,
    fst (run_search Demo.world false "/ref.jpg"
           (db_after (run_indexing Demo.world Demo.calm ["/photos"] None false
                        "hog" 4)) Demo.tolerance) = Some paths /\
    In "/photos/a.jpg" paths.
Proof.
  assert (H1 : 1 <= 4) by lia.
  destruct (index_then_search Demo.world Demo.calm ["/photos"] None false
              "hog" 4 "/ref.jpg" Demo.tolerance Demo.E1 [] calm_fault_free H1
              demo_provider_128)
    as (paths & Hp & Hiff).
  - intros r [].
  - reflexivity.
  - reflexivity.
  - exists paths. split; [exact Hp|]. apply Hiff. left.
    split; [vm_compute; left; reflexivity|].
    exists Demo.E1. split; [|vm_compute; reflexivity].
    exists Demo.t0, [1], [(10, 50, 50, 10)], [Demo.E1], 0%nat.
    repeat split; try reflexivity. cbn. lia.
Defined.

Lemma unreadable_snapshot_rescans_everything_witness :
  selected_files Demo.world Demo.calm ["/photos"] None false
  = List.filter (fun p => negb (stat_raises Demo.world p))
      (find_image_files Demo.world ["/photos"]).
Proof.
  apply (unreadable_snapshot_rescans_everything Demo.world Demo.calm
           ["/photos"] None).
  right. reflexivity.
Defined.


(** Both files called [a.jpg] are counted as exported; the folder holds the
    second one only, next to the file it had. *)
Lemma export_overwrites_same_name_witness :
  let dest' := default ∅ (fst (_perform_export Demo.copying Demo.exported
                                 (Some Demo.album))) in
  dest' !! "notes.txt" = Some "holiday" /\
  dest' !! "a.jpg" = Some "pixels of /backup/a.jpg" /\
  size dest' = 2%nat.
Proof.
  cbn zeta.
  destruct (export_overwrites_same_name Demo.copying Demo.exported
              (Some Demo.album)
              (default ∅ (fst (_perform_export Demo.copying Demo.exported
                                 (Some Demo.album)))) eq_refl)
    as (Hframe & Hlast & _).
  split; [|split].
  - rewrite (Hframe "notes.txt"); [reflexivity|].
    vm_compute. intros [H|[H|[H|[]]]]; discriminate.
  - apply (Hlast 1%nat "/backup/a.jpg"); [reflexivity | reflexivity |].
    intros j q Hj Hq _. destruct j as [|[|[|j]]]; try lia; [reflexivity|].
    discriminate.
  - vm_compute. reflexivity.
Defined.

(** A second search from a window that still lists the result of an earlier
    one. *)
Lemma results_are_never_cleared_witness :
  current_results
    (check_queue (append_result "/old/x.jpg" Demo.searching)
       (map Msg (snd (run_search Demo.world false "/ref.jpg"
                        (Some Demo.store) Demo.tolerance))))
  = ["/old/x.jpg"; "/photos/Z.jpg"; "/photos/a.jpg"].
Proof.
  apply (proj2 (proj2 (proj2 (proj2
           (results_are_never_cleared
              (append_result "/old/x.jpg" Demo.searching)))))
           Demo.world false "/ref.jpg" (Some Demo.store) Demo.tolerance
           ["/photos/Z.jpg"; "/photos/a.jpg"]).
  vm_compute. reflexivity.
Defined.


(** The window that started an indexing run whose database cannot be set
    up stays busy, and so does the window that started a run in which a
    worker process dies. *)
Lemma window_after_indexing_witness :
  is_processing
    (check_queue (begin Starting_indexing_process init)
       (map Msg (status_queue
                   (run_indexing Demo.world Demo.no_database ["/photos"] None
                      false "hog" 4)))) = true /\
  is_processing
    (check_queue (begin Starting_indexing_process init)
       (map Msg (status_queue
                   (run_indexing Demo.world Demo.stuck ["/photos"] None
                      false "hog" 4)))) = true.
Proof.
  split.
  - destruct (window_after_indexing (begin Starting_indexing_process init)
                Demo.world Demo.no_database ["/photos"] None false "hog" 4)
      as (_ & H & _).
    destruct (H (or_introl eq_refl)) as (H1 & _). exact H1.
  - destruct (window_after_indexing (begin Starting_indexing_process init)
                Demo.world Demo.stuck ["/photos"] None false "hog" 4)
      as (_ & H & _).
    destruct (H (or_intror eq_refl)) as (H1 & _). exact H1.
Defined.

Lemma preview_ends_idle_witness :
  let a := check_queue Demo.searching
             (map Msg (snd (run_search Demo.world false "/ref.jpg"
                              (Some Demo.store) Demo.tolerance))) in
  let a' := check_queue a
              (populate_preview_area Demo.thumbnails (current_results a)) in
  is_processing a' = false /\ export_button a' = true.
Proof.
  cbn zeta.
  match goal with
  | |- is_processing (check_queue ?a (populate_preview_area ?f ?l)) = _ /\ _ =>
    destruct (preview_ends_idle a f l) as (H1 & _ & _ & H4 & _)
  end.
  split; [exact H1|]. rewrite H4. vm_compute. reflexivity.
Defined.
